(** * The GNN clustering notebook (2_clustering/gnn_cluster.ipynb)

    A shallow embedding of the notebook's cells.  Float tensors are read
    over the real numbers, so rounding, overflow and NaN are not
    represented, except where the kernel's sigmoid is read in single
    precision: a 2-D tensor is the list of its rows, a 1-D tensor a
    list.  Python exceptions (KeyError, shape mismatch, IndexError,
    ZeroDivisionError) are [None] in the option monad.  The dictionaries
    [g.ndata] and [g.edata] of a DGL graph are finite maps keyed by
    strings.  The functions of torch and DGL that the notebook calls are
    written out from their documented behaviour where a property depends
    on it (linear layers, ReLU, sigmoid, pairwise distance, hinge embedding
    loss, [apply_edges], [update_all], batching) and left abstract
    otherwise. *)

From Stdlib Require Import Reals Lra Lia ZArith.
From stdpp Require Import base option list gmap strings sorting.

Local Open Scope R_scope.

(** Equality of reals is decided classically, as the library does. *)
#[global] Instance R_eq_dec : EqDecision R := Req_dec_T.

(** ** Tensors *)

Inductive tensor :=
  | TMat (m : list (list R))   (* 2-D float tensor, row major *)
  | TVec (v : list R)          (* 1-D float tensor *)
  | TInt (v : list Z).         (* 1-D integer tensor *)

(** [t.size(0)] *)
Definition size0 (t : tensor) : nat :=
  match t with
  | TMat m => length m
  | TVec v => length v
  | TInt v => length v
  end.

Definition as_mat (t : tensor) : option (list (list R)) :=
  match t with TMat m => Some m | _ => None end.

Definition as_int (t : tensor) : option (list Z) :=
  match t with TInt v => Some v | _ => None end.

(** Index selection [t[idx]] along dimension 0. *)
Definition gather {A} (l : list A) (idx : list nat) : option (list A) :=
  mapM (λ i, l !! i) idx.

Definition tgather (t : tensor) (idx : list nat) : option tensor :=
  match t with
  | TMat m => TMat <$> gather m idx
  | TVec v => TVec <$> gather v idx
  | TInt v => TInt <$> gather v idx
  end.

(** [torch.cat((a, b), dim=1)] on 2-D tensors. *)
Definition cat1 (a b : list (list R)) : option (list (list R)) :=
  guard (length a = length b);; Some (zip_with app a b).

Definition map2d (f : R → R) (m : list (list R)) : list (list R) :=
  (λ r : list R, f <$> r) <$> m.

Definition rsum (l : list R) : R := foldr Rplus 0 l.

Definition dot (a b : list R) : R := rsum (zip_with Rmult a b).

(** ** torch.nn modules used by the notebook *)

(** [nn.Linear(in_features, out_features)]: [y = x W^T + b]. *)
Record Linear := {
  in_features : nat;
  out_features : nat;
  weight : list (list R);
  bias : list R
}.

Definition linear_wf (l : Linear) : Prop :=
  length (weight l) = out_features l ∧
  Forall (λ r, length r = in_features l) (weight l) ∧
  length (bias l) = out_features l.

Definition linear_row (l : Linear) (x : list R) : option (list R) :=
  guard (length x = in_features l);;
  Some (zip_with Rplus (dot x <$> weight l) (bias l)).

Definition linear (l : Linear) (x : list (list R)) : option (list (list R)) :=
  mapM (linear_row l) x.

(** [nn.ReLU] and [nn.Sigmoid], elementwise. *)
Definition relu (x : R) : R := Rmax 0 x.
Definition sigmoid (x : R) : R := 1 / (1 + exp (- x)).

(** ** The DGL graph *)

Record DGLGraph := {
  num_nodes : nat;
  edges : list (nat * nat);          (* (src, dst), in edge-id order *)
  ndata : gmap string tensor;
  edata : gmap string tensor
}.

Definition graph_wf (g : DGLGraph) : Prop :=
  Forall (λ e, (e.1 < num_nodes g)%nat ∧ (e.2 < num_nodes g)%nat) (edges g).

Definition with_ndata (nd : gmap string tensor) (g : DGLGraph) : DGLGraph :=
  {| num_nodes := num_nodes g; edges := edges g; ndata := nd; edata := edata g |}.

Definition with_edata (ed : gmap string tensor) (g : DGLGraph) : DGLGraph :=
  {| num_nodes := num_nodes g; edges := edges g; ndata := ndata g; edata := ed |}.

(** [g.ndata[k] = t]: DGL rejects a tensor whose first dimension is not
    the number of nodes. *)
Definition set_ndata (k : string) (t : tensor) (g : DGLGraph) : option DGLGraph :=
  guard (size0 t = num_nodes g);; Some (with_ndata (<[k:=t]> (ndata g)) g).

(** [g.ndata.pop(k)] *)
Definition pop_ndata (k : string) (g : DGLGraph) : option (tensor * DGLGraph) :=
  t ← ndata g !! k; Some (t, with_ndata (delete k (ndata g)) g).

(** [g.edata.pop(k)] *)
Definition pop_edata (k : string) (g : DGLGraph) : option (tensor * DGLGraph) :=
  t ← edata g !! k; Some (t, with_edata (delete k (edata g)) g).

(** The edge batch handed to an edge function: [edges.src[k]],
    [edges.dst[k]] gather the node field at the edges' end points and
    [edges.data[k]] is the edge field. *)
Definition edges_src (g : DGLGraph) (k : string) : option tensor :=
  t ← ndata g !! k; tgather t (fst <$> edges g).

Definition edges_dst (g : DGLGraph) (k : string) : option tensor :=
  t ← ndata g !! k; tgather t (snd <$> edges g).

Definition edges_data (g : DGLGraph) (k : string) : option tensor :=
  edata g !! k.

(** [g.apply_edges(f)]: the fields returned by [f] are written to
    [g.edata]; each must have one row per edge. *)
Definition apply_edges (f : DGLGraph → option (gmap string tensor))
    (g : DGLGraph) : option DGLGraph :=
  out ← f g;
  guard (map_Forall (λ _ t, size0 t = length (edges g)) out);;
  Some (with_edata (out ∪ edata g) g).

(** ** MLP_Kernel_DGL *)

Record MLP_Kernel_DGL := { layers : list Linear }.

(** Shapes of the layers built by [__init__]. *)
Definition kernel_dims (nb_input nb_hidden_gnn nb_output nb_layer : nat)
    : list (nat * nat) :=
  ((nb_input * 2)%nat, nb_hidden_gnn)
    :: repeat (nb_hidden_gnn, nb_hidden_gnn) (nb_layer - 1)
    ++ [(nb_hidden_gnn, nb_output)].

Definition kernel_init (nb_input nb_hidden_gnn nb_output nb_layer : nat)
    (k : MLP_Kernel_DGL) : Prop :=
  Forall linear_wf (layers k) ∧
  (λ l, (in_features l, out_features l)) <$> layers k
    = kernel_dims nb_input nb_hidden_gnn nb_output nb_layer.

(** [for l in self.layers[:-1]: e_feats = self.act1(l(e_feats))] *)
Fixpoint hidden_pass (ls : list Linear) (e_feats : list (list R))
    : option (list (list R)) :=
  match ls with
  | [] => Some e_feats
  | l :: ls => y ← linear l e_feats; hidden_pass ls (map2d relu y)
  end.

Definition MLP_Kernel_DGL_mlp (self : MLP_Kernel_DGL) (edges : DGLGraph)
    : option (gmap string tensor) :=
  src ← edges_src edges "feat" ≫= as_mat;
  dst ← edges_dst edges "feat" ≫= as_mat;
  e_feats ← cat1 src dst;
  e_feats ← hidden_pass (removelast (layers self)) e_feats;
  l ← last (layers self);
  e_feats ← linear l e_feats;
  Some {[ "e" := TMat (map2d sigmoid e_feats) ]}.

Definition MLP_Kernel_DGL_forward (self : MLP_Kernel_DGL) (g : DGLGraph)
    : option DGLGraph :=
  apply_edges (MLP_Kernel_DGL_mlp self) g.

(** Layers that compose: each one's input width is the width before it. *)
Fixpoint chained (d : nat) (ls : list Linear) (d' : nat) : Prop :=
  match ls with
  | [] => d = d'
  | l :: ls => in_features l = d ∧ linear_wf l ∧ chained (out_features l) ls d'
  end.

(** The kernel read edge by edge, as the notebook's text states it:
    [w_ij = sigmoid(f([x_i, x_j]))], [f] the hidden linear layers with
    ReLU followed by the final linear layer. *)
Fixpoint hidden_vec (ls : list Linear) (v : list R) : option (list R) :=
  match ls with
  | [] => Some v
  | l :: ls => y ← linear_row l v; hidden_vec ls (relu <$> y)
  end.

Definition kernel_f (k : MLP_Kernel_DGL) (v : list R) : option (list R) :=
  h ← hidden_vec (removelast (layers k)) v;
  l ← last (layers k);
  linear_row l h.

Definition edge_weight (k : MLP_Kernel_DGL) (xi xj : list R) : option (list R) :=
  (λ y : list R, sigmoid <$> y) <$> kernel_f k (xi ++ xj).

(** The weight of every edge of [g], computed edge by edge. *)
Definition edge_weights (k : MLP_Kernel_DGL) (x : list (list R))
    (E : list (nat * nat)) : option (list (list R)) :=
  mapM (λ e : nat * nat, xi ← x !! e.1; xj ← x !! e.2; edge_weight k xi xj) E.

(** ** Library primitives left abstract

    Batch normalisation (stateful: running statistics, and a different
    formula in training and in evaluation mode), DBSCAN and the random
    sources of the data loader and of the parameter initialisation are
    library code. *)

Class Library := {
  BatchNorm1d : Type;
  (* nn.BatchNorm1d(num_features, momentum) *)
  BatchNorm1d_init : nat → R → BatchNorm1d;
  (* self.bn(features); the flag is the module's training mode *)
  BatchNorm1d_forward :
    bool → BatchNorm1d → list (list R) → option (list (list R) * BatchNorm1d);
  (* DBSCAN(eps, min_samples).fit_predict(embedding) *)
  DBSCAN_fit_predict : R → nat → list (list R) → list Z;
  Rng : Type;
  (* the permutation a shuffling DataLoader draws for one epoch *)
  randperm : Rng → nat → list nat * Rng;
  (* the initial weight and bias of nn.Linear(in_features, out_features) *)
  Linear_reset_parameters : Rng → nat → nat → list (list R) * list R * Rng
}.

(** ** Message passing: [u_mul_e] and the [sum] reducer *)

(** Broadcasting product of a source row with an edge row. *)
Definition bmul (u e : list R) : option (list R) :=
  match u, e with
  | _, [w] => Some ((λ x, x * w) <$> u)
  | [x], _ => Some ((λ w, x * w) <$> e)
  | _, _ => guard (length u = length e);; Some (zip_with Rmult u e)
  end.

(** [dgl.function.u_mul_e(u, e, _)]: one message per edge. *)
Definition u_mul_e (u e : string) (g : DGLGraph) : option (list (list R)) :=
  src ← edges_src g u ≫= as_mat;
  w ← edata g !! e ≫= as_mat;
  guard (length src = length w);;
  mapM (λ p, bmul p.1 p.2) (zip src w).

Definition zeros (d : nat) : list R := replicate d 0.

Definition vadd (a b : list R) : list R := zip_with Rplus a b.

(** The messages on the edges into node [v], in edge order. *)
Definition mailbox (g : DGLGraph) (msg : list (list R)) (v : nat)
    : list (list R) :=
  snd <$> filter (λ p, p.1.2 = v) (zip (edges g) msg).

(** [dgl.function.sum(_, _)]: a node without incoming edge gets zeros. *)
Definition reduce_sum (d : nat) (g : DGLGraph) (msg : list (list R))
    : list (list R) :=
  (λ v, foldr vadd (zeros d) (mailbox g msg v)) <$> seq 0 (num_nodes g).

(** Width of the messages: that of the first message, and with no edge
    that of the source field (the edge weight has one column). *)
Definition msg_dim (x msg : list (list R)) : nat :=
  match msg, x with
  | m :: _, _ => length m
  | [], r :: _ => length r
  | [], [] => 0%nat
  end.

(** [g.update_all(u_mul_e(u, e, 'msg'), sum('msg', out))] *)
Definition update_all (u e out : string) (g : DGLGraph) : option DGLGraph :=
  msg ← u_mul_e u e g;
  x ← ndata g !! u ≫= as_mat;
  set_ndata out (TMat (reduce_sum (msg_dim x msg) g msg)) g.

(** The aggregate as the notebook's text states it:
    [z_i = sum over j in N_i of w_ij * x_j], over the edges into [i],
    with one coefficient [w] per edge and feature vectors of width [d]. *)
Definition scale (c : R) (v : list R) : list R := (λ a, a * c) <$> v.

Definition neighbor_sum (d : nat) (E : list (nat * nat)) (w : list R)
    (x : list (list R)) (i : nat) : list R :=
  foldr vadd (zeros d)
    ((λ p : nat * nat * R, scale p.2 (default [] (x !! p.1.1)))
       <$> filter (λ p : nat * nat * R, p.1.2 = i) (zip E w)).

Section Model.
Context `{Library}.

(** ** GNN_Layer *)

Record GNN_Layer := {
  edge_weighting : MLP_Kernel_DGL;
  bn : option BatchNorm1d;
  fc : Linear;
  training : bool
}.

(** Shapes of the modules built by [__init__]. *)
Definition GNN_Layer_init (input_dim nb_hidden_gnn nb_hidden_kernel : nat)
    (l : GNN_Layer) : Prop :=
  kernel_init input_dim nb_hidden_kernel 1 1 (edge_weighting l) ∧
  linear_wf (fc l) ∧
  in_features (fc l) = (2 * input_dim)%nat ∧
  out_features (fc l) = nb_hidden_gnn.

(** The features a layer works on: the input after batch normalisation
    when the layer has one. *)
Definition normalized (l : GNN_Layer) (features x : list (list R)) : Prop :=
  match bn l with
  | Some b => ∃ b', BatchNorm1d_forward (training l) b features = Some (x, b')
  | None => x = features
  end.

Definition with_bn (b : option BatchNorm1d) (l : GNN_Layer) : GNN_Layer :=
  {| edge_weighting := edge_weighting l; bn := b; fc := fc l;
     training := training l |}.

(** [if self.bn is not None: features = self.bn(features)] *)
Definition maybe_norm (self : GNN_Layer) (features : list (list R))
    : option (list (list R) * GNN_Layer) :=
  match bn self with
  | Some b =>
      r ← BatchNorm1d_forward (training self) b features;
      Some (r.1, with_bn (Some r.2) self)
  | None => Some (features, self)
  end.

Definition GNN_Layer_forward (self : GNN_Layer) (g : DGLGraph)
    (features : list (list R))
    : option (list (list R) * DGLGraph * GNN_Layer) :=
  r ← maybe_norm self features;
  let features := r.1 in
  g ← set_ndata "feat" (TMat features) g;
  g ← MLP_Kernel_DGL_forward (edge_weighting self) g;
  g ← update_all "feat" "e" "agg_msg" g;
  agg_msg ← ndata g !! "agg_msg" ≫= as_mat;
  node_feats ← cat1 features agg_msg;
  emb ← linear (fc self) node_feats;
  let emb := map2d relu emb in
  Some (emb, g, r.2).

(** ** GNN *)

Record GNN := {
  gnn_layers : list GNN_Layer;
  final_emb : Linear
}.

(** [for i, layer in enumerate(self.layers): emb = layer(g, emb)] *)
Fixpoint GNN_layers_forward (ls : list GNN_Layer) (g : DGLGraph)
    (emb : list (list R))
    : option (list (list R) * DGLGraph * list GNN_Layer) :=
  match ls with
  | [] => Some (emb, g, [])
  | layer :: ls =>
      r ← GNN_Layer_forward layer g emb;
      let '(emb, g, layer) := r in
      r ← GNN_layers_forward ls g emb;
      let '(emb, g, ls) := r in
      Some (emb, g, layer :: ls)
  end.

Definition GNN_forward (self : GNN) (g : DGLGraph)
    : option (list (list R) * DGLGraph * GNN) :=
  r ← pop_ndata "feat" g;
  emb ← as_mat r.1;
  r ← GNN_layers_forward (gnn_layers self) r.2 emb;
  let '(emb, g, ls) := r in
  emb ← linear (final_emb self) emb;
  Some (emb, g, {| gnn_layers := ls; final_emb := final_emb self |}).

(** Shapes of the network built by [__init__]: a first layer on the input
    width, further layers on the hidden width, and the final embedding. *)
Definition GNN_init (nb_hidden_gnn nb_hidden_kernel input_dim emb_dim : nat)
    (net : GNN) : Prop :=
  ∃ l ls,
    gnn_layers net = l :: ls ∧
    GNN_Layer_init input_dim nb_hidden_gnn nb_hidden_kernel l ∧
    Forall (GNN_Layer_init nb_hidden_gnn nb_hidden_gnn nb_hidden_kernel) ls ∧
    linear_wf (final_emb net) ∧
    in_features (final_emb net) = nb_hidden_gnn ∧
    out_features (final_emb net) = emb_dim.

(** [net.train()] and [net.eval()] *)
Definition set_training (b : bool) (net : GNN) : GNN :=
  {| gnn_layers :=
       (λ l, {| edge_weighting := edge_weighting l; bn := bn l; fc := fc l;
                training := b |}) <$> gnn_layers net;
     final_emb := final_emb net |}.

(** ** Loss and accuracy *)

(** [nn.functional.pairwise_distance(x1, x2)] with its defaults [p = 2]
    and [eps = 1e-6]: the 2-norm of [x1 - x2 + eps], row by row. *)
Definition pairwise_eps : R := 1 / 1000000.

Definition row_distance (eps : R) (u v : list R) : R :=
  sqrt (rsum ((λ d, (d + eps) * (d + eps)) <$> zip_with Rminus u v)).

Definition pairwise_distance (x1 x2 : list (list R)) : option (list R) :=
  guard (length x1 = length x2);;
  Some (zip_with (row_distance pairwise_eps) x1 x2).

(** The Euclidean distance of two vectors. *)
Definition euclidean_distance (u v : list R) : R :=
  sqrt (rsum ((λ d, d * d) <$> zip_with Rminus u v)).

(** [nn.functional.hinge_embedding_loss(input, target, margin,
    reduction='none')]: the margin term where the target is not 1 plus
    the input where the target is not -1. *)
Definition hinge1 (margin x y : R) : R :=
  (if decide (y = 1) then 0 else Rmax 0 (margin - x))
  + (if decide (y = -1) then 0 else x).

Definition hinge_embedding_loss (margin : R) (input target : list R)
    : option (list R) :=
  guard (length input = length target);;
  Some (zip_with (hinge1 margin) input target).

(** A tensor read as floats. *)
Definition as_float (t : tensor) : option (list R) :=
  match t with
  | TVec v => Some v
  | TInt v => Some (IZR <$> v)
  | TMat _ => None
  end.

Definition get_emb_for_loss (edges : DGLGraph) : option (gmap string tensor) :=
  src ← edges_src edges "emb" ≫= as_mat;
  dst ← edges_dst edges "emb" ≫= as_mat;
  pred_dist ← pairwise_distance src dst;
  truth ← edges_data edges "truth" ≫= as_float;
  let true_dist := (λ t, t * 2 - 1) <$> truth in
  loss ← hinge_embedding_loss 1 pred_dist true_dist;
  Some (<["loss" := TVec loss]>
         (<["pred_dist" := TVec pred_dist]>
           {[ "true_dist" := TVec true_dist ]})).

(** [torch.round]: to the nearest integer, halves to the even one. *)
Definition round (x : R) : R :=
  let f := Int_part x in
  let r := frac_part x in
  if Rlt_dec r (1 / 2) then IZR f
  else if Rlt_dec (1 / 2) r then IZR (f + 1)
  else if Z.even f then IZR f else IZR (f + 1).

(** [a == b] on 1-D tensors, a one-element tensor broadcasting. *)
Definition tensor_eq (a b : list R) : option (list bool) :=
  let eqb := λ x y : R, bool_decide (x = y) in
  match a, b with
  | [x], _ => Some (eqb x <$> b)
  | _, [y] => Some ((λ x, eqb x y) <$> a)
  | _, _ => guard (length a = length b);; Some (zip_with eqb a b)
  end.

Definition count_true (l : list bool) : nat := length (filter (λ b, b = true) l).

Definition score_dist_accuracy (pred truth : list R) : option R :=
  let pred := round <$> pred in
  let pred := (λ p, if decide (p = 0) then p else 1) <$> pred in
  let pred := (λ p, 1 - p) <$> pred in
  correct ← tensor_eq pred truth;
  let nb_correct := count_true correct in
  let nb_total := length truth in
  guard (nb_total ≠ 0%nat);;
  Some (INR nb_correct / INR nb_total).

(** The positions where "the predicted distance rounds to zero" and "the
    pair is a true pair" agree. *)
Definition agreements (pred truth : list R) : nat :=
  length (filter (λ p : R * R, bool_decide (round p.1 = 0) = bool_decide (p.2 = 1))
            (zip pred truth)).

End Model.

(** The node fields of an input graph that the evaluation reads: the
    features, the integer particle ids and the float hit weights, one row
    per node. *)
Definition input_fields (g : DGLGraph) (feat : list (list R))
    (p : list Z) (w : list R) : Prop :=
  ndata g !! "feat" = Some (TMat feat) ∧ length feat = num_nodes g ∧
  ndata g !! "pid" = Some (TInt p) ∧ length p = num_nodes g ∧
  ndata g !! "weight" = Some (TVec w) ∧ length w = num_nodes g.

(** ** Single precision

    The strict bounds of a sigmoid do not survive rounding, so the kernel
    is also read with its sigmoid in single precision. *)

(** The binary exponent of [x]: the largest [e] with [2^e <= |x|]. *)
Definition ilog2 (x : R) : Z := (up (ln (Rabs x) / ln 2) - 1)%Z.

(** The spacing of the binary32 values around [x]: 24 significant bits,
    and the spacing of the subnormal values below [2^-126]. *)
Definition ulp32 (x : R) : R := powerRZ 2 (Z.max (ilog2 x) (-126) - 23).

(** [x] rounded to single precision: the nearest binary32 value, a tie
    going to the even significand.  Overflow is left out: the values
    rounded here lie between 0 and 1. *)
Definition fl32 (x : R) : R := round (x / ulp32 x) * ulp32 x.

(** [nn.Sigmoid] on a float32 tensor, read as the binary32 value nearest
    to the exact sigmoid. *)
Definition sigmoid_f32 (x : R) : R := fl32 (sigmoid x).



Section ModelF32.
Context `{Library}.


End ModelF32.

(** ** Batching and the data loader *)

(** A loop with an accumulator whose body may raise. *)
Fixpoint ofoldl {A B} (f : A → B → option A) (a : A) (l : list B) : option A :=
  match l with
  | [] => Some a
  | x :: l => a ← f a x; ofoldl f a l
  end.

Definition tcat0 (a b : tensor) : option tensor :=
  match a, b with
  | TMat x, TMat y => Some (TMat (x ++ y))
  | TVec x, TVec y => Some (TVec (x ++ y))
  | TInt x, TInt y => Some (TInt (x ++ y))
  | _, _ => None
  end.

(** The fields of a batched graph: the graphs carry the same keys and
    each field is concatenated. *)
Definition data_cat (m1 m2 : gmap string tensor) : option (gmap string tensor) :=
  guard (dom m1 = dom m2);;
  let m := map_zip_with tcat0 m1 m2 in
  guard (map_Forall (λ _ o, is_Some o) m);;
  Some (omap (λ o : option tensor, o) m).

Definition batch2 (g1 g2 : DGLGraph) : option DGLGraph :=
  nd ← data_cat (ndata g1) (ndata g2);
  ed ← data_cat (edata g1) (edata g2);
  let shift := λ e : nat * nat, ((e.1 + num_nodes g1)%nat, (e.2 + num_nodes g1)%nat) in
  Some {| num_nodes := num_nodes g1 + num_nodes g2;
          edges := edges g1 ++ (shift <$> edges g2);
          ndata := nd; edata := ed |}.

(** [dgl.batch(graphs)] *)
Definition dgl_batch (graphs : list DGLGraph) : option DGLGraph :=
  match graphs with
  | [] => None
  | g :: gs => ofoldl batch2 g gs
  end.

Definition trackml_collate (samples : list (DGLGraph * DGLGraph))
    : option (DGLGraph * DGLGraph) :=
  g_input ← dgl_batch (fst <$> samples);
  g_true ← dgl_batch (snd <$> samples);
  Some (g_input, g_true).

(** The index batches of a [DataLoader] over [n] items. *)
Definition batch_sizes (n batch_size : nat) (drop_last : bool) : list nat :=
  replicate (n / batch_size) batch_size
  ++ (if drop_last || bool_decide (n mod batch_size = 0)%nat then []
      else [(n mod batch_size)%nat]).

(** One pass over [DataLoader(dataset, batch_size, collate_fn=
    trackml_collate, drop_last)] whose items come in the order [order]. *)
Definition load_batches (dataset : list (DGLGraph * DGLGraph))
    (batch_size : nat) (drop_last : bool) (order : list nat)
    : option (list (DGLGraph * DGLGraph)) :=
  guard (0 < batch_size)%nat;;
  items ← gather dataset order;
  mapM trackml_collate
    (reshape (batch_sizes (length dataset) batch_size drop_last) items).

(** ** The samples and the dataset *)

Record Hits := {
  xyz : list (list R);
  emb : list (list R);
  particle_id : list Z;
  hit_weight : list R
}.

Record Sample := {
  hits : Hits;
  graph_pred : list (nat * nat);    (* the predicted graph *)
  graph_true : list (nat * nat);    (* the augmented graph *)
  pair_truth : list R               (* 1 for a same-particle pair, else 0 *)
}.

(** Modelled from the spec: [TrackML_Dataset] of gnn_utils is not among
    the sources.  A hit carries 3D coordinates, a particle id and a
    precomputed embedding; the input graph is the predicted graph with the
    node features [xyz | emb], the particle id and the hit weight, and the
    ground-truth graph is the augmented graph with its pair labels. *)
Definition TrackML_Dataset_getitem (s : Sample) : option (DGLGraph * DGLGraph) :=
  let n := length (xyz (hits s)) in
  feat ← cat1 (xyz (hits s)) (emb (hits s));
  g ← set_ndata "feat" (TMat feat)
        {| num_nodes := n; edges := graph_pred s; ndata := ∅; edata := ∅ |};
  g ← set_ndata "pid" (TInt (particle_id (hits s))) g;
  g_input ← set_ndata "weight" (TVec (hit_weight (hits s))) g;
  guard (length (pair_truth s) = length (graph_true s));;
  Some (g_input,
        {| num_nodes := n; edges := graph_true s; ndata := ∅;
           edata := {[ "truth" := TVec (pair_truth s) ]} |}).

Definition TrackML_Dataset (samples : list Sample)
    : option (list (DGLGraph * DGLGraph)) :=
  mapM TrackML_Dataset_getitem samples.

Section Pipeline.
Context `{Library}.

(** ** Embedding the samples *)

Record Embedded := {
  orig_xyz : list (list (list R));
  emb_metric : list (list (list R));
  emb_gnn : list (list (list R));
  pid : list tensor;
  weight_ : list tensor
}.

Definition embed_step (acc : GNN * Embedded) (b : DGLGraph * DGLGraph)
    : option (GNN * Embedded) :=
  let '(net, st) := acc in
  let g_input := b.1 in
  f ← ndata g_input !! "feat";
  p ← ndata g_input !! "pid";
  feat ← as_mat f;
  w ← ndata g_input !! "weight";
  r ← GNN_forward net g_input;
  let hits_emb := r.1.1 in
  Some (r.2,
        {| orig_xyz := orig_xyz st ++ [take 3 <$> feat];
           emb_metric := emb_metric st ++ [drop 3 <$> feat];
           emb_gnn := emb_gnn st ++ [hits_emb];
           pid := pid st ++ [p];
           weight_ := weight_ st ++ [w] |}).

Definition embed_samples (net : GNN) (dataset : list (DGLGraph * DGLGraph))
    : option (GNN * Embedded) :=
  dataloader ← load_batches dataset 1 false (seq 0 (length dataset));
  ofoldl embed_step
    (set_training false net,
     {| orig_xyz := []; emb_metric := []; emb_gnn := []; pid := [];
        weight_ := [] |})
    dataloader.

(** The network applied to the input graphs one after the other, its
    state carried along: what the loop appends to [emb_gnn]. *)
Fixpoint forward_all (net : GNN) (gs : list DGLGraph)
    : option (list (list (list R)) * GNN) :=
  match gs with
  | [] => Some ([], net)
  | g :: gs =>
      r ← GNN_forward net g;
      r' ← forward_all r.2 gs;
      Some (r.1.1 :: r'.1, r'.2)
  end.

(** The embedded samples with other coordinates and metric embeddings. *)
Definition with_inputs (xyz emb : list (list (list R))) (st : Embedded)
    : Embedded :=
  {| orig_xyz := xyz; emb_metric := emb; emb_gnn := emb_gnn st;
     pid := pid st; weight_ := weight_ st |}.

(** ** Clustering *)

Definition get_clusters (embedding : list (list R)) : list Z :=
  DBSCAN_fit_predict (24 / 100) 3 embedding.

(** ** Scoring *)

Record TruthTable := {
  t_particle_id : list Z;
  t_hit_id : list nat;
  t_weight : list R
}.

Record SubmissionTable := {
  s_hit_id : list nat;
  s_track_id : list Z
}.

(** [pandas.DataFrame.from_dict]: the columns have one length. *)
Definition truth_from_dict (particle_id : list Z) (hit_id : list nat)
    (weight : list R) : option TruthTable :=
  guard (length particle_id = length hit_id ∧ length weight = length hit_id);;
  Some {| t_particle_id := particle_id; t_hit_id := hit_id; t_weight := weight |}.

Definition submission_from_dict (hit_id : list nat) (track_id : list Z)
    : option SubmissionTable :=
  guard (length track_id = length hit_id);;
  Some {| s_hit_id := hit_id; s_track_id := track_id |}.

(** A hit of the event once the two tables are joined on [hit_id]. *)
Record ScoredHit := { h_particle : Z; h_track : Z; h_weight : R }.

Definition track_of (submission : SubmissionTable) (hit : nat) : option Z :=
  (λ r : nat * (nat * Z), r.2.2)
    <$> list_find (λ p, p.1 = hit)
          (zip (s_hit_id submission) (s_track_id submission)).

Definition join_on_hit_id (truth : TruthTable) (submission : SubmissionTable)
    : list ScoredHit :=
  omap (λ r : Z * nat * R,
          t ← track_of submission r.1.2;
          Some {| h_particle := r.1.1; h_track := t; h_weight := r.2 |})
       (zip (zip (t_particle_id truth) (t_hit_id truth)) (t_weight truth)).

Definition in_track (t : Z) (ev : list ScoredHit) : list ScoredHit :=
  filter (λ h, h_track h = t) ev.

Definition of_particle (p : Z) (ev : list ScoredHit) : list ScoredHit :=
  filter (λ h, h_particle h = p) ev.

(** The predicted cluster [t] and the particle [p] match when the hits
    they share are more than half of the cluster and more than half of
    the particle. *)
Definition double_majority (ev : list ScoredHit) (t p : Z) : Prop :=
  let shared := length (of_particle p (in_track t ev)) in
  (length (in_track t ev) < 2 * shared)%nat ∧
  (length (of_particle p ev) < 2 * shared)%nat.

#[global] Instance double_majority_dec ev t p : Decision (double_majority ev t p).
Proof. unfold double_majority. apply _. Defined.

(** The credit of one predicted cluster: the weight of the hits it shares
    with the particle it matches, as a share of the event's weight. *)
Definition track_credit (ev : list ScoredHit) (t : Z) : R :=
  match list_find (double_majority ev t)
          (remove_dups (h_particle <$> in_track t ev)) with
  | Some (_, p) =>
      rsum (h_weight <$> of_particle p (in_track t ev)) / rsum (h_weight <$> ev)
  | None => 0
  end.

(** Modelled from the spec: [score_event] of gnn_utils is not among the
    sources.  The TrackML score rewards the clusters that both dominate
    and are dominated by a single true particle's hits. *)
Definition score_event (truth : TruthTable) (submission : SubmissionTable) : R :=
  let ev := join_on_hit_id truth submission in
  rsum (track_credit ev <$> remove_dups (h_track <$> ev)).

Definition nb_samples : nat := 20.

(** The tables of sample [i] in the scoring loop. *)
Definition sample_tables (st : Embedded) (i : nat)
    : option (TruthTable * SubmissionTable) :=
  e ← emb_gnn st !! i;
  let clusters := get_clusters e in
  let hit_ids := seq 0 (length clusters) in
  p ← pid st !! i ≫= as_int;
  w ← weight_ st !! i ≫= as_float;
  truth ← truth_from_dict p hit_ids w;
  submission ← submission_from_dict hit_ids clusters;
  Some (truth, submission).

Definition score_step (st : Embedded) (avg_score : R) (i : nat) : option R :=
  tb ← sample_tables st i;
  let score := score_event tb.1 tb.2 in
  Some (avg_score + score).

(** The value printed as the TrackML score. *)
Definition final_score (st : Embedded) : option R :=
  avg_score ← ofoldl (score_step st) 0 (seq 0 nb_samples);
  Some (avg_score / INR nb_samples).

(** The tables the scoring loop builds for a sample with embedding [e],
    particle ids [p] and hit weights [w]: the hits are numbered from 0 in
    both. *)
Definition truth_table (e : list (list R)) (p : list Z) (w : list R)
    : TruthTable :=
  {| t_particle_id := p; t_hit_id := seq 0 (length e); t_weight := w |}.

Definition submission_table (e : list (list R)) : SubmissionTable :=
  {| s_hit_id := seq 0 (length e); s_track_id := get_clusters e |}.

End Pipeline.

(** ** Building the modules *)

Section Construction.
Context `{Library}.

(** [nn.Linear(in_features, out_features)] *)
Definition Linear_new (rng : Rng) (i o : nat) : Linear * Rng :=
  let '(w, b, rng) := Linear_reset_parameters rng i o in
  ({| in_features := i; out_features := o; weight := w; bias := b |}, rng).

Fixpoint new_linears (rng : Rng) (dims : list (nat * nat)) : list Linear * Rng :=
  match dims with
  | [] => ([], rng)
  | d :: dims =>
      let '(l, rng) := Linear_new rng d.1 d.2 in
      let '(ls, rng) := new_linears rng dims in
      (l :: ls, rng)
  end.

(** [MLP_Kernel_DGL(nb_input, nb_hidden_gnn, nb_output, nb_layer)] *)
Definition MLP_Kernel_DGL_new (rng : Rng)
    (nb_input nb_hidden_gnn nb_output nb_layer : nat) : MLP_Kernel_DGL * Rng :=
  let '(ls, rng) :=
    new_linears rng (kernel_dims nb_input nb_hidden_gnn nb_output nb_layer) in
  ({| layers := ls |}, rng).

(** [GNN_Layer(input_dim, nb_hidden_gnn, nb_hidden_kernel, apply_norm)];
    a new module is in training mode. *)
Definition GNN_Layer_new (rng : Rng)
    (input_dim nb_hidden_gnn nb_hidden_kernel : nat) (apply_norm : bool)
    : GNN_Layer * Rng :=
  let '(k, rng) := MLP_Kernel_DGL_new rng input_dim nb_hidden_kernel 1 1 in
  let b := if apply_norm then Some (BatchNorm1d_init input_dim (10 / 100))
           else None in
  let '(l, rng) := Linear_new rng (2 * input_dim) nb_hidden_gnn in
  ({| edge_weighting := k; bn := b; fc := l; training := true |}, rng).

Fixpoint GNN_Layers_new (rng : Rng) (n nb_hidden_gnn nb_hidden_kernel : nat)
    : list GNN_Layer * Rng :=
  match n with
  | O => ([], rng)
  | S n =>
      let '(l, rng) :=
        GNN_Layer_new rng nb_hidden_gnn nb_hidden_gnn nb_hidden_kernel true in
      let '(ls, rng) := GNN_Layers_new rng n nb_hidden_gnn nb_hidden_kernel in
      (l :: ls, rng)
  end.

(** [GNN(nb_hidden_gnn, nb_layer, nb_hidden_kernel, input_dim, emb_dim)] *)
Definition GNN_new (rng : Rng)
    (nb_hidden_gnn nb_layer nb_hidden_kernel input_dim emb_dim : nat)
    : GNN * Rng :=
  let '(l, rng) :=
    GNN_Layer_new rng input_dim nb_hidden_gnn nb_hidden_kernel true in
  let '(ls, rng) :=
    GNN_Layers_new rng (nb_layer - 1) nb_hidden_gnn nb_hidden_kernel in
  let '(fe, rng) := Linear_new rng nb_hidden_gnn emb_dim in
  ({| gnn_layers := l :: ls; final_emb := fe |}, rng).

End Construction.

(** The optimizer with automatic differentiation, left abstract:
    [loss.backward(); optimizer.step()] moves the parameters of the
    network according to the loss, given as a function of the network. *)
Class Autograd `{Library} := {
  Optimizer : Type;
  (* torch.optim.Adamax(net.parameters(), lr) *)
  Adamax : GNN → R → Optimizer;
  backward_step : Optimizer → GNN → (GNN → option R) → GNN * Optimizer
}.

(** ** The notebook as a program with effects *)

Section Notebook.
Context `{Autograd}.

(** What a [print] shows. *)
Inductive output :=
  | OutLoaded (n : nat)
  | OutKeys
  | OutHitKeys
  | OutNet (net : GNN)
  | OutTraining (nb_train : nat)
  | OutProgress (nb_proc : nat) (loss acc : R)
  | OutScore (score : R).

Inductive event :=
  | EvOpen (path mode : string)
  | EvPickleLoad (path : string)
  | EvClose (path : string)
  | EvPrint (o : output)
  | EvScatter (x y : list R) (label : Z)
  | EvShow.

(** A cell appends to the log of events and returns a value, or raises. *)
Definition IO (A : Type) : Type := list event → option A * list event.

#[global] Instance IO_ret : MRet IO := λ A x log, (Some x, log).

#[global] Instance IO_bind : MBind IO := λ A B f m log,
  match m log with
  | (Some x, log) => f x log
  | (None, log) => (None, log)
  end.

Definition emit (e : event) : IO () := λ log, (Some (), log ++ [e]).

(** A pure computation that may raise. *)
Definition lift {A} (o : option A) : IO A := λ log, (o, log).

Fixpoint io_for {A} (f : A → IO ()) (l : list A) : IO () :=
  match l with
  | [] => mret ()
  | x :: l => f x;; io_for f l
  end.

Fixpoint io_foldl {A B} (f : A → B → IO A) (a : A) (l : list B) : IO A :=
  match l with
  | [] => mret a
  | x :: l => a ← f a x; io_foldl f a l
  end.

(** [with open(path, 'rb') as f: ... pickle.load(f)] on a file system
    holding pickled sample lists. *)
Definition load_pickle (fs : gmap string (list Sample)) (path : string)
    : IO (list Sample) :=
  emit (EvOpen path "rb");;
  content ← lift (fs !! path);
  emit (EvPickleLoad path);;
  emit (EvClose path);;
  mret content.

(** Cell "Loading Data". *)
Definition cell_load (fs : gmap string (list Sample)) : IO (list Sample) :=
  samples ← load_pickle fs "tracks.pickle";
  emit (EvPrint (OutLoaded (length samples)));;
  mret samples.

(** Cell "Features": the keys of the first sample are printed. *)
Definition cell_keys (samples : list Sample) : IO () :=
  _ ← lift (samples !! 0%nat);
  emit (EvPrint OutKeys);;
  emit (EvPrint OutHitKeys).

(** [m[:, j]] *)
Definition column (j : nat) (m : list (list R)) : option (list R) :=
  mapM (λ r : list R, r !! j) m.

(** [np.where(pid == g)] *)
Definition where_eq (pid : list Z) (g : Z) : list nat :=
  fst <$> filter (λ p : nat * Z, p.2 = g) (zip (seq 0 (length pid)) pid).

Definition plot_clusters (x y : list R) (pid : list Z) : IO () :=
  io_for (λ g,
            let i := where_eq pid g in
            xi ← lift (gather x i);
            yi ← lift (gather y i);
            emit (EvScatter xi yi g))
         (merge_sort Z.le (remove_dups pid));;
  emit EvShow.

(** Cell "Visualizations", on the second sample. *)
Definition cell_visualize (samples : list Sample) : IO () :=
  s ← lift (samples !! 1%nat);
  let xyz := xyz (hits s) in
  let emb := emb (hits s) in
  let pid := particle_id (hits s) in
  x0 ← lift (column 0 xyz);
  x1 ← lift (column 1 xyz);
  plot_clusters x0 x1 pid;;
  e0 ← lift (column 0 emb);
  e1 ← lift (column 1 emb);
  plot_clusters e0 e1 pid.

Definition batch_size : nat := 4.
Definition nb_hidden : nat := 32.
Definition nb_layers : nat := 4.
Definition learn_rate : R := 1 / 1000.

(** Cell "Setup". *)
Definition cell_setup (samples : list Sample) (rng : Rng)
    : IO (list (DGLGraph * DGLGraph) * GNN * Optimizer * Rng) :=
  dataset ← lift (TrackML_Dataset samples);
  let '(net, rng) := GNN_new rng nb_hidden nb_layers nb_hidden 6 2 in
  let optim := Adamax net learn_rate in
  emit (EvPrint (OutNet net));;
  mret (dataset, net, optim, rng).

(** [t.mean()] *)
Definition mean (l : list R) : R := rsum l / INR (length l).

(** The forward pass, the loss and the accuracy of one training batch. *)
Definition batch_loss (net : GNN) (b : DGLGraph * DGLGraph)
    : option (R * R * GNN) :=
  r ← GNN_forward net b.1;
  g_true ← set_ndata "emb" (TMat r.1.1) b.2;
  g_true ← apply_edges get_emb_for_loss g_true;
  l ← pop_edata "loss" g_true;
  lv ← as_float l.1;
  let loss := mean lv in
  pd ← pop_edata "pred_dist" l.2;
  t ← pop_edata "truth" pd.2;
  pred ← as_float pd.1;
  truth ← as_float t.1;
  score ← score_dist_accuracy pred truth;
  Some (loss, score, r.2).

Record Epoch := {
  ep_net : GNN;
  ep_optimizer : Optimizer;
  epoch_score : R;
  epoch_loss : R
}.

Definition train_step (bs nb_batch : nat) (acc : Epoch)
    (ib : nat * list (DGLGraph * DGLGraph)) : IO Epoch :=
  let i := ib.1 in
  b ← lift (trackml_collate ib.2);
  r ← lift (batch_loss (ep_net acc) b);
  let '(loss, score, net) := r in
  let '(net, optimizer) :=
    backward_step (ep_optimizer acc) net
      (λ n, (λ r : R * R * GNN, r.1.1) <$> batch_loss n b) in
  let epoch_score := epoch_score acc + score * 100 in
  let epoch_loss := epoch_loss acc + loss in
  let nb_proc := ((i + 1) * bs)%nat in
  _ ← lift (guard (nb_batch / 2 ≠ 0)%nat);
  (if bool_decide (((i + 1) mod (nb_batch / 2)) = 0)%nat
   then emit (EvPrint (OutProgress nb_proc (epoch_loss / INR (i + 1))
                         (epoch_score / INR (i + 1))))
   else mret ());;
  mret {| ep_net := net; ep_optimizer := optimizer;
          epoch_score := epoch_score; epoch_loss := epoch_loss |}.

(** [train_one_epoch(net, batch_size, optimizer, train_loader)], the
    loader shuffling the dataset and dropping the last partial batch. *)
Definition train_one_epoch (net : GNN) (bs : nat) (optimizer : Optimizer)
    (dataset : list (DGLGraph * DGLGraph)) (rng : Rng)
    : IO (GNN * Optimizer * Rng * (R * R)) :=
  let net := set_training true net in
  let sizes := batch_sizes (length dataset) bs true in
  let nb_batch := length sizes in
  let nb_train := (nb_batch * bs)%nat in
  emit (EvPrint (OutTraining nb_train));;
  let '(order, rng) := randperm rng (length dataset) in
  items ← lift (gather dataset order);
  acc ← io_foldl (train_step bs nb_batch)
          {| ep_net := net; ep_optimizer := optimizer;
             epoch_score := 0; epoch_loss := 0 |}
          (zip (seq 0 nb_batch) (reshape sizes items));
  _ ← lift (guard (nb_batch ≠ 0)%nat);
  mret (ep_net acc, ep_optimizer acc, rng,
        (epoch_loss acc / INR nb_batch, epoch_score acc / INR nb_batch)).

(** Cell "Training": twenty epochs. *)
Definition cell_train (dataset : list (DGLGraph * DGLGraph)) (net : GNN)
    (optim : Optimizer) (rng : Rng) : IO (GNN * Optimizer * Rng) :=
  io_foldl (λ acc (_ : nat),
              let '(net, optim, rng) := acc in
              r ← train_one_epoch net batch_size optim dataset rng;
              mret r.1)
           (net, optim, rng) (seq 0 20).

(** The sanity plots of the second sample in the three spaces. *)
Definition cell_plot_embeddings (st : Embedded) : IO () :=
  let j := 1%nat in
  to_plot ← lift (a ← orig_xyz st !! j; b ← emb_metric st !! j;
                  c ← emb_gnn st !! j; Some [a; b; c]);
  io_for (λ emb : list (list R),
            e0 ← lift (column 0 emb);
            e1 ← lift (column 1 emb);
            p ← lift (pid st !! j ≫= as_int);
            plot_clusters e0 e1 p)
         to_plot.

(** Everything after the loading cell, given the samples in memory. *)
Definition after_load (rng : Rng) (samples : list Sample) : IO R :=
  cell_keys samples;;
  cell_visualize samples;;
  r ← cell_setup samples rng;
  let '(dataset, net, optim, rng) := r in
  r ← cell_train dataset net optim rng;
  let '(net, optim, rng) := r in
  r ← lift (embed_samples net dataset);
  let st := r.2 in
  cell_plot_embeddings st;;
  score ← lift (final_score st);
  emit (EvPrint (OutScore score));;
  mret score.

(** The notebook, run from its first cell to its last. *)
Definition notebook (fs : gmap string (list Sample)) (rng : Rng) : IO R :=
  samples ← cell_load fs;
  after_load rng samples.

(** The events that touch a file. *)
Definition file_event (e : event) : Prop :=
  match e with
  | EvOpen _ _ | EvPickleLoad _ | EvClose _ => True
  | _ => False
  end.

#[global] Instance file_event_dec e : Decision (file_event e).
Proof. destruct e; cbn; apply _. Defined.

(** A computation that touches no file: it only extends the log, and
    with no file event. *)
Definition no_file_io {A} (m : IO A) : Prop :=
  ∀ log, ∃ rest, (m log).2 = log ++ rest ∧ Forall (λ e, ¬ file_event e) rest.

End Notebook.

(** ** Notions used to state the properties *)

Section Shapes.
Context `{Library}.

(** The initial parameters of a linear layer have the layer's shape. *)
Definition reset_well_shaped : Prop :=
  ∀ (rng : Rng) (i o : nat), linear_wf (Linear_new rng i o).1.

(** Two layers that differ at most in the state of their batch
    normalisation. *)
Definition same_parameters (l l' : GNN_Layer) : Prop :=
  edge_weighting l' = edge_weighting l ∧ fc l' = fc l ∧
  training l' = training l ∧ (is_Some (bn l') ↔ is_Some (bn l)).

(** In evaluation mode the batch normalisation [b] accepts every
    non-empty batch of rows of width [d], works on each row by itself,
    keeps the width and keeps its state, as [nn.BatchNorm1d(d)] does with
    its running statistics.  Nothing is asked of it on another width. *)
Definition rowwise_norm (d : nat) (b : BatchNorm1d) : Prop :=
  ∃ f : list R → list R,
    (∀ r, length r = d → length (f r) = d) ∧
    ∀ x, x ≠ [] → Forall (λ r, length r = d) x →
      BatchNorm1d_forward false b x = Some (f <$> x, b).

Definition layer_rowwise_norm (d : nat) (l : GNN_Layer) : Prop :=
  match bn l with Some b => rowwise_norm d b | None => True end.

(** Every layer's batch normalisation is of this kind on the width of
    the layer's input: [d] for the first layer, [h] for the others. *)
Definition GNN_rowwise_norm (h d : nat) (net : GNN) : Prop :=
  match gnn_layers net with
  | [] => True
  | l :: ls => layer_rowwise_norm d l ∧ Forall (layer_rowwise_norm h) ls
  end.

(** The number of samples a progress line reports. *)
Definition progress_at (e : event) : option nat :=
  match e with
  | EvPrint (OutProgress nb_proc _ _) => Some nb_proc
  | _ => None
  end.

End Shapes.



(** The edges of a batch: those of every graph in turn, each graph's node
    numbers moved past the nodes of the graphs before it. *)
Definition shift (o : nat) (e : nat * nat) : nat * nat :=
  ((e.1 + o)%nat, (e.2 + o)%nat).

Fixpoint batched_edges (o : nat) (gs : list DGLGraph) : list (nat * nat) :=
  match gs with
  | [] => []
  | g :: gs => (shift o <$> edges g) ++ batched_edges (o + num_nodes g) gs
  end.

(** [g] has the nodes and edges of [g1] followed by those of [g2]. *)
Definition joined (g1 g2 g : DGLGraph) : Prop :=
  num_nodes g = (num_nodes g1 + num_nodes g2)%nat ∧
  edges g = edges g1 ++ (shift (num_nodes g1) <$> edges g2).

(** A graph the network can be run on: it has an edge, its edges are
    between its nodes and its ['feat'] has one row of [d] features per
    node. *)
Definition input_graph (d : nat) (g : DGLGraph) : Prop :=
  graph_wf g ∧ edges g ≠ [] ∧
  ∃ feat, ndata g !! "feat" = Some (TMat feat) ∧
          length feat = num_nodes g ∧ Forall (λ r, length r = d) feat.

(** A 1-D float tensor. *)
Definition as_vec (t : tensor) : option (list R) :=
  match t with TVec v => Some v | _ => None end.

(** The entries of [x] at the hits of particle [g]. *)
Definition points_of (x : list R) (pid : list Z) (g : Z) : list R :=
  fst <$> filter (λ p : R * Z, p.2 = g) (zip x pid).

(** ** Small concrete inputs *)

(** Two hits with the same embedding, joined by one same-particle pair. *)
Definition coincident_pair : DGLGraph :=
  {| num_nodes := 2; edges := [(0, 1)%nat];
     ndata := {[ "emb" := TMat [[0]; [0]] ]};
     edata := {[ "truth" := TVec [1] ]} |}.

(** A library in which normalisation is the identity, DBSCAN finds only
    noise, nothing is shuffled and the parameters start at zero. *)
Definition plain_library : Library := {|
  BatchNorm1d := ();
  BatchNorm1d_init := λ _ _, ();
  BatchNorm1d_forward := λ _ b x, Some (x, b);
  DBSCAN_fit_predict := λ _ _ e, (λ _ : list R, (-1)%Z) <$> e;
  Rng := ();
  randperm := λ r n, (seq 0 n, r);
  Linear_reset_parameters :=
    λ r i o, (replicate o (replicate i 0), replicate o 0, r)
|}.

(** Two hits with one feature each, linked in both directions. *)
Definition two_hits : DGLGraph :=
  {| num_nodes := 2; edges := [(0, 1)%nat; (1, 0)%nat];
     ndata := {[ "feat" := TMat [[1]; [2]] ]};
     edata := ∅ |}.

(** A layer on one feature, of the shapes of [GNN_Layer(1, 1, 1)], all
    its weights 1 and its biases 0. *)
Definition unit_linear (i : nat) : Linear :=
  {| in_features := i; out_features := 1; weight := [replicate i 1];
     bias := [0] |}.

Definition unit_layer : @GNN_Layer plain_library :=
  {| edge_weighting := {| layers := [unit_linear 2; unit_linear 1] |};
     bn := Some (tt : @BatchNorm1d plain_library);
     fc := unit_linear 2;
     training := false |}.

(** A network on six features, as [GNN(1, 1, 1, 6)] builds it. *)
Definition small_net : @GNN plain_library :=
  (GNN_new (H := plain_library) () 1 1 1 6 2).1.

(** A kernel whose hidden layer looks at the source feature only. *)
Definition source_kernel : MLP_Kernel_DGL :=
  {| layers := [ {| in_features := 2; out_features := 1; weight := [[1; 0]];
                    bias := [0] |};
                 unit_linear 1 ] |}.

(** An optimizer that leaves the parameters where they are. *)
Definition plain_autograd : @Autograd plain_library :=
  {| Optimizer := (); Adamax := λ _ _, (); backward_step := λ o n _, (n, o) |}.

(** A sample of two hits of one particle, linked in the predicted graph,
    with one true pair; its two graphs; and a file holding twenty such
    samples. *)
Definition linked_pair : Sample :=
  {| hits := {| xyz := [[0; 0; 0]; [1; 0; 0]]; emb := [[0; 0; 0]; [0; 0; 1]];
                particle_id := [7%Z; 7%Z]; hit_weight := [1; 1] |};
     graph_pred := [(0, 1)%nat; (1, 0)%nat];
     graph_true := [(0, 1)%nat]; pair_truth := [1] |}.

Definition linked_pair_graphs : DGLGraph * DGLGraph :=
  ({| num_nodes := 2; edges := [(0, 1)%nat; (1, 0)%nat];
      ndata := <["weight" := TVec [1; 1]]>
                 (<["pid" := TInt [7%Z; 7%Z]]>
                    (<["feat" := TMat [[0; 0; 0; 0; 0; 0];
                                       [1; 0; 0; 0; 0; 1]]]> ∅));
      edata := ∅ |},
   {| num_nodes := 2; edges := [(0, 1)%nat]; ndata := ∅;
      edata := {[ "truth" := TVec [1] ]} |}).

Definition tracks_pickle : gmap string (list Sample) :=
  {[ "tracks.pickle" := replicate 20 linked_pair ]}.

(** One hit of particle 7, put alone in track 0. *)
Definition one_hit_truth : TruthTable :=
  {| t_particle_id := [7%Z]; t_hit_id := [0%nat]; t_weight := [1] |}.

Definition one_hit_submission : SubmissionTable :=
  {| s_hit_id := [0%nat]; s_track_id := [0%Z] |}.

(** One hit of particle 7 and one of particle 8, merged into track 0. *)
Definition merged_truth : TruthTable :=
  {| t_particle_id := [7%Z; 8%Z]; t_hit_id := [0%nat; 1%nat];
     t_weight := [1; 1] |}.

Definition merged_submission : SubmissionTable :=
  {| s_hit_id := [0%nat; 1%nat]; s_track_id := [0%Z; 0%Z] |}.

(** Two hits with one feature each and a single edge from hit 0 to
    hit 1: hit 0 receives no message. *)
Definition one_way_hits : DGLGraph :=
  {| num_nodes := 2; edges := [(0, 1)%nat];
     ndata := {[ "feat" := TMat [[1]; [2]] ]};
     edata := ∅ |}.

(** Two linked hits with two features each. *)
Definition wide_hits : DGLGraph :=
  {| num_nodes := 2; edges := [(0, 1)%nat];
     ndata := {[ "feat" := TMat [[1; 1]; [2; 2]] ]};
     edata := ∅ |}.

(** Two coincident hits joined by a pair whose label is neither 0 nor 1. *)
Definition mislabelled_pair : DGLGraph :=
  {| num_nodes := 2; edges := [(0, 1)%nat];
     ndata := {[ "emb" := TMat [[0]; [0]] ]};
     edata := {[ "truth" := TVec [2] ]} |}.

(** An input graph of two hits beside a ground-truth graph of three. *)
Definition lopsided_pair : DGLGraph * DGLGraph :=
  (linked_pair_graphs.1,
   {| num_nodes := 3; edges := [(0, 1)%nat]; ndata := ∅;
      edata := {[ "truth" := TVec [1] ]} |}).


(** A file holding nineteen samples. *)
Definition short_pickle : gmap string (list Sample) :=
  {[ "tracks.pickle" := replicate 19 linked_pair ]}.



(** A batch normalisation with running statistics that rejects an input
    of another width, as [nn.BatchNorm1d] does (weight 1 and bias 0, as
    initialised): in training mode it normalises with the statistics of
    the batch and moves the running statistics towards them, in
    evaluation mode it normalises every row with the running
    statistics. *)
Record RunningNorm := {
  num_features : nat;
  momentum : R;
  running_mean : list R;
  running_var : list R
}.

Definition norm_eps : R := 1 / 100000.

Definition norm_row (mu var r : list R) : list R :=
  zip_with (λ (a : R) (s : R * R), (a - s.1) / sqrt (s.2 + norm_eps))
    r (zip mu var).

Definition feature_column (j : nat) (x : list (list R)) : list R :=
  (λ r : list R, default 0 (r !! j)) <$> x.

Definition batch_mean (d : nat) (x : list (list R)) : list R :=
  (λ j, mean (feature_column j x)) <$> seq 0 d.

Definition batch_var (d : nat) (x : list (list R)) : list R :=
  (λ j, let c := feature_column j x in
        mean ((λ a, (a - mean c) * (a - mean c)) <$> c)) <$> seq 0 d.

Definition RunningNorm_forward (train : bool) (b : RunningNorm)
    (x : list (list R)) : option (list (list R) * RunningNorm) :=
  guard (Forall (λ r : list R, length r = num_features b) x);;
  if train then
    guard (1 < length x)%nat;;
    let mu := batch_mean (num_features b) x in
    let var := batch_var (num_features b) x in
    let n := INR (length x) in
    let m := momentum b in
    Some (norm_row mu var <$> x,
          {| num_features := num_features b; momentum := m;
             running_mean :=
               zip_with (λ a c, (1 - m) * a + m * c) (running_mean b) mu;
             running_var :=
               zip_with (λ a c, (1 - m) * a + m * (c * n / (n - 1)))
                 (running_var b) var |})
  else Some (norm_row (running_mean b) (running_var b) <$> x, b).

Definition running_library : Library := {|
  BatchNorm1d := RunningNorm;
  BatchNorm1d_init := λ n m,
    {| num_features := n; momentum := m; running_mean := replicate n 0;
       running_var := replicate n 1 |};
  BatchNorm1d_forward := RunningNorm_forward;
  DBSCAN_fit_predict := λ _ _ e, (λ _ : list R, (-1)%Z) <$> e;
  Rng := ();
  randperm := λ r n, (seq 0 n, r);
  Linear_reset_parameters :=
    λ r i o, (replicate o (replicate i 0), replicate o 0, r)
|}.

(** A network on six features with this normalisation, switched to
    evaluation mode. *)
Definition eval_net : @GNN running_library :=
  set_training (H := running_library) false
    (GNN_new (H := running_library) () 1 2 1 6 2).1.

(** * Properties *)

(** ** The option monad over lists *)

Lemma mapM_bind {A B C} (f : A → option B) (g : B → option C) (l : list A) :
  mapM f l ≫= mapM g = mapM (λ x, f x ≫= g) l.
Proof.
  induction l as [|x l IH]; [done|].
  cbn. destruct (f x) as [y|]; cbn; [|done].
  rewrite <- IH.
  destruct (mapM f l) as [k|]; cbn; [done|].
  by destruct (g y).
Qed.

Lemma mapM_fmap_r {A B C} (f : A → option B) (h : B → C) (l : list A) :
  fmap h <$> mapM f l = mapM (λ x, h <$> f x) l.
Proof.
  induction l as [|x l IH]; [done|].
  cbn. destruct (f x) as [y|]; cbn; [|done].
  rewrite <- IH. by destruct (mapM f l).
Qed.

Lemma mapM_lookup_Some {A B} (f : A → option B) (l : list A) (k : list B) i x :
  mapM f l = Some k → l !! i = Some x → k !! i = f x ∧ is_Some (f x).
Proof.
  intros Hm Hl. apply mapM_Some_1 in Hm.
  destruct (Forall2_lookup_l _ _ _ _ _ Hm Hl) as (y & Hy & Hf).
  rewrite Hy, Hf. eauto.
Qed.

Lemma gather_lookup {A} (l : list A) (idx : list nat) (k : list A) p i :
  gather l idx = Some k → idx !! p = Some i → k !! p = l !! i ∧ is_Some (l !! i).
Proof. exact (mapM_lookup_Some (λ i, l !! i) idx k p i). Qed.

Lemma gather_total {A} (l : list A) (idx : list nat) :
  Forall (λ i, (i < length l)%nat) idx → is_Some (gather l idx).
Proof.
  intros Hi. apply mapM_is_Some_2.
  eapply Forall_impl; [exact Hi|]. intros i Hlt. by apply lookup_lt_is_Some_2.
Qed.

Lemma gather_length {A} (l : list A) (idx : list nat) (k : list A) :
  gather l idx = Some k → length k = length idx.
Proof. intros Hg. symmetry. by eapply length_mapM. Qed.

(** ** Linear layers *)

Lemma linear_row_Some l x :
  length x = in_features l →
  linear_row l x = Some (zip_with Rplus (dot x <$> weight l) (bias l)).
Proof. intros Hx. unfold linear_row. by rewrite option_guard_True. Qed.

Lemma linear_row_length l x y :
  linear_wf l → linear_row l x = Some y → length y = out_features l.
Proof.
  intros (Hw & _ & Hb). unfold linear_row. intros Hy.
  case_guard; simplify_eq/=.
  rewrite length_zip_with, length_fmap. lia.
Qed.


(** ** The edge-weighting kernel *)

Lemma mapM_Some_id {A} (l : list A) : mapM (λ x, Some x) l = Some l.
Proof. induction l as [|x l IH]; [done|]. cbn. by rewrite IH. Qed.

Lemma mapM_fmap_l {A B C} (h : A → B) (g : B → option C) (l : list A) :
  mapM g (h <$> l) = mapM (λ x, g (h x)) l.
Proof. induction l as [|x l IH]; [done|]. cbn. by rewrite IH. Qed.

(** The batched hidden layers act row by row. *)
Lemma hidden_pass_rows ls m : hidden_pass ls m = mapM (hidden_vec ls) m.
Proof.
  revert m. induction ls as [|l ls IH]; intros m; cbn.
  - by rewrite mapM_Some_id.
  - unfold linear. rewrite <- mapM_bind. destruct (mapM _ m) as [y|]; cbn; [|done].
    rewrite IH. unfold map2d. by rewrite mapM_fmap_l.
Qed.

Lemma hidden_vec_total ls : ∀ d d' v,
  chained d ls d' → length v = d →
  ∃ y, hidden_vec ls v = Some y ∧ length y = d'.
Proof.
  induction ls as [|l ls IH]; intros d d' v Hc Hv; cbn in *.
  - exists v. split; [done|congruence].
  - destruct Hc as (Hin & Hwf & Hc).
    rewrite linear_row_Some by congruence. cbn.
    eapply IH; [exact Hc|].
    rewrite length_fmap, length_zip_with, length_fmap.
    destruct Hwf as (? & _ & ?). lia.
Qed.

Lemma chained_repeat h n ls :
  Forall linear_wf ls →
  (λ l, (in_features l, out_features l)) <$> ls = repeat (h, h) n →
  chained h ls h.
Proof.
  revert ls. induction n as [|n IH]; intros [|l ls] Hwf Hd; simplify_eq/=; [done|].
  apply Forall_cons in Hwf as [Hl Hwf].
  split_and!; [done..|]. match goal with H : out_features l = _ |- _ => rewrite H end.
  by apply IH.
Qed.

(** What [__init__] builds: hidden layers that compose, then the output
    layer. *)
Lemma kernel_init_inv nb_input nb_hidden_gnn nb_output nb_layer k :
  kernel_init nb_input nb_hidden_gnn nb_output nb_layer k →
  ∃ front lst,
    layers k = front ++ [lst] ∧
    chained (nb_input * 2) front nb_hidden_gnn ∧
    linear_wf lst ∧ in_features lst = nb_hidden_gnn ∧
    out_features lst = nb_output.
Proof.
  intros [Hwf Hd]. unfold kernel_dims in Hd.
  rewrite app_comm_cons in Hd.
  apply fmap_app_inv in Hd as (front & tl & Hf & Ht & Hl).
  destruct tl as [|lst [|??]]; simplify_eq/=.
  exists front, lst. rewrite Hl in Hwf.
  apply Forall_app in Hwf as [Hwf1 Hwf2].
  apply Forall_cons in Hwf2 as [Hlst _].
  split_and!; try done.
  destruct front as [|l front]; simplify_eq/=.
  apply Forall_cons in Hwf1 as [Hl1 Hwf1].
  split_and!; [done..|].
  match goal with H : in_features lst = out_features l |- _ => rewrite <- H end.
  by eapply chained_repeat.
Qed.

Lemma kernel_f_snoc k front lst v :
  layers k = front ++ [lst] →
  kernel_f k v = hidden_vec front v ≫= linear_row lst.
Proof.
  intros Hl. unfold kernel_f. rewrite Hl, removelast_last, last_snoc.
  by destruct (hidden_vec front v).
Qed.

Lemma kernel_f_total nb_input nb_hidden_gnn nb_output nb_layer k v :
  kernel_init nb_input nb_hidden_gnn nb_output nb_layer k →
  length v = (nb_input * 2)%nat →
  ∃ y, kernel_f k v = Some y ∧ length y = nb_output.
Proof.
  intros Hk Hv.
  destruct (kernel_init_inv _ _ _ _ _ Hk) as (front & lst & Hl & Hc & Hwf & Hin & Hout).
  rewrite (kernel_f_snoc _ _ _ _ Hl).
  destruct (hidden_vec_total _ _ _ _ Hc Hv) as (h & -> & Hh). cbn.
  rewrite linear_row_Some by congruence. eexists. split; [done|].
  rewrite length_zip_with, length_fmap. destruct Hwf as (? & _ & ?). lia.
Qed.

(** The batched kernel is the edge-wise kernel on every row. *)
Lemma kernel_rows k front lst m :
  layers k = front ++ [lst] →
  (e ← hidden_pass (removelast (layers k)) m;
   l ← last (layers k);
   e ← linear l e;
   Some (map2d sigmoid e))
  = mapM (λ v, (λ y : list R, sigmoid <$> y) <$> kernel_f k v) m.
Proof.
  intros Hl.
  rewrite (mapM_ext _ (λ v, (λ y : list R, sigmoid <$> y)
                              <$> (hidden_vec front v ≫= linear_row lst)))
    by (intros v; by rewrite (kernel_f_snoc _ _ _ _ Hl)).
  rewrite <- mapM_fmap_r, <- mapM_bind, <- hidden_pass_rows.
  rewrite Hl, removelast_last, last_snoc.
  destruct (hidden_pass front m) as [e|]; cbn; [|done].
  unfold linear. by destruct (mapM (linear_row lst) e).
Qed.

Lemma mapM_cons_Some {A B} (f : A → option B) x l k :
  mapM f (x :: l) = Some k →
  ∃ y k', f x = Some y ∧ mapM f l = Some k' ∧ k = y :: k'.
Proof.
  cbn. destruct (f x) as [y|]; cbn; [|done].
  destruct (mapM f l) as [k'|]; cbn; [|done].
  intros [= <-]. eauto.
Qed.

(** Rows gathered at the two end points, concatenated, are the
    concatenated end-point rows of each edge. *)
Lemma mapM_end_points {B} (F : list R → option B) (x : list (list R)) E :
  ∀ src dst,
  gather x (fst <$> E) = Some src →
  gather x (snd <$> E) = Some dst →
  mapM F (zip_with app src dst)
  = mapM (λ e : nat * nat, xi ← x !! e.1; xj ← x !! e.2; F (xi ++ xj)) E.
Proof.
  unfold gather.
  induction E as [|[i j] E IH]; intros src dst Hs Hd.
  - rewrite fmap_nil in Hs, Hd. unfold mapM, mret, option_ret in Hs, Hd.
    simplify_eq. reflexivity.
  - rewrite fmap_cons in Hs, Hd.
    apply mapM_cons_Some in Hs as (xi & src' & Hi & Hs & ->).
    apply mapM_cons_Some in Hd as (xj & dst' & Hj & Hd & ->).
    cbn in Hi, Hj. cbn. rewrite Hi, Hj. cbn.
    by rewrite (IH _ _ Hs Hd).
Qed.

Lemma graph_wf_src g (x : list (list R)) :
  graph_wf g → length x = num_nodes g →
  Forall (λ i, (i < length x)%nat) (fst <$> edges g).
Proof.
  intros Hg Hx. apply Forall_fmap. eapply Forall_impl; [exact Hg|].
  intros [i j] [Hi _]; cbn in *. lia.
Qed.

Lemma graph_wf_dst g (x : list (list R)) :
  graph_wf g → length x = num_nodes g →
  Forall (λ i, (i < length x)%nat) (snd <$> edges g).
Proof.
  intros Hg Hx. apply Forall_fmap. eapply Forall_impl; [exact Hg|].
  intros [i j] [_ Hj]; cbn in *. lia.
Qed.

Lemma edge_weights_total nb_input nb_hidden_gnn nb_output nb_layer k x E :
  kernel_init nb_input nb_hidden_gnn nb_output nb_layer k →
  Forall (λ r, length r = nb_input) x →
  Forall (λ e : nat * nat, (e.1 < length x)%nat ∧ (e.2 < length x)%nat) E →
  ∃ w, edge_weights k x E = Some w ∧ length w = length E ∧
       Forall (λ r, length r = nb_output) w.
Proof.
  intros Hk Hx HE.
  assert (Hall : Forall (λ e : nat * nat,
            ∃ y, (xi ← x !! e.1; xj ← x !! e.2; edge_weight k xi xj) = Some y
                 ∧ length y = nb_output) E).
  { eapply Forall_impl; [exact HE|]. intros [i j] [Hi Hj]; cbn in *.
    apply lookup_lt_is_Some_2 in Hi as [xi Hxi], Hj as [xj Hxj].
    rewrite Hxi, Hxj. cbn. unfold edge_weight.
    destruct (kernel_f_total _ _ _ _ k (xi ++ xj) Hk) as (y & -> & Hy).
    { rewrite length_app.
      rewrite (Forall_lookup_1 _ _ _ _ Hx Hxi), (Forall_lookup_1 _ _ _ _ Hx Hxj).
      lia. }
    cbn. eexists. split; [done|]. by rewrite length_fmap. }
  clear HE. unfold edge_weights.
  induction Hall as [|e E (y & Hy & Hly) _ (w & Hw & Hlw & Hfw)].
  - exists []. by split_and!.
  - exists (y :: w). cbn. rewrite Hy. cbn. rewrite Hw. cbn.
    split_and!; [done|lia|by constructor].
Qed.

Lemma kernel_forward_spec nb_input nb_hidden_gnn nb_output nb_layer k g x :
  kernel_init nb_input nb_hidden_gnn nb_output nb_layer k →
  graph_wf g →
  ndata g !! "feat" = Some (TMat x) →
  length x = num_nodes g →
  Forall (λ r, length r = nb_input) x →
  ∃ w, edge_weights k x (edges g) = Some w ∧
       length w = length (edges g) ∧
       Forall (λ r, length r = nb_output) w ∧
       MLP_Kernel_DGL_forward k g
       = Some (with_edata (<["e" := TMat w]> (edata g)) g).
Proof.
  intros Hk Hg Hf Hn Hx.
  destruct (edge_weights_total _ _ _ _ k x (edges g) Hk Hx) as (w & Hw & Hlw & Hfw).
  { eapply Forall_impl; [exact Hg|]. intros e. rewrite Hn. done. }
  exists w. split_and!; [done..|].
  destruct (kernel_init_inv _ _ _ _ _ Hk) as (front & lst & Hl & _).
  destruct (gather_total x _ (graph_wf_src g x Hg Hn)) as [src Hsrc].
  destruct (gather_total x _ (graph_wf_dst g x Hg Hn)) as [dst Hdst].
  pose proof (gather_length _ _ _ Hsrc) as Hls.
  pose proof (gather_length _ _ _ Hdst) as Hld.
  rewrite length_fmap in Hls, Hld.
  pose proof (kernel_rows k front lst (zip_with app src dst) Hl) as Hrows.
  rewrite (mapM_end_points _ x (edges g) src dst Hsrc Hdst) in Hrows.
  fold (edge_weight k) in Hrows.
  change (mapM _ (edges g)) with (edge_weights k x (edges g)) in Hrows.
  rewrite Hw in Hrows.
  unfold MLP_Kernel_DGL_forward, apply_edges, MLP_Kernel_DGL_mlp,
    edges_src, edges_dst.
  rewrite Hf. cbn. rewrite Hsrc, Hdst. cbn.
  unfold cat1. rewrite option_guard_True by congruence. cbn.
  destruct (hidden_pass _ _) as [e1|]; cbn in *; [|done].
  destruct (last (layers k)) as [l|]; cbn in *; [|done].
  destruct (linear l e1) as [e2|]; cbn in *; [|done].
  simplify_eq.
  rewrite option_guard_True.
  2:{ apply map_Forall_singleton. cbn. done. }
  cbn. by rewrite insert_union_singleton_l.
Qed.

(** C2: for every edge [(i, j)] the kernel stores in the edge field ['e']
    the value [sigmoid(f([x_i, x_j]))], where [f] sends the concatenated
    source and destination feature vectors through the hidden linear
    layers with ReLU and then through the final linear layer. *)
Theorem kernel_stores_edge_weight nb_input nb_hidden_gnn nb_output nb_layer k g x :
  kernel_init nb_input nb_hidden_gnn nb_output nb_layer k →
  graph_wf g →
  ndata g !! "feat" = Some (TMat x) →
  length x = num_nodes g →
  Forall (λ r, length r = nb_input) x →
  ∃ g' w,
    MLP_Kernel_DGL_forward k g = Some g' ∧
    edges g' = edges g ∧
    edata g' !! "e" = Some (TMat w) ∧
    length w = length (edges g) ∧
    ∀ p i j, edges g !! p = Some (i, j) →
      ∃ xi xj h y,
        x !! i = Some xi ∧ x !! j = Some xj ∧
        hidden_vec (removelast (layers k)) (xi ++ xj) = Some h ∧
        (last (layers k) ≫= λ l, linear_row l h) = Some y ∧
        w !! p = Some (sigmoid <$> y).
Proof.
  intros Hk Hg Hf Hn Hx.
  destruct (kernel_forward_spec _ _ _ _ k g x Hk Hg Hf Hn Hx)
    as (w & Hw & Hlw & _ & Hfw).
  eexists _, w. split; [exact Hfw|]. cbn.
  split_and!; [done|apply lookup_insert_eq|done|].
  intros p i j Hp.
  destruct (mapM_lookup_Some _ _ _ _ _ Hw Hp) as [Hwp [r Hr]].
  rewrite Hr in Hwp. cbn in Hr.
  destruct (x !! i) as [xi|] eqn:Hi; [|done].
  destruct (x !! j) as [xj|] eqn:Hj; [|done].
  cbn in Hr. unfold edge_weight, kernel_f in Hr.
  destruct (hidden_vec _ (xi ++ xj)) as [h|] eqn:Hh; [|done].
  cbn in Hr.
  destruct (last (layers k) ≫= λ l, linear_row l h) as [y|] eqn:Hy; [|done].
  cbn in Hr. simplify_eq.
  by exists xi, xj, h, y.
Qed.

(** ** The range of the sigmoid *)

Lemma sigmoid_range x : 0 < sigmoid x < 1.
Proof.
  unfold sigmoid. pose proof (exp_pos (- x)) as He.
  set (t := / (1 + exp (- x))).
  assert (Ht : t * (1 + exp (- x)) = 1) by (unfold t; field; lra).
  assert (H0 : 0 < t) by (apply Rinv_0_lt_compat; lra).
  unfold Rdiv. rewrite Rmult_1_l. fold t. split; nra.
Qed.


(** ** Message passing *)

Lemma bmul_scalar u c : bmul u [c] = Some (scale c u).
Proof. by destruct u as [|? [|??]]. Qed.

Lemma u_mul_e_messages (src : list (list R)) : ∀ cs : list R,
  mapM (λ p : list R * list R, bmul p.1 p.2) (zip src ((λ c, [c]) <$> cs))
  = Some (zip_with (λ s c, scale c s) src cs).
Proof.
  induction src as [|s src IH]; intros [|c cs]; try done.
  cbn. rewrite bmul_scalar. cbn. by rewrite IH.
Qed.

(** The mailbox of node [i] holds the scaled features of its in-neighbours. *)
Lemma mailbox_neighbors (x : list (list R)) i (E : list (nat * nat)) :
  ∀ src (cs : list R),
  gather x (fst <$> E) = Some src →
  snd <$> filter (λ p : nat * nat * list R, p.1.2 = i)
            (zip E (zip_with (λ s c, scale c s) src cs))
  = (λ p : nat * nat * R, scale p.2 (default [] (x !! p.1.1)))
      <$> filter (λ p : nat * nat * R, p.1.2 = i) (zip E cs).
Proof.
  unfold gather.
  induction E as [|[j i'] E IH]; intros src cs Hs; [done|].
  rewrite fmap_cons in Hs.
  apply mapM_cons_Some in Hs as (xj & src' & Hj & Hs & ->).
  destruct cs as [|c cs]; [done|].
  cbn [zip_with zip]. rewrite !filter_cons. cbn in Hj |- *.
  case_decide; cbn; rewrite (IH _ _ Hs); [|done].
  by rewrite Hj.
Qed.

Lemma msg_dim_width d (x : list (list R)) (E : list (nat * nat)) src (cs : list R) :
  Forall (λ r, length r = d) x →
  x ≠ [] →
  gather x (fst <$> E) = Some src →
  msg_dim x (zip_with (λ s c, scale c s) src cs) = d.
Proof.
  intros Hx Hne Hs.
  destruct src as [|s src], cs as [|c cs], x as [|r x]; try done; cbn.
  - by apply Forall_cons in Hx as [? _].
  - by apply Forall_cons in Hx as [? _].
  - by apply Forall_cons in Hx as [? _].
  - unfold scale. rewrite length_fmap.
    destruct E as [|[j i] E]; [done|].
    rewrite fmap_cons in Hs. unfold gather in Hs.
    apply mapM_cons_Some in Hs as (? & ? & Hj & _ & ?).
    simplify_eq. cbn in Hj. by eapply (Forall_lookup_1 _ _ _ _ Hx).
Qed.

Lemma update_all_spec d g x (cs : list R) :
  graph_wf g →
  ndata g !! "feat" = Some (TMat x) →
  length x = num_nodes g →
  Forall (λ r, length r = d) x →
  edata g !! "e" = Some (TMat ((λ c, [c]) <$> cs)) →
  length cs = length (edges g) →
  update_all "feat" "e" "agg_msg" g
  = Some (with_ndata
            (<["agg_msg" := TMat (neighbor_sum d (edges g) cs x <$> seq 0 (num_nodes g))]>
               (ndata g)) g).
Proof.
  intros Hg Hf Hn Hx He Hc.
  destruct (gather_total x _ (graph_wf_src g x Hg Hn)) as [src Hsrc].
  pose proof (gather_length _ _ _ Hsrc) as Hls. rewrite length_fmap in Hls.
  unfold update_all, u_mul_e, edges_src.
  rewrite Hf, He. cbn. rewrite Hsrc. cbn.
  rewrite option_guard_True by (rewrite length_fmap; lia). cbn.
  rewrite u_mul_e_messages. cbn.
  unfold set_ndata. cbn.
  rewrite option_guard_True
    by (unfold reduce_sum; by rewrite length_fmap, length_seq).
  cbn.
  do 4 f_equal. apply list_fmap_ext. intros k i Hi.
  unfold reduce_sum, neighbor_sum, mailbox.
  rewrite (mailbox_neighbors x i (edges g) src cs Hsrc).
  rewrite (msg_dim_width d x (edges g) src cs Hx); [done| |done].
  apply lookup_seq in Hi as [_ Hi]. destruct x; [cbn in Hn; lia|done].
Qed.

(** ** One GNN layer *)

Lemma vadd_length a b : length (vadd a b) = (length a `min` length b)%nat.
Proof. unfold vadd. by rewrite length_zip_with. Qed.

Lemma neighbor_sum_length d E (cs : list R) (x : list (list R)) i :
  Forall (λ r, length r = d) x →
  Forall (λ e : nat * nat, (e.1 < length x)%nat) E →
  length (neighbor_sum d E cs x i) = d.
Proof.
  intros Hx HE. unfold neighbor_sum.
  revert cs. induction HE as [|[j i'] E Hj HE IH]; intros [|c cs]; cbn;
    try (unfold zeros; by rewrite length_replicate).
  case_decide; cbn; [|apply IH].
  rewrite vadd_length, IH. unfold scale. rewrite length_fmap.
  cbn in Hj. apply lookup_lt_is_Some_2 in Hj as [xj Hxj]. rewrite Hxj. cbn.
  rewrite (Forall_lookup_1 _ _ _ _ Hx Hxj). lia.
Qed.

Lemma rows_singletons (w : list (list R)) :
  Forall (λ r, length r = 1%nat) w →
  w = (λ c, [c]) <$> ((λ r, default 0 (head r)) <$> w).
Proof.
  induction 1 as [|r w Hr _ IH]; [done|].
  destruct r as [|c [|??]]; try done. cbn. by rewrite <- IH.
Qed.

Section Layer.
Context `{Library}.

Lemma maybe_norm_normalized l features x l' :
  maybe_norm l features = Some (x, l') → normalized l features x.
Proof.
  unfold maybe_norm, normalized. destruct (bn l) as [b|].
  - destruct (BatchNorm1d_forward _ _ _) as [[x' b']|]; cbn; [|done].
    intros [= <- <-]. eauto.
  - by intros [= <- <-].
Qed.

Lemma normalized_maybe_norm l features x :
  normalized l features x → ∃ l', maybe_norm l features = Some (x, l').
Proof.
  unfold maybe_norm, normalized. destruct (bn l) as [b|].
  - intros [b' ->]. cbn. eauto.
  - intros ->. eauto.
Qed.

Lemma layer_forward_spec d h hk l g features x l' :
  GNN_Layer_init d h hk l →
  graph_wf g →
  maybe_norm l features = Some (x, l') →
  length x = num_nodes g →
  Forall (λ r, length r = d) x →
  ∃ cs emb g',
    edge_weights (edge_weighting l) x (edges g) = Some ((λ c, [c]) <$> cs) ∧
    GNN_Layer_forward l g features = Some (emb, g', l') ∧
    edata g' !! "e" = Some (TMat ((λ c, [c]) <$> cs)) ∧
    ndata g' !! "agg_msg"
      = Some (TMat (neighbor_sum d (edges g) cs x <$> seq 0 (num_nodes g))) ∧
    length emb = num_nodes g ∧
    ∀ i xi, x !! i = Some xi →
      ∃ y, linear_row (fc l) (xi ++ neighbor_sum d (edges g) cs x i) = Some y ∧
           emb !! i = Some (relu <$> y).
Proof.
  intros (Hk & Hfc & Hin & Hout) Hg Hnorm Hn Hx.
  set (g1 := with_ndata (<["feat" := TMat x]> (ndata g)) g).
  destruct (kernel_forward_spec _ _ _ _ (edge_weighting l) g1 x Hk)
    as (w & Hw & Hlw & Hw1 & Hfw); [done|apply lookup_insert_eq|done..|].
  set (cs := (λ r : list R, default 0 (head r)) <$> w).
  assert (Hwc : w = (λ c, [c]) <$> cs) by (by apply rows_singletons).
  set (g2 := with_edata (<["e" := TMat w]> (edata g1)) g1) in *.
  assert (Hup : update_all "feat" "e" "agg_msg" g2
                = Some (with_ndata
                    (<["agg_msg" := TMat (neighbor_sum d (edges g2) cs x
                                            <$> seq 0 (num_nodes g2))]>
                       (ndata g2)) g2)).
  { apply (update_all_spec d g2 x cs); [done| |done|done| |].
    - apply lookup_insert_eq.
    - cbn. rewrite lookup_insert_eq. by rewrite <- Hwc.
    - unfold cs. by rewrite length_fmap. }
  change (edges g2) with (edges g) in Hup.
  change (num_nodes g2) with (num_nodes g) in Hup.
  set (agg := neighbor_sum d (edges g) cs x <$> seq 0 (num_nodes g)) in *.
  assert (Hla : length agg = num_nodes g)
    by (unfold agg; by rewrite length_fmap, length_seq).
  assert (Hrows : Forall (λ r, length r = in_features (fc l)) (zip_with app x agg)).
  { apply Forall_lookup_2. intros i r Hr.
    apply lookup_zip_with_Some in Hr as (xi & zi & -> & Hxi & Hzi).
    unfold agg in Hzi. apply list_lookup_fmap_Some in Hzi as (i' & -> & Hi').
    rewrite length_app, (Forall_lookup_1 _ _ _ _ Hx Hxi), neighbor_sum_length;
      [lia|done|].
    eapply Forall_impl; [exact Hg|]. intros e [He _]. by rewrite Hn. }
  destruct (mapM_is_Some_2 (linear_row (fc l)) (zip_with app x agg)) as [y Hy].
  { eapply Forall_impl; [exact Hrows|]. intros r Hr. cbn.
    rewrite linear_row_Some by done. eauto. }
  exists cs, (map2d relu y), (with_ndata (<["agg_msg" := TMat agg]> (ndata g2)) g2).
  rewrite <- Hwc. split; [exact Hw|].
  split.
  { unfold GNN_Layer_forward. rewrite Hnorm. cbn.
    unfold set_ndata at 1. rewrite option_guard_True by done. cbn.
    fold g1. rewrite Hfw. cbn. fold g2. rewrite Hup. cbn.
    rewrite lookup_insert_eq. cbn.
    unfold cat1. rewrite option_guard_True by lia. cbn.
    unfold linear. rewrite Hy. done. }
  split; [apply lookup_insert_eq|].
  split; [apply lookup_insert_eq|].
  pose proof (length_mapM _ _ _ Hy) as Hly.
  rewrite length_zip_with in Hly.
  split; [unfold map2d; rewrite length_fmap; lia|].
  intros i xi Hxi.
  assert (Hzi : agg !! i = Some (neighbor_sum d (edges g) cs x i)).
  { unfold agg. rewrite list_lookup_fmap, lookup_seq_lt; [done|].
    apply lookup_lt_Some in Hxi. lia. }
  assert (Hr : zip_with app x agg !! i
               = Some (xi ++ neighbor_sum d (edges g) cs x i)).
  { apply lookup_zip_with_Some. eauto. }
  destruct (mapM_lookup_Some _ _ _ _ _ Hy Hr) as [Hyi [r Hri]].
  exists r. split; [done|].
  unfold map2d. rewrite list_lookup_fmap, Hyi, Hri. done.
Qed.


(** Whatever its parameters and its input, the kernel writes only values
    strictly between 0 and 1. *)
End Layer.

(** ** The hinge embedding loss *)

Lemma hinge1_same d : hinge1 1 d 1 = d.
Proof.
  unfold hinge1. rewrite decide_True by done.
  rewrite decide_False by lra. lra.
Qed.

Lemma hinge1_different d : hinge1 1 d (-1) = Rmax 0 (1 - d).
Proof.
  unfold hinge1. rewrite decide_False by lra.
  rewrite decide_True by done. lra.
Qed.

Lemma gather_end_points {A} (x : list A) (E : list (nat * nat)) src dst p i j :
  gather x (fst <$> E) = Some src →
  gather x (snd <$> E) = Some dst →
  E !! p = Some (i, j) →
  ∃ u v, x !! i = Some u ∧ x !! j = Some v ∧
         src !! p = Some u ∧ dst !! p = Some v.
Proof.
  intros Hs Hd Hp.
  destruct (gather_lookup x (fst <$> E) src p i Hs) as [Hsp [u Hu]];
    [by rewrite list_lookup_fmap, Hp|].
  destruct (gather_lookup x (snd <$> E) dst p j Hd) as [Hdp [v Hv]];
    [by rewrite list_lookup_fmap, Hp|].
  exists u, v. by rewrite Hsp, Hdp.
Qed.

Lemma get_emb_for_loss_spec g e tt truth :
  graph_wf g →
  ndata g !! "emb" = Some (TMat e) →
  length e = num_nodes g →
  edata g !! "truth" = Some tt →
  as_float tt = Some truth →
  length truth = length (edges g) →
  ∃ g' loss pred,
    apply_edges get_emb_for_loss g = Some g' ∧
    edges g' = edges g ∧
    edata g' !! "loss" = Some (TVec loss) ∧
    edata g' !! "pred_dist" = Some (TVec pred) ∧
    edata g' !! "true_dist" = Some (TVec ((λ t, t * 2 - 1) <$> truth)) ∧
    length loss = length (edges g) ∧
    length pred = length (edges g) ∧
    ∀ p i j t, edges g !! p = Some (i, j) → truth !! p = Some t →
      ∃ u v, e !! i = Some u ∧ e !! j = Some v ∧
             pred !! p = Some (row_distance pairwise_eps u v) ∧
             loss !! p
             = Some (hinge1 1 (row_distance pairwise_eps u v) (t * 2 - 1)).
Proof.
  intros Hg He Hn Ht Hf Hl.
  destruct (gather_total e _ (graph_wf_src g e Hg Hn)) as [src Hsrc].
  destruct (gather_total e _ (graph_wf_dst g e Hg Hn)) as [dst Hdst].
  pose proof (gather_length _ _ _ Hsrc) as Hls.
  pose proof (gather_length _ _ _ Hdst) as Hld.
  rewrite length_fmap in Hls, Hld.
  set (pred := zip_with (row_distance pairwise_eps) src dst).
  set (true_dist := (λ t, t * 2 - 1) <$> truth).
  set (loss := zip_with (hinge1 1) pred true_dist).
  assert (Hlp : length pred = length (edges g))
    by (unfold pred; rewrite length_zip_with; lia).
  assert (Hlt : length true_dist = length (edges g))
    by (unfold true_dist; rewrite length_fmap; lia).
  assert (Hll : length loss = length (edges g))
    by (unfold loss; rewrite length_zip_with; lia).
  eexists _, loss, pred. split.
  { unfold apply_edges, get_emb_for_loss, edges_src, edges_dst, edges_data.
    rewrite He, Ht. cbn. rewrite Hsrc, Hdst. cbn.
    unfold pairwise_distance. rewrite option_guard_True by lia. cbn.
    rewrite Hf. cbn.
    unfold hinge_embedding_loss. fold pred true_dist.
    rewrite option_guard_True by lia. cbn. fold loss.
    rewrite option_guard_True; [done|].
    repeat apply map_Forall_insert_2;
      first [done | by apply map_Forall_singleton | apply map_Forall_empty]. }
  cbn. split; [done|].
  split; [apply lookup_union_Some_l, lookup_insert_eq|].
  split.
  { apply lookup_union_Some_l. rewrite lookup_insert_ne by done.
    apply lookup_insert_eq. }
  split.
  { apply lookup_union_Some_l. rewrite !lookup_insert_ne by done.
    apply lookup_singleton_eq. }
  split_and!; [done..|].
  intros p i j t Hp Htp.
  destruct (gather_end_points e (edges g) src dst p i j Hsrc Hdst Hp)
    as (u & v & Hu & Hv & Hsp & Hdp).
  exists u, v. split_and!; [done..| |].
  - unfold pred. apply lookup_zip_with_Some. eauto.
  - unfold loss. apply lookup_zip_with_Some.
    exists (row_distance pairwise_eps u v), (t * 2 - 1). split_and!; [done| |].
    + unfold pred. apply lookup_zip_with_Some. eauto.
    + unfold true_dist. by rewrite list_lookup_fmap, Htp.
Qed.

(** C3 (amended): for every edge of the ground-truth graph with
    end-point embeddings [u], [v] and label [truth] in {0, 1},
    [get_emb_for_loss] gives the loss [d] when [truth = 1] and
    [max(0, 1 - d)] when [truth = 0], where [d] is the pairwise distance
    [|u - v + eps|] with [eps = 1e-6] added to every coordinate
    difference; the hinge target is [2 * truth - 1], so the labels
    {0, 1} become the targets {-1, 1}. *)
Theorem hinge_loss_per_edge g e tt truth :
  graph_wf g →
  ndata g !! "emb" = Some (TMat e) →
  length e = num_nodes g →
  edata g !! "truth" = Some tt →
  as_float tt = Some truth →
  length truth = length (edges g) →
  ∃ g' loss target,
    apply_edges get_emb_for_loss g = Some g' ∧
    edata g' !! "loss" = Some (TVec loss) ∧
    edata g' !! "true_dist" = Some (TVec target) ∧
    ∀ p i j t, edges g !! p = Some (i, j) → truth !! p = Some t →
      ∃ u v, e !! i = Some u ∧ e !! j = Some v ∧
        (t = 1 → target !! p = Some 1 ∧
                 loss !! p = Some (row_distance pairwise_eps u v)) ∧
        (t = 0 → target !! p = Some (-1) ∧
                 loss !! p = Some (Rmax 0 (1 - row_distance pairwise_eps u v))).
Proof.
  intros Hg He Hn Ht Hf Hl.
  destruct (get_emb_for_loss_spec g e tt truth Hg He Hn Ht Hf Hl)
    as (g' & loss & pred & Hap & _ & Hloss & _ & Htd & _ & _ & Hedge).
  exists g', loss, ((λ t, t * 2 - 1) <$> truth). split_and!; [done..|].
  intros p i j t Hp Htp.
  destruct (Hedge p i j t Hp Htp) as (u & v & Hu & Hv & _ & Hlp).
  exists u, v. split_and!; [done..| |]; intros ->.
  - rewrite list_lookup_fmap, Htp. cbn. replace (1 * 2 - 1) with 1 in * by lra.
    by rewrite hinge1_same in Hlp.
  - rewrite list_lookup_fmap, Htp. cbn.
    replace (0 * 2 - 1) with (-1) in * by lra.
    by rewrite hinge1_different in Hlp.
Qed.

Lemma coincident_pair_wf : graph_wf coincident_pair.
Proof. repeat constructor. Defined.

Lemma row_distance_coincident : row_distance pairwise_eps [0] [0] = 1 / 1000000.
Proof.
  unfold row_distance, pairwise_eps. cbn.
  replace ((0 - 0 + 1 / 1000000) * (0 - 0 + 1 / 1000000) + 0)
    with ((1 / 1000000) * (1 / 1000000)) by lra.
  apply sqrt_square. lra.
Qed.

Lemma euclidean_distance_coincident : euclidean_distance [0] [0] = 0.
Proof.
  unfold euclidean_distance. cbn.
  replace ((0 - 0) * (0 - 0) + 0) with 0 by lra. apply sqrt_0.
Qed.

(** C3, as stated, fails: on a same-particle pair of coincident
    embeddings the loss is [1e-6], while their Euclidean distance is 0. *)
Lemma loss_differs_from_euclidean_distance :
  ∃ g', apply_edges get_emb_for_loss coincident_pair = Some g' ∧
        edata g' !! "loss" = Some (TVec [1 / 1000000]) ∧
        euclidean_distance [0] [0] = 0 ∧
        1 / 1000000 ≠ euclidean_distance [0] [0].
Proof.
  destruct (get_emb_for_loss_spec coincident_pair [[0]; [0]] (TVec [1]) [1])
    as (g' & loss & pred & Hap & _ & Hloss & _ & _ & Hll & _ & Hedge);
    [apply coincident_pair_wf|reflexivity..|].
  destruct (Hedge 0%nat 0%nat 1%nat 1 eq_refl eq_refl)
    as (u & v & Hu & Hv & _ & Hl0).
  cbn in Hu, Hv. injection Hu as <-. injection Hv as <-.
  destruct loss as [|l [|??]]; [discriminate Hll| |discriminate Hll].
  cbn in Hl0. injection Hl0 as ->.
  exists g'. split; [exact Hap|].
  rewrite Hloss, row_distance_coincident, euclidean_distance_coincident.
  replace (1 * 2 - 1) with 1 by lra. rewrite hinge1_same.
  split_and!; [reflexivity..|lra].
Qed.

Lemma hinge_loss_per_edge_witness :
  graph_wf coincident_pair ∧
  ∃ g' loss target,
    apply_edges get_emb_for_loss coincident_pair = Some g' ∧
    edata g' !! "loss" = Some (TVec loss) ∧
    edata g' !! "true_dist" = Some (TVec target) ∧
    ∀ p i j t, edges coincident_pair !! p = Some (i, j) → [1] !! p = Some t →
      ∃ u v, [[0]; [0]] !! i = Some u ∧ [[0]; [0]] !! j = Some v ∧
        (t = 1 → target !! p = Some 1 ∧
                 loss !! p = Some (row_distance pairwise_eps u v)) ∧
        (t = 0 → target !! p = Some (-1) ∧
                 loss !! p = Some (Rmax 0 (1 - row_distance pairwise_eps u v))).
Proof.
  split; [apply coincident_pair_wf|].
  apply (hinge_loss_per_edge coincident_pair [[0]; [0]] (TVec [1]) [1]);
    [apply coincident_pair_wf|reflexivity..].
Defined.

(** ** Rounding *)

Lemma round_split (z : Z) (f : R) :
  0 <= f < 1 →
  round (IZR z + f)
  = if Rlt_dec f (1 / 2) then IZR z
    else if Rlt_dec (1 / 2) f then IZR (z + 1)
    else if Z.even z then IZR z else IZR (z + 1).
Proof.
  intros Hf. unfold round.
  destruct (Int_part_frac_part_spec (IZR z + f) z f Hf eq_refl) as [<- <-].
  done.
Qed.

Lemma round_down (z : Z) (f : R) : 0 <= f < 1 / 2 → round (IZR z + f) = IZR z.
Proof.
  intros Hf. rewrite round_split by lra. destruct (Rlt_dec f (1 / 2)); [done|lra].
Qed.

Lemma round_up (z : Z) (f : R) :
  1 / 2 < f < 1 → round (IZR z + f) = IZR (z + 1).
Proof.
  intros Hf. rewrite round_split by lra.
  destruct (Rlt_dec f (1 / 2)); [lra|]. destruct (Rlt_dec (1 / 2) f); [done|lra].
Qed.

(** Halves go to the even neighbour. *)
Lemma round_half (z : Z) :
  round (IZR z + 1 / 2) = if Z.even z then IZR z else IZR (z + 1).
Proof.
  rewrite round_split by lra.
  destruct (Rlt_dec (1 / 2) (1 / 2)); [lra|done].
Qed.


Example round_0 : round 0 = 0.
Proof. replace 0 with (IZR 0 + 0) at 1 by lra. apply round_down. lra. Qed.

Example round_one_fifth : round (2 / 10) = 0.
Proof. replace (2 / 10) with (IZR 0 + 2 / 10) by lra. apply round_down. lra. Qed.

Example round_seven_tenths : round (7 / 10) = 1.
Proof.
  replace (7 / 10) with (IZR 0 + 7 / 10) by lra.
  rewrite round_up by lra. done.
Qed.

Example round_one_half : round (1 / 2) = 0.
Proof. replace (1 / 2) with (IZR 0 + 1 / 2) by lra. by rewrite round_half. Qed.

Example round_three_halves : round (3 / 2) = 2.
Proof. replace (3 / 2) with (IZR 1 + 1 / 2) by lra. by rewrite round_half. Qed.

(** ** The accuracy proxy *)

Lemma tensor_eq_same_length (a b : list R) :
  length a = length b →
  tensor_eq a b = Some (zip_with (λ x y : R, bool_decide (x = y)) a b).
Proof.
  intros Hl. unfold tensor_eq.
  destruct a as [|x [|x' a]], b as [|y [|y' b]]; try discriminate Hl;
    try reflexivity; by rewrite option_guard_True.
Qed.

(** A pair predicted close and a pair predicted far, both true pairs: one
    of the two is counted as correct. *)
Example score_dist_accuracy_half :
  score_dist_accuracy [2 / 10; 7 / 10] [1; 1] = Some (1 / 2).
Proof.
  unfold score_dist_accuracy. cbn [fmap list_fmap].
  rewrite round_one_fifth, round_seven_tenths.
  rewrite decide_True by done. rewrite decide_False by lra.
  rewrite tensor_eq_same_length by done. cbn [zip_with].
  rewrite bool_decide_eq_true_2 by lra.
  rewrite bool_decide_eq_false_2 by lra.
  cbn. f_equal; lra.
Qed.

Lemma thresholded_agrees p t :
  t = 0 ∨ t = 1 →
  bool_decide (1 - (if decide (round p = 0) then round p else 1) = t)
  = bool_decide (bool_decide (round p = 0) = bool_decide (t = 1)).
Proof.
  intros Ht. apply bool_decide_ext.
  destruct (decide (round p = 0)) as [Hr|Hr].
  - rewrite (bool_decide_eq_true_2 _ Hr), Hr. split.
    + intros <-. symmetry. apply bool_decide_eq_true_2. lra.
    + intros H1. symmetry in H1. apply bool_decide_eq_true_1 in H1. lra.
  - rewrite (bool_decide_eq_false_2 _ Hr). split.
    + intros <-. symmetry. apply bool_decide_eq_false_2. lra.
    + intros H1. symmetry in H1. apply bool_decide_eq_false_1 in H1.
      destruct Ht as [->| ->]; lra.
Qed.

Lemma count_true_agreements pred : ∀ truth,
  Forall (λ t, t = 0 ∨ t = 1) truth →
  count_true
    (zip_with (λ x y : R, bool_decide (x = y))
       ((λ p, 1 - p) <$> ((λ p, if decide (p = 0) then p else 1) <$> (round <$> pred)))
       truth)
  = agreements pred truth.
Proof.
  unfold count_true, agreements.
  induction pred as [|p pred IH]; intros [|t truth] Ht; try reflexivity.
  apply Forall_cons in Ht as [Ht0 Ht].
  cbn [fmap list_fmap zip_with zip]. rewrite !filter_cons. cbn [fst snd].
  rewrite (thresholded_agrees p t Ht0).
  destruct (decide (bool_decide (round p = 0) = bool_decide (t = 1))) as [HQ|HQ].
  - rewrite (bool_decide_eq_true_2 _ HQ), decide_True by done.
    cbn [length]. f_equal. by apply IH.
  - rewrite (bool_decide_eq_false_2 _ HQ), decide_False by done.
    by apply IH.
Qed.

Lemma agreements_le pred truth : (agreements pred truth ≤ length truth)%nat.
Proof.
  unfold agreements.
  etrans; [apply length_filter|]. rewrite length_zip. lia.
Qed.

(** C10: on a non-empty vector of predicted distances and a 0/1 truth
    vector of the same length, [score_dist_accuracy] returns a value in
    [0, 1], the fraction of the positions where "the prediction rounds to
    zero" coincides with "the truth is 1". *)
Theorem score_dist_accuracy_is_agreement_rate pred truth :
  pred ≠ [] →
  length pred = length truth →
  Forall (λ t, t = 0 ∨ t = 1) truth →
  ∃ score,
    score_dist_accuracy pred truth = Some score ∧
    0 <= score <= 1 ∧
    score = INR (agreements pred truth) / INR (length truth).
Proof.
  intros Hne Hl Ht.
  assert (Hn : (0 < length truth)%nat)
    by (rewrite <- Hl; destruct pred; [done|cbn; lia]).
  exists (INR (agreements pred truth) / INR (length truth)).
  split; [|split; [|done]].
  - unfold score_dist_accuracy.
    rewrite tensor_eq_same_length by (by rewrite !length_fmap).
    cbn. rewrite option_guard_True by lia. cbn.
    by rewrite count_true_agreements.
  - pose proof (agreements_le pred truth) as Hle.
    apply le_INR in Hle. apply lt_INR in Hn. cbn in Hn.
    pose proof (pos_INR (agreements pred truth)) as H0.
    assert (Hinv : 0 < / INR (length truth)) by (apply Rinv_0_lt_compat; lra).
    assert (Hone : INR (length truth) * / INR (length truth) = 1)
      by (field; lra).
    unfold Rdiv. split; nra.
Qed.

(** ** The edge weights in single precision *)



Lemma ln_2_pos : 0 < ln 2.
Proof. rewrite <- ln_1. apply ln_increasing; lra. Qed.









Lemma exp_20 : 33554432 < exp 20.
Proof.
  assert (Hq : 5 / 4 < exp (1 / 4))
    by (pose proof (exp_ineq1 (1 / 4)); lra).
  assert (Hh : exp (1 / 2) = exp (1 / 4) * exp (1 / 4))
    by (rewrite <- exp_plus; f_equal; lra).
  assert (H1 : exp 1 = exp (1 / 2) * exp (1 / 2))
    by (rewrite <- exp_plus; f_equal; lra).
  assert (H2 : exp 2 = exp 1 * exp 1) by (rewrite <- exp_plus; f_equal; lra).
  assert (H4 : exp 4 = exp 2 * exp 2) by (rewrite <- exp_plus; f_equal; lra).
  assert (H5 : exp 5 = exp 4 * exp 1) by (rewrite <- exp_plus; f_equal; lra).
  assert (H10 : exp 10 = exp 5 * exp 5) by (rewrite <- exp_plus; f_equal; lra).
  assert (H20 : exp 20 = exp 10 * exp 10)
    by (rewrite <- exp_plus; f_equal; lra).
  assert (Bh : 3 / 2 < exp (1 / 2)) by nra.
  assert (B1 : 2 < exp 1) by nra.
  assert (B1' : 24 / 10 < exp 1) by nra.
  assert (B2 : 57 / 10 < exp 2) by nra.
  assert (B4 : 32 < exp 4) by nra.
  assert (B5 : 76 < exp 5) by nra.
  assert (B10 : 5776 <= exp 10) by nra.
  nra.
Qed.



(** A positive value below half the smallest subnormal rounds to 0. *)
Lemma fl32_to_0 (x : R) : 0 < x < / 2 ^ 150 → fl32 x = 0.
Proof.
  intros [H0 Hx]. pose proof ln_2_pos as H2.
  assert (Hp : 0 < 2 ^ 150) by (apply pow_lt; lra).
  assert (Hl : ln x < - (150 * ln 2)).
  { replace (150 * ln 2) with (INR 150 * ln 2)
      by (f_equal; rewrite INR_IZR_INZ; done).
    rewrite <- ln_pow, <- ln_Rinv by lra. by apply ln_increasing. }
  assert (He : Z.max (ilog2 x) (-126) = (-126)%Z).
  { unfold ilog2. rewrite Rabs_pos_eq by lra.
    set (t := ln x / ln 2).
    assert (Hi : / ln 2 * ln 2 = 1) by (field; lra).
    assert (Hq : 0 < / ln 2) by (by apply Rinv_0_lt_compat).
    assert (Ht : t < -150) by (unfold t, Rdiv; nra).
    destruct (archimed t) as [_ Hup].
    assert (Hlt : IZR (up t) < IZR (-149)) by lra.
    apply lt_IZR in Hlt. lia. }
  unfold fl32, ulp32. rewrite He.
  change (-126 - 23)%Z with (- Z.of_nat 149)%Z.
  rewrite powerRZ_neg', <- pow_powerRZ.
  assert (Hp' : 0 < 2 ^ 149) by (apply pow_lt; lra).
  assert (Hs : 2 ^ 150 = 2 * 2 ^ 149) by (change 150%nat with (S 149); done).
  replace (x / / 2 ^ 149) with (IZR 0 + x * 2 ^ 149) by (field; lra).
  rewrite round_down; [lra|].
  assert (Hi : / 2 ^ 150 * 2 ^ 150 = 1) by (field; lra).
  split; [nra|]. rewrite Hs in *. nra.
Qed.

Lemma exp_200 : 2 ^ 150 < exp 200.
Proof.
  pose proof exp_20 as H20.
  assert (H25 : 2 ^ 25 = 33554432) by (cbn; lra).
  assert (H40 : exp 40 = exp 20 * exp 20)
    by (rewrite <- exp_plus; f_equal; lra).
  assert (H80 : exp 80 = exp 40 * exp 40)
    by (rewrite <- exp_plus; f_equal; lra).
  assert (H120 : exp 120 = exp 80 * exp 40)
    by (rewrite <- exp_plus; f_equal; lra).
  assert (H200 : exp 200 = exp 120 * exp 80)
    by (rewrite <- exp_plus; f_equal; lra).
  assert (P50 : 2 ^ 50 = 2 ^ 25 * 2 ^ 25) by (rewrite <- pow_add; done).
  assert (P100 : 2 ^ 100 = 2 ^ 50 * 2 ^ 50) by (rewrite <- pow_add; done).
  assert (P150 : 2 ^ 150 = 2 ^ 100 * 2 ^ 50) by (rewrite <- pow_add; done).
  assert (Q50 : 0 < 2 ^ 50) by (apply pow_lt; lra).
  assert (Q100 : 0 < 2 ^ 100) by (apply pow_lt; lra).
  assert (B40 : 2 ^ 50 < exp 40) by (rewrite P50, H25, H40; nra).
  assert (B80 : 2 ^ 100 < exp 80) by (rewrite P100, H80; nra).
  assert (B120 : 2 ^ 100 < exp 120) by (rewrite H120; nra).
  rewrite P150, H200. nra.
Qed.

Lemma sigmoid_f32_neg_200 : sigmoid_f32 (-200) = 0.
Proof.
  apply fl32_to_0. split; [apply sigmoid_range|].
  unfold sigmoid. replace (- -200) with 200 by lra.
  pose proof exp_200 as He.
  assert (Hp : 0 < 2 ^ 150) by (apply pow_lt; lra).
  unfold Rdiv. rewrite Rmult_1_l.
  apply Rinv_lt_contravar; [|lra].
  apply Rmult_lt_0_compat; lra.
Qed.




Section SinglePrecision.
Context `{Library}.



End SinglePrecision.






(** ** The evaluation data loader *)

Lemma ofoldl_app {A B} (f : A → B → option A) (l1 l2 : list B) : ∀ a,
  ofoldl f a (l1 ++ l2) = ofoldl f a l1 ≫= λ a', ofoldl f a' l2.
Proof.
  induction l1 as [|x l1 IH]; intros a; [done|].
  cbn. destruct (f a x) as [a'|]; cbn; [apply IH|done].
Qed.

Lemma gather_all {A} (l : list A) : gather l (seq 0 (length l)) = Some l.
Proof.
  unfold gather. apply mapM_Some_2, Forall2_same_length_lookup_2.
  - by rewrite length_seq.
  - intros i j x Hj Hx. apply lookup_seq in Hj as [-> _]. done.
Qed.

Lemma reshape_ones {A} (l : list A) :
  reshape (replicate (length l) 1%nat) l = (λ x, [x]) <$> l.
Proof. induction l as [|x l IH]; [done|]. cbn. by rewrite drop_0, IH. Qed.

Lemma batch_sizes_one n : batch_sizes n 1 false = replicate n 1%nat.
Proof.
  unfold batch_sizes. rewrite Nat.div_1_r, Nat.mod_1_r.
  rewrite bool_decide_eq_true_2 by done. cbn. apply app_nil_r.
Qed.

Lemma trackml_collate_one b : trackml_collate [b] = Some b.
Proof. by destruct b. Qed.

(** With batches of one and no shuffling the loader yields the dataset. *)
Lemma load_batches_one dataset :
  load_batches dataset 1 false (seq 0 (length dataset)) = Some dataset.
Proof.
  unfold load_batches. rewrite option_guard_True by lia.
  rewrite gather_all. cbn [mbind option_bind].
  rewrite batch_sizes_one, reshape_ones.
  rewrite mapM_fmap_l.
  rewrite (mapM_ext _ Some) by apply trackml_collate_one.
  apply mapM_Some_id.
Qed.

Section Embedding.
Context `{Library}.

Lemma embed_fold_spec (l : list (DGLGraph * DGLGraph)) : ∀ net st net' st',
  ofoldl embed_step (net, st) l = Some (net', st') →
  ∃ (fs : list (list (list R))) (ps ws : list tensor) es,
    mapM (M := option) (λ b : DGLGraph * DGLGraph, ndata b.1 !! "feat" ≫= as_mat) l = Some fs ∧
    mapM (M := option) (λ b : DGLGraph * DGLGraph, ndata b.1 !! "pid") l = Some ps ∧
    mapM (M := option) (λ b : DGLGraph * DGLGraph, ndata b.1 !! "weight") l = Some ws ∧
    forward_all net (fst <$> l) = Some (es, net') ∧
    orig_xyz st' = orig_xyz st ++ ((λ f : list (list R), take 3 <$> f) <$> fs) ∧
    emb_metric st' = emb_metric st ++ ((λ f : list (list R), drop 3 <$> f) <$> fs) ∧
    emb_gnn st' = emb_gnn st ++ es ∧
    pid st' = pid st ++ ps ∧
    weight_ st' = weight_ st ++ ws.
Proof.
  induction l as [|b l IH]; intros net st net' st' Hf.
  - cbn in Hf. injection Hf as <- <-. exists [], [], [], [].
    by rewrite !app_nil_r.
  - cbn in Hf.
    destruct (ndata b.1 !! "feat") as [f|] eqn:Hfeat; [|done]. cbn in Hf.
    destruct (ndata b.1 !! "pid") as [p|] eqn:Hpid; [|done]. cbn in Hf.
    destruct (as_mat f) as [feat|] eqn:Hmat; [|done]. cbn in Hf.
    destruct (ndata b.1 !! "weight") as [w|] eqn:Hw; [|done]. cbn in Hf.
    destruct (GNN_forward net b.1) as [r|] eqn:Hr; [|done]. cbn in Hf.
    destruct (IH _ _ _ _ Hf)
      as (fs & ps & ws & es & Hfs & Hps & Hws & Hes & Hx & Hm & Hg & Hp & Hwt).
    exists (feat :: fs), (p :: ps), (w :: ws), (r.1.1 :: es).
    cbn. rewrite Hfeat, Hpid, Hw, Hr. cbn. rewrite Hmat, Hfs, Hps, Hws, Hes. cbn.
    rewrite Hx, Hm, Hg, Hp, Hwt. cbn. rewrite <- !app_assoc. done.
Qed.

Lemma forward_all_length net gs es net' :
  forward_all net gs = Some (es, net') → length es = length gs.
Proof.
  revert net es. induction gs as [|g gs IH]; intros net es Hf; cbn in Hf.
  - by injection Hf as <- <-.
  - destruct (GNN_forward net g) as [r|]; [|done]. cbn in Hf.
    destruct (forward_all r.2 gs) as [[es' n']|] eqn:Hes; [|done].
    cbn in Hf. injection Hf as <- <-. cbn. f_equal. by eapply IH.
Qed.

(** What the embedding loop leaves in its five lists. *)
Lemma embed_samples_spec net dataset net' st :
  embed_samples net dataset = Some (net', st) →
  ∃ (fs : list (list (list R))) (ps ws : list tensor),
    mapM (M := option)
      (λ b : DGLGraph * DGLGraph, ndata b.1 !! "feat" ≫= as_mat) dataset
      = Some fs ∧
    mapM (M := option) (λ b : DGLGraph * DGLGraph, ndata b.1 !! "pid") dataset = Some ps ∧
    mapM (M := option) (λ b : DGLGraph * DGLGraph, ndata b.1 !! "weight") dataset = Some ws ∧
    forward_all (set_training false net) (fst <$> dataset) = Some (emb_gnn st, net') ∧
    orig_xyz st = (λ f : list (list R), take 3 <$> f) <$> fs ∧
    emb_metric st = (λ f : list (list R), drop 3 <$> f) <$> fs ∧
    pid st = ps ∧
    weight_ st = ws.
Proof.
  unfold embed_samples. rewrite load_batches_one. cbn. intros Hf.
  destruct (embed_fold_spec _ _ _ _ _ Hf)
    as (fs & ps & ws & es & Hfs & Hps & Hws & Hes & Hx & Hm & Hg & Hp & Hw).
  cbn in *. exists fs, ps, ws. rewrite Hg. by split_and!.
Qed.

End Embedding.

(** ** Row counts through the network *)

Ltac inv_bind H :=
  repeat match type of H with
         | (_ ≫= _) = Some _ => apply bind_Some in H; destruct H as (? & ? & H)
         end.

Lemma linear_rows l x y : linear l x = Some y → length y = length x.
Proof. intros Hy. symmetry. by eapply length_mapM. Qed.

Lemma set_ndata_Some k t g g' :
  set_ndata k t g = Some g' →
  size0 t = num_nodes g ∧ g' = with_ndata (<[k:=t]> (ndata g)) g.
Proof.
  unfold set_ndata. intros Hs. inv_bind Hs. by injection Hs as <-.
Qed.

Lemma apply_edges_nodes f g g' :
  apply_edges f g = Some g' → num_nodes g' = num_nodes g ∧ edges g' = edges g.
Proof.
  unfold apply_edges. intros Ha. inv_bind Ha. by injection Ha as <-.
Qed.

Lemma update_all_nodes u e out g g' :
  update_all u e out g = Some g' →
  num_nodes g' = num_nodes g ∧ edges g' = edges g.
Proof.
  unfold update_all. intros Hu. inv_bind Hu.
  apply set_ndata_Some in Hu as [_ ->]. done.
Qed.

Section Rows.
Context `{Library}.

Lemma layer_forward_rows l g features emb g' l' :
  GNN_Layer_forward l g features = Some (emb, g', l') →
  length emb = num_nodes g ∧ num_nodes g' = num_nodes g ∧ edges g' = edges g.
Proof.
  unfold GNN_Layer_forward. intros Hf. inv_bind Hf.
  injection Hf as <- <- <-.
  match goal with Hs : set_ndata "feat" _ g = Some _ |- _ =>
    apply set_ndata_Some in Hs as [Hn ->] end.
  match goal with Hk : MLP_Kernel_DGL_forward _ _ = Some _ |- _ =>
    apply apply_edges_nodes in Hk as [Hk1 Hk2] end.
  match goal with Hu : update_all _ _ _ _ = Some _ |- _ =>
    apply update_all_nodes in Hu as [Hu1 Hu2] end.
  match goal with Hl : linear _ _ = Some _ |- _ => apply linear_rows in Hl end.
  match goal with Hc : cat1 _ _ = Some _ |- _ =>
    unfold cat1 in Hc; inv_bind Hc; injection Hc as <- end.
  cbn in *. unfold map2d. rewrite length_fmap.
  rewrite length_zip_with in *. split_and!; [lia|congruence|congruence].
Qed.

Lemma layers_forward_rows ls : ∀ g emb emb' g' ls',
  GNN_layers_forward ls g emb = Some (emb', g', ls') →
  length emb = num_nodes g →
  length emb' = num_nodes g ∧ num_nodes g' = num_nodes g.
Proof.
  induction ls as [|l ls IH]; intros g emb emb' g' ls' Hf Hn; cbn in Hf.
  - by injection Hf as <- <- <-.
  - inv_bind Hf.
    match goal with r : (list (list R) * DGLGraph * GNN_Layer)%type |- _ =>
      destruct r as [[e1 g1] l1] end.
    inv_bind Hf.
    match goal with r : (list (list R) * DGLGraph * list GNN_Layer)%type |- _ =>
      destruct r as [[e2 g2] ls2] end.
    injection Hf as <- <- <-.
    match goal with Hl : GNN_Layer_forward _ _ _ = Some _ |- _ =>
      apply layer_forward_rows in Hl as (Hl1 & Hl2 & _) end.
    match goal with Hr : GNN_layers_forward _ _ _ = Some _ |- _ =>
      apply IH in Hr as [Hr1 Hr2]; [|congruence] end.
    split; congruence.
Qed.

(** The embedding has one row per node. *)
Lemma GNN_forward_rows net g feat emb g' net' :
  ndata g !! "feat" = Some (TMat feat) →
  length feat = num_nodes g →
  GNN_forward net g = Some (emb, g', net') →
  length emb = num_nodes g.
Proof.
  intros Hfeat Hn. unfold GNN_forward, pop_ndata. rewrite Hfeat. cbn.
  intros Hf. inv_bind Hf.
  match goal with r : (list (list R) * DGLGraph * list GNN_Layer)%type |- _ =>
    destruct r as [[e1 g1] ls1] end.
  inv_bind Hf. injection Hf as <- <- <-.
  match goal with Hr : GNN_layers_forward _ _ _ = Some _ |- _ =>
    apply layers_forward_rows in Hr as [Hr1 Hr2]; [|done] end.
  match goal with Hl : linear _ _ = Some _ |- _ => apply linear_rows in Hl end.
  cbn in *. congruence.
Qed.

End Rows.

(** ** The scoring loop *)

Section Scoring.
Context `{Library}.

(** The running sum of the loop is the sum of the samples' scores. *)
Lemma score_loop_sum st l : ∀ a,
  ofoldl (score_step st) a l
  = tables ← mapM (sample_tables st) l;
    Some (a + rsum ((λ tb : TruthTable * SubmissionTable,
                       score_event tb.1 tb.2) <$> tables)).
Proof.
  induction l as [|i l IH]; intros a.
  - cbn. f_equal. lra.
  - change (ofoldl (score_step st) a (i :: l))
      with (score_step st a i ≫= λ a0, ofoldl (score_step st) a0 l).
    change (mapM (sample_tables st) (i :: l))
      with (y ← sample_tables st i; k ← mapM (sample_tables st) l;
            mret (y :: k)).
    assert (Hstep : score_step st a i
              = (tb ← sample_tables st i; Some (a + score_event tb.1 tb.2)))
      by done.
    rewrite Hstep. clear Hstep.
    destruct (sample_tables st i) as [tb|]; cbn -[ofoldl mapM]; [|done].
    rewrite IH.
    destruct (mapM (sample_tables st) l) as [tbs|]; cbn; [|done].
    f_equal. unfold rsum. lra.
Qed.

Lemma final_score_mean st :
  final_score st
  = tables ← mapM (sample_tables st) (seq 0 nb_samples);
    Some (rsum ((λ tb : TruthTable * SubmissionTable,
                   score_event tb.1 tb.2) <$> tables) / INR nb_samples).
Proof.
  unfold final_score. rewrite score_loop_sum.
  destruct (mapM _ _) as [tbs|]; cbn; [|done].
  f_equal. f_equal. lra.
Qed.

Lemma sample_tables_spec st i e pv w wv :
  (∀ eps ms x, length (DBSCAN_fit_predict eps ms x) = length x) →
  emb_gnn st !! i = Some e →
  pid st !! i = Some (TInt pv) →
  weight_ st !! i = Some w →
  as_float w = Some wv →
  length pv = length e →
  length wv = length e →
  sample_tables st i = Some (truth_table e pv wv, submission_table e).
Proof.
  intros Hdb He Hp Hw Hf Hlp Hlw.
  unfold sample_tables, truth_from_dict, submission_from_dict, get_clusters.
  rewrite He, Hp, Hw. cbn. rewrite Hf. cbn.
  rewrite !Hdb.
  rewrite option_guard_True by (rewrite length_seq; lia). cbn.
  rewrite option_guard_True by (by rewrite length_seq). cbn.
  done.
Qed.

(** After the embedding loop, sample [i] has its embedding, particle ids
    and weights at index [i], with one row per node. *)
Lemma embedded_sample net dataset net' st i b feat p w :
  embed_samples net dataset = Some (net', st) →
  dataset !! i = Some b →
  input_fields b.1 feat p w →
  ∃ e net_i g' net_i',
    forward_all (set_training false net) (fst <$> take i dataset)
      = Some (take i (emb_gnn st), net_i) ∧
    GNN_forward net_i b.1 = Some (e, g', net_i') ∧
    emb_gnn st !! i = Some e ∧ length e = length p ∧
    orig_xyz st !! i = Some (take 3 <$> feat) ∧
    emb_metric st !! i = Some (drop 3 <$> feat) ∧
    pid st !! i = Some (TInt p) ∧
    weight_ st !! i = Some (TVec w).
Proof.
  intros Hemb Hb (Hfeat & Hnf & Hpid & Hnp & Hw & Hnw).
  destruct (embed_samples_spec _ _ _ _ Hemb)
    as (fs & ps & ws & Hfs & Hps & Hws & Hall & Hx & Hm & Hp & Hwt).
  destruct (mapM_lookup_Some _ _ _ _ _ Hfs Hb) as [Hfi _].
  destruct (mapM_lookup_Some _ _ _ _ _ Hps Hb) as [Hpi _].
  destruct (mapM_lookup_Some _ _ _ _ _ Hws Hb) as [Hwi _].
  cbn in Hfi, Hpi, Hwi. rewrite Hfeat in Hfi. rewrite Hpid in Hpi.
  rewrite Hw in Hwi. cbn in Hfi.
  rewrite Hx, Hm, Hp, Hwt, !list_lookup_fmap, Hfi, Hpi, Hwi. cbn.
  clear Hfs Hps Hws Hx Hm Hp Hwt Hfi Hpi Hwi Hemb.
  revert Hall Hb. generalize (set_training false net). generalize (emb_gnn st).
  clear st. revert i.
  induction dataset as [|b0 dataset IH]; intros i es n0 Hall Hb; [done|].
  cbn in Hall. inv_bind Hall.
  match goal with r : (list (list R) * DGLGraph * GNN)%type |- _ =>
    destruct r as [[e0 g0] n1] end.
  match goal with r : (list (list (list R)) * GNN)%type |- _ =>
    destruct r as [es1 n2] end.
  cbn in Hall. injection Hall as <- <-.
  destruct i as [|i]; cbn in Hb.
  - injection Hb as ->. exists e0, n0, g0, n1. cbn.
    split_and!; try done.
    match goal with Hf : GNN_forward _ _ = Some _ |- _ =>
      apply (GNN_forward_rows _ _ _ _ _ _ Hfeat Hnf) in Hf end.
    congruence.
  - match goal with Hr : forward_all _ _ = Some _ |- _ =>
      destruct (IH i es1 n1 Hr Hb)
        as (e & ni & g' & ni' & Hpre & Hfw & He & Hle & Hrest) end.
    exists e, ni, g', ni'. cbn.
    match goal with Hf : GNN_forward n0 _ = Some _ |- _ => rewrite Hf end.
    cbn. rewrite Hpre. cbn. by split_and!.
Qed.

End Scoring.

Section Evaluation.
Context `{Library}.

(** C4: clustering works on the GNN's final embedding: the cluster labels
    of every evaluated sample are DBSCAN with [eps = 0.24] and
    [min_samples = 3] applied to [emb_gnn[i]], the network's output on the
    sample's input graph, and they do not depend on the raw coordinates or
    on the metric-learning embedding kept beside it. *)
Theorem clustering_uses_gnn_embedding net dataset net' st i b feat p w :
  (∀ eps ms x, length (DBSCAN_fit_predict eps ms x) = length x) →
  embed_samples net dataset = Some (net', st) →
  dataset !! i = Some b →
  input_fields b.1 feat p w →
  ∃ e net_i g' net_i' truth submission,
    forward_all (set_training false net) (fst <$> take i dataset)
      = Some (take i (emb_gnn st), net_i) ∧
    GNN_forward net_i b.1 = Some (e, g', net_i') ∧
    emb_gnn st !! i = Some e ∧
    sample_tables st i = Some (truth, submission) ∧
    s_track_id submission = DBSCAN_fit_predict (24 / 100) 3 e ∧
    ∀ xyz' emb',
      sample_tables (with_inputs xyz' emb' st) i = Some (truth, submission).
Proof.
  intros Hdb Hemb Hb Hin.
  destruct (embedded_sample _ _ _ _ _ _ _ _ _ Hemb Hb Hin)
    as (e & net_i & g' & net_i' & Hpre & Hfw & He & Hle & _ & _ & Hp & Hw).
  destruct Hin as (_ & _ & _ & Hnp & _ & Hnw).
  assert (Hst : sample_tables st i
                = Some (truth_table e p w, submission_table e)).
  { eapply sample_tables_spec; try done; congruence. }
  exists e, net_i, g', net_i', (truth_table e p w), (submission_table e).
  split_and!; try done.
Qed.


End Evaluation.

(** ** The layout of the node features *)

Lemma take_drop_rows (a b : list (list R)) n :
  length a = length b →
  Forall (λ r, length r = n) a →
  (take n <$> zip_with app a b) = a ∧ (drop n <$> zip_with app a b) = b.
Proof.
  revert b. induction a as [|r a IH]; intros [|r' b] Hl Ha; try done.
  apply Forall_cons in Ha as [<- Ha].
  destruct (IH b) as [IH1 IH2]; [by injection Hl|done|].
  cbn. rewrite IH1, IH2, take_app_length, drop_app_length. done.
Qed.

Lemma getitem_fields s b :
  TrackML_Dataset_getitem s = Some b →
  length (xyz (hits s)) = length (emb (hits s)) ∧
  input_fields b.1 (zip_with app (xyz (hits s)) (emb (hits s)))
    (particle_id (hits s)) (hit_weight (hits s)).
Proof.
  unfold TrackML_Dataset_getitem. intros Hg. inv_bind Hg.
  injection Hg as <-.
  match goal with Hc : cat1 _ _ = Some _ |- _ =>
    unfold cat1 in Hc; inv_bind Hc; injection Hc as <- end.
  repeat match goal with Hs : set_ndata _ _ _ = Some _ |- _ =>
    apply set_ndata_Some in Hs as [? ->] end.
  cbn in *. split; [done|].
  unfold input_fields. cbn.
  rewrite length_zip_with.
  split_and!; try done; lia.
Qed.

Section Features.
Context `{Library}.

(** C7: every hit carries 3D coordinates, a particle id and a precomputed
    embedding: in the evaluation loop [feat[:, :3]] is the hits' xyz and
    [feat[:, 3:]] their metric-learning embedding, while the particle id
    is read from the node field ['pid'] and the hit weight from the node
    field ['weight']. *)
Theorem features_are_xyz_then_embedding samples dataset net net' st i s :
  TrackML_Dataset samples = Some dataset →
  embed_samples net dataset = Some (net', st) →
  samples !! i = Some s →
  Forall (λ r, length r = 3%nat) (xyz (hits s)) →
  ∃ b feat,
    dataset !! i = Some b ∧
    ndata b.1 !! "feat" = Some (TMat feat) ∧
    (take 3 <$> feat) = xyz (hits s) ∧
    (drop 3 <$> feat) = emb (hits s) ∧
    ndata b.1 !! "pid" = Some (TInt (particle_id (hits s))) ∧
    ndata b.1 !! "weight" = Some (TVec (hit_weight (hits s))) ∧
    orig_xyz st !! i = Some (xyz (hits s)) ∧
    emb_metric st !! i = Some (emb (hits s)) ∧
    pid st !! i = Some (TInt (particle_id (hits s))) ∧
    weight_ st !! i = Some (TVec (hit_weight (hits s))).
Proof.
  intros Hds Hemb Hs H3.
  destruct (mapM_lookup_Some _ _ _ _ _ Hds Hs) as [Hdi [b Hb]].
  rewrite Hb in Hdi.
  destruct (getitem_fields s b Hb) as [Hl Hin].
  destruct (take_drop_rows _ _ 3 Hl H3) as [Ht Hd].
  destruct (embedded_sample _ _ _ _ _ _ _ _ _ Hemb Hdi Hin)
    as (_ & _ & _ & _ & _ & _ & _ & _ & Hx & Hm & Hp & Hw).
  rewrite Ht in Hx. rewrite Hd in Hm.
  destruct Hin as (Hfeat & _ & Hpid & _ & Hwt & _).
  exists b, (zip_with app (xyz (hits s)) (emb (hits s))).
  by split_and!.
Qed.

End Features.

(** ** The score of an event *)

Lemma particles_disjoint p q (l : list ScoredHit) :
  p ≠ q →
  (length (of_particle p l) + length (of_particle q l) ≤ length l)%nat.
Proof.
  intros Hne. unfold of_particle.
  induction l as [|h l IH]; [done|].
  rewrite !filter_cons. repeat case_decide; cbn; first [lia | congruence].
Qed.

(** A cluster cannot have two majority particles. *)
Lemma double_majority_unique ev t p q :
  double_majority ev t p → double_majority ev t q → p = q.
Proof.
  intros [Hp _] [Hq _]. destruct (decide (p = q)) as [|Hne]; [done|].
  pose proof (particles_disjoint p q (in_track t ev) Hne). lia.
Qed.

(** C5: [score_event] adds up one credit per predicted cluster, and the
    credit of a cluster is nonzero only if a single true particle both
    holds more than half of the cluster's hits and has more than half of
    its own hits in the cluster. *)
Theorem credit_requires_double_majority truth submission t :
  track_credit (join_on_hit_id truth submission) t ≠ 0 →
  score_event truth submission
    = rsum (track_credit (join_on_hit_id truth submission)
              <$> remove_dups (h_track <$> join_on_hit_id truth submission)) ∧
  ∃ p,
    double_majority (join_on_hit_id truth submission) t p ∧
    (∀ q, double_majority (join_on_hit_id truth submission) t q → q = p) ∧
    track_credit (join_on_hit_id truth submission) t
    = rsum (h_weight <$> of_particle p
                           (in_track t (join_on_hit_id truth submission)))
      / rsum (h_weight <$> join_on_hit_id truth submission).
Proof.
  set (ev := join_on_hit_id truth submission).
  intros Hc. split; [done|].
  unfold track_credit in Hc |- *.
  destruct (list_find _ _) as [[k p]|] eqn:Hfind; [|done].
  apply list_find_Some in Hfind as (_ & Hp & _).
  exists p. split_and!; [done| |done].
  intros q Hq. by eapply double_majority_unique.
Qed.

(** ** File access of the notebook *)

Section Files.
Context `{Autograd}.

Lemma no_file_io_ret {A} (x : A) : no_file_io (mret x).
Proof. intros log. exists []. by rewrite app_nil_r. Qed.

Lemma no_file_io_lift {A} (o : option A) : no_file_io (lift o).
Proof. intros log. exists []. by rewrite app_nil_r. Qed.

Lemma no_file_io_emit e : ¬ file_event e → no_file_io (emit e).
Proof. intros He log. exists [e]. split; [done|]. by constructor. Qed.

Lemma no_file_io_bind {A B} (m : IO A) (f : A → IO B) :
  no_file_io m → (∀ x, no_file_io (f x)) → no_file_io (m ≫= f).
Proof.
  intros Hm Hf log. destruct (Hm log) as (r1 & Hr1 & H1).
  unfold mbind, IO_bind. destruct (m log) as [[x|] log1]; cbn in Hr1; subst log1.
  - destruct (Hf x (log ++ r1)) as (r2 & Hr2 & H2).
    exists (r1 ++ r2). rewrite Hr2, app_assoc. split; [done|].
    by apply Forall_app.
  - by exists r1.
Qed.

Lemma no_file_io_for {A} (f : A → IO ()) (l : list A) :
  (∀ x, no_file_io (f x)) → no_file_io (io_for f l).
Proof.
  intros Hf. induction l as [|x l IH]; cbn.
  - apply no_file_io_ret.
  - apply no_file_io_bind; [apply Hf|]. intros _. apply IH.
Qed.

Lemma no_file_io_foldl {A B} (f : A → B → IO A) (l : list B) :
  (∀ a x, no_file_io (f a x)) → ∀ a, no_file_io (io_foldl f a l).
Proof.
  intros Hf. induction l as [|x l IH]; intros a; cbn.
  - apply no_file_io_ret.
  - apply no_file_io_bind; [apply Hf|]. apply IH.
Qed.

(** One step of the composition rules. *)
Ltac quiet_step :=
  first
    [ apply no_file_io_ret
    | apply no_file_io_lift
    | apply no_file_io_emit; cbn; tauto
    | apply no_file_io_for; intros
    | apply no_file_io_foldl; intros
    | apply no_file_io_bind; [|intros]
    | match goal with
      | |- no_file_io (let '(_, _) := ?p in _) => destruct p
      | |- no_file_io (if ?b then _ else _) => destruct b
      end ].

Lemma plot_clusters_quiet x y p : no_file_io (plot_clusters x y p).
Proof. unfold plot_clusters. repeat quiet_step. Qed.

Lemma cell_keys_quiet samples : no_file_io (cell_keys samples).
Proof. unfold cell_keys. repeat quiet_step. Qed.

Lemma cell_visualize_quiet samples : no_file_io (cell_visualize samples).
Proof.
  unfold cell_visualize.
  repeat first [apply plot_clusters_quiet | quiet_step].
Qed.

Lemma cell_setup_quiet samples rng : no_file_io (cell_setup samples rng).
Proof. unfold cell_setup. repeat quiet_step. Qed.

Lemma train_step_quiet bs nb acc ib : no_file_io (train_step bs nb acc ib).
Proof. unfold train_step. repeat quiet_step. Qed.

Lemma train_one_epoch_quiet net bs opt dataset rng :
  no_file_io (train_one_epoch net bs opt dataset rng).
Proof.
  unfold train_one_epoch.
  repeat first [apply train_step_quiet | quiet_step].
Qed.

Lemma cell_train_quiet dataset net opt rng :
  no_file_io (cell_train dataset net opt rng).
Proof.
  unfold cell_train. apply no_file_io_foldl. intros [[n o] r] _.
  repeat first [apply train_one_epoch_quiet | quiet_step].
Qed.

Lemma cell_plot_embeddings_quiet st : no_file_io (cell_plot_embeddings st).
Proof.
  unfold cell_plot_embeddings.
  repeat first [apply plot_clusters_quiet | quiet_step].
Qed.

(** The cells after the first one touch no file. *)
Lemma after_load_quiet rng samples : no_file_io (after_load rng samples).
Proof.
  unfold after_load.
  repeat first
    [ apply cell_keys_quiet | apply cell_visualize_quiet
    | apply cell_setup_quiet | apply cell_train_quiet
    | apply cell_plot_embeddings_quiet | quiet_step ].
Qed.

(** C8: the samples are loaded once, by unpickling ['tracks.pickle'],
    before anything else happens; the rest of the notebook runs on the
    samples in memory and neither reads nor writes a file. *)
Theorem samples_are_loaded_once_at_the_start fs rng :
  match fs !! "tracks.pickle" with
  | Some samples =>
      notebook fs rng []
      = after_load rng samples
          [EvOpen "tracks.pickle" "rb"; EvPickleLoad "tracks.pickle";
           EvClose "tracks.pickle"; EvPrint (OutLoaded (length samples))] ∧
      no_file_io (after_load rng samples) ∧
      ∃ rest,
        (notebook fs rng []).2
        = [EvOpen "tracks.pickle" "rb"; EvPickleLoad "tracks.pickle";
           EvClose "tracks.pickle"] ++ rest ∧
        Forall (λ e, ¬ file_event e) rest
  | None => notebook fs rng [] = (None, [EvOpen "tracks.pickle" "rb"])
  end.
Proof.
  destruct (fs !! "tracks.pickle") as [samples|] eqn:Hfs.
  - assert (Hrun : notebook fs rng []
              = after_load rng samples
                  [EvOpen "tracks.pickle" "rb"; EvPickleLoad "tracks.pickle";
                   EvClose "tracks.pickle"; EvPrint (OutLoaded (length samples))]).
    { unfold notebook, cell_load, load_pickle, mbind, IO_bind, emit, lift,
        mret, IO_ret.
      cbn. by rewrite Hfs. }
    rewrite Hrun.
    split; [done|]. split; [apply after_load_quiet|].
    destruct (after_load_quiet rng samples
                [EvOpen "tracks.pickle" "rb"; EvPickleLoad "tracks.pickle";
                 EvClose "tracks.pickle"; EvPrint (OutLoaded (length samples))])
      as (rest & -> & Hrest).
    exists (EvPrint (OutLoaded (length samples)) :: rest).
    split; [done|]. constructor; [cbn; tauto|done].
  - unfold notebook, cell_load, load_pickle, mbind, IO_bind, emit, lift.
    cbn. by rewrite Hfs.
Qed.

End Files.

(** ** The network returns an embedding *)

Section Totality.
Context `{Library}.

Lemma maybe_norm_rowwise d l :
  layer_rowwise_norm d l → training l = false →
  ∃ f : list R → list R,
    (∀ r, length r = d → length (f r) = d) ∧
    ∀ x, x ≠ [] → Forall (λ r, length r = d) x →
      maybe_norm l x = Some (f <$> x, l).
Proof.
  unfold layer_rowwise_norm, maybe_norm.
  destruct l as [k [b|] fcl tr]; cbn; intros Hrow ->.
  - destruct Hrow as (f & Hw & Hf). exists f. split; [done|].
    intros x Hx Hd. by rewrite Hf.
  - exists (λ r, r). split; [done|]. intros x _ _. by rewrite list_fmap_id.
Qed.

(** The rows a layer returns have the width of its output. *)
Lemma layer_rows_width d h hk l (x emb : list (list R)) (ns : nat → list R) :
  GNN_Layer_init d h hk l →
  length emb = length x →
  (∀ i xi, x !! i = Some xi →
     ∃ y, linear_row (fc l) (xi ++ ns i) = Some y ∧
          emb !! i = Some (relu <$> y)) →
  Forall (λ r, length r = h) emb.
Proof.
  intros (_ & Hfc & _ & Hout) Hl Hrows.
  apply Forall_lookup_2. intros i r Hr.
  destruct (lookup_lt_is_Some_2 x i) as [xi Hxi].
  { apply lookup_lt_Some in Hr. lia. }
  destruct (Hrows i xi Hxi) as (y & Hy & Hei).
  rewrite Hr in Hei. injection Hei as ->.
  rewrite length_fmap, (linear_row_length _ _ _ Hfc Hy). done.
Qed.

Lemma layer_forward_total d h hk l g features :
  layer_rowwise_norm d l →
  GNN_Layer_init d h hk l →
  training l = false →
  graph_wf g →
  (0 < num_nodes g)%nat →
  length features = num_nodes g →
  Forall (λ r, length r = d) features →
  ∃ emb g',
    GNN_Layer_forward l g features = Some (emb, g', l) ∧
    length emb = num_nodes g ∧ Forall (λ r, length r = h) emb ∧
    graph_wf g' ∧ num_nodes g' = num_nodes g.
Proof.
  intros Hrow Hl Ht Hg Hp Hn Hf.
  destruct (maybe_norm_rowwise d l Hrow Ht) as (f & Hfw & Hnorm).
  assert (Hne : features ≠ []) by (intros ->; cbn in Hn; lia).
  destruct (layer_forward_spec d h hk l g features (f <$> features) l Hl Hg
              (Hnorm features Hne Hf))
    as (cs & emb & g' & _ & Hfwd & _ & _ & Hle & Hrows).
  { by rewrite length_fmap. }
  { apply Forall_fmap. eapply Forall_impl; [exact Hf|].
    intros r Hr. by apply Hfw. }
  exists emb, g'. split; [done|].
  destruct (layer_forward_rows _ _ _ _ _ _ Hfwd) as (_ & Hn' & He').
  split_and!; try done.
  - eapply (layer_rows_width d h hk l (f <$> features)); [done| |exact Hrows].
    rewrite length_fmap. lia.
  - unfold graph_wf. by rewrite He', Hn'.
Qed.

Lemma layers_forward_total h hk ls : ∀ d g emb,
  match ls with
  | [] => d = h
  | l :: ls' =>
      (GNN_Layer_init d h hk l ∧ layer_rowwise_norm d l) ∧
      Forall (λ l, GNN_Layer_init h h hk l ∧ layer_rowwise_norm h l) ls'
  end →
  Forall (λ l, training l = false) ls →
  graph_wf g →
  (0 < num_nodes g)%nat →
  length emb = num_nodes g →
  Forall (λ r, length r = d) emb →
  ∃ emb' g',
    GNN_layers_forward ls g emb = Some (emb', g', ls) ∧
    length emb' = num_nodes g ∧ Forall (λ r, length r = h) emb'.
Proof.
  induction ls as [|l ls IH]; intros d g emb Hsh Ht Hg Hp Hn Hf.
  - subst d. exists emb, g. by split_and!.
  - destruct Hsh as [[Hl Hrow] Hls].
    apply Forall_cons in Ht as [Htl Ht].
    destruct (layer_forward_total d h hk l g emb Hrow Hl Htl Hg Hp Hn Hf)
      as (e1 & g1 & Hfw & Hle & He & Hg1 & Hn1).
    destruct (IH h g1 e1) as (e2 & g2 & Hfs & Hle2 & He2);
      [by destruct ls as [|l' ls']; [|apply Forall_cons in Hls]
      |done|done|lia|congruence|done|].
    exists e2, g2. cbn. rewrite Hfw. cbn. rewrite Hfs. cbn.
    split_and!; [done|congruence|done].
Qed.

(** The layers of a network of the shapes of [__init__], each with its
    normalisation. *)
Lemma GNN_layers_shapes h hk d ed net :
  GNN_init h hk d ed net → GNN_rowwise_norm h d net →
  match gnn_layers net with
  | [] => d = h
  | l :: ls' =>
      (GNN_Layer_init d h hk l ∧ layer_rowwise_norm d l) ∧
      Forall (λ l, GNN_Layer_init h h hk l ∧ layer_rowwise_norm h l) ls'
  end.
Proof.
  intros (l & ls & Hls & Hl & Hrest & _). unfold GNN_rowwise_norm.
  rewrite Hls. intros [Hrow Hrows]. split; [done|].
  apply Forall_and. done.
Qed.

(** A network of the shapes [__init__] builds, in evaluation mode,
    returns an embedding for every well-formed input graph, and is left
    as it was. *)
Lemma GNN_forward_total h hk d ed net g feat :
  GNN_init h hk d ed net →
  GNN_rowwise_norm h d net →
  Forall (λ l, training l = false) (gnn_layers net) →
  graph_wf g →
  (0 < num_nodes g)%nat →
  ndata g !! "feat" = Some (TMat feat) →
  length feat = num_nodes g →
  Forall (λ r, length r = d) feat →
  ∃ emb g', GNN_forward net g = Some (emb, g', net).
Proof.
  intros Hnet Hrow Ht Hg Hp Hfeat Hn Hf.
  pose proof (GNN_layers_shapes _ _ _ _ _ Hnet Hrow) as Hsh.
  destruct Hnet as (l & ls & Hls & Hl & Hrest & Hwf & Hin & Hout).
  unfold GNN_forward, pop_ndata. rewrite Hfeat. cbn.
  set (g0 := with_ndata (delete "feat" (ndata g)) g).
  destruct (layers_forward_total h hk (gnn_layers net) d g0 feat)
    as (e1 & g1 & Hfw & Hle & He); [done..|].
  rewrite Hfw. cbn.
  destruct (mapM_is_Some_2 (linear_row (final_emb net)) e1) as [e2 He2].
  { eapply Forall_impl; [exact He|]. intros r Hr. cbn.
    rewrite linear_row_Some by congruence. eauto. }
  unfold linear. rewrite He2. cbn. exists e2, g1.
  by destruct net.
Qed.

Lemma set_training_eval h hk d ed net :
  GNN_init h hk d ed net →
  GNN_rowwise_norm h d net →
  GNN_init h hk d ed (set_training false net) ∧
  GNN_rowwise_norm h d (set_training false net) ∧
  Forall (λ l, training l = false) (gnn_layers (set_training false net)).
Proof.
  intros (l & ls & Hls & Hl & Hrest & Hwf & Hin & Hout) Hrow.
  unfold GNN_rowwise_norm in *. rewrite Hls in Hrow. destruct Hrow as [Hr Hrs].
  split_and!.
  - eexists _, _. cbn. rewrite Hls, fmap_cons.
    split_and!; try done. apply Forall_fmap. done.
  - cbn. rewrite Hls, fmap_cons. split; [done|]. apply Forall_fmap. done.
  - cbn. apply Forall_fmap, Forall_true. done.
Qed.

(** The embedding cell succeeds on well-formed input graphs. *)
Lemma embed_samples_total h hk d ed net dataset :
  GNN_init h hk d ed net →
  GNN_rowwise_norm h d net →
  Forall (λ b : DGLGraph * DGLGraph,
            graph_wf b.1 ∧ (0 < num_nodes b.1)%nat ∧
            ∃ feat p w, input_fields b.1 feat p w ∧
                        Forall (λ r, length r = d) feat) dataset →
  ∃ net' st, embed_samples net dataset = Some (net', st).
Proof.
  intros Hnet Hrow Hall.
  unfold embed_samples. rewrite load_batches_one. cbn.
  destruct (set_training_eval _ _ _ _ _ Hnet Hrow) as (Hn0 & Hr0 & Ht0).
  revert Hn0 Hr0 Ht0. generalize (set_training false net).
  generalize ({| orig_xyz := []; emb_metric := []; emb_gnn := []; pid := [];
                 weight_ := [] |}).
  induction Hall as [|b l (Hg & Hp & feat & p & w & Hin & Hd) _ IH];
    intros st n0 Hn0 Hr0 Ht0.
  - by eexists _, _.
  - destruct Hin as (Hfeat & Hnf & Hpid & _ & Hw & _).
    destruct (GNN_forward_total h hk d ed n0 b.1 feat Hn0 Hr0 Ht0 Hg Hp
                Hfeat Hnf Hd) as (e & g' & Hfw).
    cbn. rewrite Hfeat, Hpid, Hw. cbn. rewrite Hfw. cbn.
    apply IH; done.
Qed.

End Totality.

(** ** The properties on concrete inputs *)

Lemma two_hits_wf : graph_wf two_hits.
Proof. repeat constructor. Defined.

Lemma unit_layer_init : GNN_Layer_init (H := plain_library) 1 1 1 unit_layer.
Proof. repeat split; repeat constructor. Defined.

Lemma relu_nonneg x : 0 <= x → relu x = x.
Proof. intros Hx. unfold relu. by apply Rmax_right. Qed.

(** The layer traced on two linked hits with features 1 and 2: both edge
    weights are [sigmoid 3], hit 0 receives [2 * sigmoid 3] and becomes
    [1 + 2 * sigmoid 3], hit 1 receives [1 * sigmoid 3]. *)
Example unit_layer_on_two_hits :
  ∃ g' l',
    GNN_Layer_forward (H := plain_library) unit_layer two_hits [[1]; [2]]
    = Some ([[1 + 2 * sigmoid 3]; [2 + sigmoid 3]], g', l').
Proof.
  destruct (layer_forward_spec (H := plain_library) 1 1 1 unit_layer two_hits
              [[1]; [2]] [[1]; [2]] unit_layer)
    as (cs & emb & g' & Hw & Hfw & _ & _ & Hlen & Hrows).
  - apply unit_layer_init.
  - apply two_hits_wf.
  - reflexivity.
  - reflexivity.
  - repeat constructor.
  - exists g', unit_layer. rewrite Hfw. do 3 f_equal.
    cbn -[relu sigmoid linear_row] in Hw.
    rewrite !linear_row_Some in Hw by done.
    cbn -[relu sigmoid] in Hw.
    destruct cs as [|c0 [|c1 [|??]]]; try discriminate Hw.
    injection Hw as Hc0 Hc1.
    destruct (Hrows 0%nat [1] eq_refl) as (y0 & Hy0 & He0).
    destruct (Hrows 1%nat [2] eq_refl) as (y1 & Hy1 & He1).
    destruct emb as [|r0 [|r1 [|??]]]; try discriminate Hlen.
    cbn in He0, He1. injection He0 as ->. injection He1 as ->.
    rewrite linear_row_Some in Hy0, Hy1 by done.
    injection Hy0 as <-. injection Hy1 as <-.
    clear Hfw Hlen Hrows. vm_compute neighbor_sum.
    unfold dot, rsum in *. cbn -[relu sigmoid] in *.
    replace (1 * 1 + (2 * 1 + 0) + 0) with 3 in Hc0 by lra.
    replace (2 * 1 + (1 * 1 + 0) + 0) with 3 in Hc1 by lra.
    rewrite (relu_nonneg 3) in Hc0, Hc1 by lra.
    replace (3 * 1 + 0 + 0) with 3 in Hc0, Hc1 by lra.
    subst c0 c1. pose proof (sigmoid_range 3) as Hs.
    rewrite !relu_nonneg by lra.
    f_equal; [|f_equal]; f_equal; lra.
Qed.

Lemma sigmoid_injective x y : sigmoid x = sigmoid y → x = y.
Proof.
  unfold sigmoid. intros Hxy.
  pose proof (exp_pos (- x)) as Hx. pose proof (exp_pos (- y)) as Hy.
  assert (He : exp (- x) = exp (- y)).
  { apply (f_equal Rinv) in Hxy. unfold Rdiv in Hxy.
    rewrite !Rmult_1_l, !Rinv_inv in Hxy. lra. }
  apply exp_inv in He. lra.
Qed.

(** The weight of an edge depends on its direction: the weight on the
    edge from hit 0 to hit 1 is computed from [[x_0, x_1]], the weight on
    the reverse edge from [[x_1, x_0]]. *)
Example edge_weight_depends_on_direction :
  edge_weight source_kernel [1] [2] = Some [sigmoid 1] ∧
  edge_weight source_kernel [2] [1] = Some [sigmoid 2] ∧
  sigmoid 1 ≠ sigmoid 2.
Proof.
  split_and!.
  - unfold edge_weight, kernel_f. cbn -[relu sigmoid linear_row].
    rewrite !linear_row_Some by done. cbn -[relu sigmoid linear_row].
    rewrite !linear_row_Some by done. cbn -[relu sigmoid].
    unfold dot, rsum. cbn -[relu sigmoid].
    replace (1 * 1 + (2 * 0 + 0) + 0) with 1 by lra.
    rewrite relu_nonneg by lra. do 3 f_equal. lra.
  - unfold edge_weight, kernel_f. cbn -[relu sigmoid linear_row].
    rewrite !linear_row_Some by done. cbn -[relu sigmoid linear_row].
    rewrite !linear_row_Some by done. cbn -[relu sigmoid].
    unfold dot, rsum. cbn -[relu sigmoid].
    replace (2 * 1 + (1 * 0 + 0) + 0) with 2 by lra.
    rewrite relu_nonneg by lra. do 3 f_equal. lra.
  - intros Heq. apply sigmoid_injective in Heq. lra.
Qed.

Lemma kernel_stores_edge_weight_witness :
  ∃ g' w,
    MLP_Kernel_DGL_forward (edge_weighting unit_layer) two_hits = Some g' ∧
    edata g' !! "e" = Some (TMat w) ∧
    length w = 2%nat.
Proof.
  destruct (kernel_stores_edge_weight 1 1 1 1 (edge_weighting unit_layer)
              two_hits [[1]; [2]])
    as (g' & w & Hf & _ & He & Hl & _).
  - apply unit_layer_init.
  - apply two_hits_wf.
  - reflexivity.
  - reflexivity.
  - repeat constructor.
  - by exists g', w.
Defined.



Lemma score_dist_accuracy_is_agreement_rate_witness :
  ∃ score, score_dist_accuracy [0] [1] = Some score ∧ 0 <= score <= 1.
Proof.
  destruct (score_dist_accuracy_is_agreement_rate [0] [1])
    as (score & Hs & Hr & _).
  - discriminate.
  - reflexivity.
  - apply Forall_cons. split; [by right|constructor].
  - by exists score.
Defined.

Lemma mapM_replicate {A B} (f : A → option B) x y n :
  f x = Some y → mapM f (replicate n x) = Some (replicate n y).
Proof.
  intros Hf. induction n as [|n IH]; [done|]. cbn. by rewrite Hf, IH.
Qed.

Lemma linked_pair_getitem :
  TrackML_Dataset_getitem linked_pair = Some linked_pair_graphs.
Proof. reflexivity. Qed.

Lemma twenty_pairs_dataset :
  TrackML_Dataset (replicate 20 linked_pair)
  = Some (replicate 20 linked_pair_graphs).
Proof. apply mapM_replicate, linked_pair_getitem. Qed.

Lemma linked_pair_fields :
  input_fields linked_pair_graphs.1
    [[0; 0; 0; 0; 0; 0]; [1; 0; 0; 0; 0; 1]] [7%Z; 7%Z] [1; 1].
Proof. by repeat split. Qed.

Lemma small_net_init : GNN_init (H := plain_library) 1 1 6 2 small_net.
Proof.
  eexists _, _. split; [reflexivity|].
  split; [repeat split; repeat constructor|].
  split; [constructor|]. repeat split; repeat constructor.
Qed.

Lemma small_net_rowwise : GNN_rowwise_norm (H := plain_library) 1 6 small_net.
Proof.
  split; [|constructor]. exists (λ r, r). split; [done|].
  intros x _ _. cbn. by rewrite list_fmap_id.
Qed.

Lemma plain_dbscan_length (eps : R) (ms : nat) (x : list (list R)) :
  length (DBSCAN_fit_predict (Library := plain_library) eps ms x) = length x.
Proof. apply length_fmap. Qed.

Lemma twenty_pairs_embedded :
  ∃ net' st,
    embed_samples (H := plain_library) small_net
      (replicate 20 linked_pair_graphs)
    = Some (net', st).
Proof. eexists _, _. vm_compute. reflexivity. Qed.

(** The same through the general lemma. *)
Lemma twenty_pairs_embedded_by_shape :
  ∃ net' st,
    embed_samples (H := plain_library) small_net
      (replicate 20 linked_pair_graphs)
    = Some (net', st).
Proof.
  apply (embed_samples_total (H := plain_library) 1 1 6 2).
  - apply small_net_init.
  - apply small_net_rowwise.
  - apply Forall_replicate. split; [repeat constructor|].
    split; [cbn; lia|].
    exists [[0; 0; 0; 0; 0; 0]; [1; 0; 0; 0; 0; 1]], [7%Z; 7%Z], [1; 1].
    split; [apply linked_pair_fields|repeat constructor].
Qed.

(** Twenty linked pairs, each pair in one cluster: the reported score
    is 1. *)
Example twenty_pairs_final_score :
  ∃ net' st,
    embed_samples (H := plain_library) small_net
      (replicate 20 linked_pair_graphs)
      = Some (net', st) ∧
    final_score (H := plain_library) st = Some 1.
Proof.
  eexists _, _. split; [vm_compute; reflexivity|].
  vm_compute. f_equal. field.
Qed.

Lemma features_are_xyz_then_embedding_witness :
  ∃ net' st,
    embed_samples (H := plain_library) small_net
      (replicate 20 linked_pair_graphs)
      = Some (net', st) ∧
    orig_xyz st !! 0%nat = Some [[0; 0; 0]; [1; 0; 0]] ∧
    emb_metric st !! 0%nat = Some [[0; 0; 0]; [0; 0; 1]] ∧
    pid st !! 0%nat = Some (TInt [7%Z; 7%Z]) ∧
    weight_ st !! 0%nat = Some (TVec [1; 1]).
Proof.
  destruct twenty_pairs_embedded as (net' & st & Hemb).
  destruct (features_are_xyz_then_embedding (H := plain_library)
              (replicate 20 linked_pair) (replicate 20 linked_pair_graphs)
              small_net net' st 0 linked_pair)
    as (b & feat & _ & _ & _ & _ & _ & _ & Hx & Hm & Hp & Hw).
  - apply twenty_pairs_dataset.
  - exact Hemb.
  - reflexivity.
  - repeat constructor.
  - exists net', st. by split_and!.
Defined.

Lemma clustering_uses_gnn_embedding_witness :
  ∃ net' st e submission,
    embed_samples (H := plain_library) small_net
      (replicate 20 linked_pair_graphs)
      = Some (net', st) ∧
    emb_gnn st !! 0%nat = Some e ∧
    s_track_id submission
      = DBSCAN_fit_predict (Library := plain_library) (24 / 100) 3 e.
Proof.
  destruct twenty_pairs_embedded as (net' & st & Hemb).
  destruct (clustering_uses_gnn_embedding (H := plain_library)
              small_net (replicate 20 linked_pair_graphs) net' st 0
              linked_pair_graphs
              [[0; 0; 0; 0; 0; 0]; [1; 0; 0; 0; 0; 1]] [7%Z; 7%Z] [1; 1])
    as (e & _ & _ & _ & truth & submission & _ & _ & He & _ & Hs & _).
  - apply plain_dbscan_length.
  - exact Hemb.
  - reflexivity.
  - apply linked_pair_fields.
  - exists net', st, e, submission. by split_and!.
Defined.


Lemma one_hit_event :
  join_on_hit_id one_hit_truth one_hit_submission
  = [{| h_particle := 7; h_track := 0; h_weight := 1 |}].
Proof. reflexivity. Qed.

Lemma one_hit_credit :
  track_credit (join_on_hit_id one_hit_truth one_hit_submission) 0 = 1.
Proof.
  rewrite one_hit_event. unfold track_credit.
  assert (Hfind : list_find
            (double_majority [{| h_particle := 7; h_track := 0; h_weight := 1 |}] 0)
            (remove_dups (h_particle <$> in_track 0
               [{| h_particle := 7; h_track := 0; h_weight := 1 |}]))
          = Some (0%nat, 7%Z)).
  { apply list_find_Some. split; [reflexivity|]. split.
    - split; vm_compute; constructor.
    - intros j y _ Hj. by apply Nat.nlt_0_r in Hj. }
  rewrite Hfind.
  assert (Hshared : of_particle 7
            (in_track 0 [{| h_particle := 7; h_track := 0; h_weight := 1 |}])
          = [{| h_particle := 7; h_track := 0; h_weight := 1 |}])
    by reflexivity.
  rewrite Hshared. cbn. unfold Rdiv. rewrite Rplus_0_r, Rinv_1. lra.
Qed.

Lemma credit_requires_double_majority_witness :
  ∃ p, double_majority (join_on_hit_id one_hit_truth one_hit_submission) 0 p.
Proof.
  destruct (credit_requires_double_majority one_hit_truth one_hit_submission 0)
    as (_ & p & Hp & _).
  - rewrite one_hit_credit. lra.
  - by exists p.
Defined.

(** A perfect clustering of a one-hit event scores 1. *)
Example one_hit_score : score_event one_hit_truth one_hit_submission = 1.
Proof.
  unfold score_event.
  assert (Htracks : remove_dups
            (h_track <$> join_on_hit_id one_hit_truth one_hit_submission)
          = [0%Z]) by reflexivity.
  rewrite Htracks. cbn [fmap list_fmap rsum foldr]. rewrite one_hit_credit. lra.
Qed.

(** A cluster that merges two particles half and half earns nothing. *)
Example merged_score : score_event merged_truth merged_submission = 0.
Proof.
  unfold score_event.
  assert (Hev : join_on_hit_id merged_truth merged_submission
          = [{| h_particle := 7; h_track := 0; h_weight := 1 |};
             {| h_particle := 8; h_track := 0; h_weight := 1 |}])
    by reflexivity.
  rewrite Hev.
  assert (Htracks : remove_dups
            (h_track <$> [{| h_particle := 7; h_track := 0; h_weight := 1 |};
                          {| h_particle := 8; h_track := 0; h_weight := 1 |}])
          = [0%Z]) by reflexivity.
  rewrite Htracks. cbn [fmap list_fmap rsum foldr]. unfold track_credit.
  assert (Hfind : list_find
            (double_majority
               [{| h_particle := 7; h_track := 0; h_weight := 1 |};
                {| h_particle := 8; h_track := 0; h_weight := 1 |}] 0)
            (remove_dups (h_particle <$> in_track 0
               [{| h_particle := 7; h_track := 0; h_weight := 1 |};
                {| h_particle := 8; h_track := 0; h_weight := 1 |}]))
          = None).
  { apply list_find_None.
    assert (Hps : remove_dups (h_particle <$> in_track 0
               [{| h_particle := 7; h_track := 0; h_weight := 1 |};
                {| h_particle := 8; h_track := 0; h_weight := 1 |}])
            = [7%Z; 8%Z]) by reflexivity.
    rewrite Hps.
    repeat constructor; intros [Hmaj _]; vm_compute in Hmaj; lia. }
  rewrite Hfind. lra.
Qed.

(** The whole notebook run on a file of twenty linked pairs: it reports
    the score 1 after 78 events, of which the first three are the only
    ones that touch a file. *)
Example notebook_on_twenty_pairs :
  (notebook (H0 := plain_autograd) tracks_pickle () []).1 = Some 1 ∧
  length (notebook (H0 := plain_autograd) tracks_pickle () []).2 = 78%nat ∧
  take 3 (notebook (H0 := plain_autograd) tracks_pickle () []).2
  = [EvOpen "tracks.pickle" "rb"; EvPickleLoad "tracks.pickle";
     EvClose "tracks.pickle"] ∧
  filter file_event (notebook (H0 := plain_autograd) tracks_pickle () []).2
  = [EvOpen "tracks.pickle" "rb"; EvPickleLoad "tracks.pickle";
     EvClose "tracks.pickle"].
Proof.
  split; [vm_compute; f_equal; field|].
  split; [vm_compute; reflexivity|].
  split; vm_compute; reflexivity.
Qed.

(** * Further properties of the code *)

(** ** What the constructors build *)

Section Built.
Context `{Library}.

Lemma Linear_new_dims rng i o :
  in_features (Linear_new rng i o).1 = i ∧ out_features (Linear_new rng i o).1 = o.
Proof.
  unfold Linear_new. by destruct (Linear_reset_parameters rng i o) as [[w b] r].
Qed.

Lemma new_linears_spec dims : ∀ rng,
  reset_well_shaped →
  Forall linear_wf (new_linears rng dims).1 ∧
  (λ l, (in_features l, out_features l)) <$> (new_linears rng dims).1 = dims.
Proof.
  induction dims as [|[i o] dims IH]; intros rng Hr; [by split|].
  cbn. pose proof (Hr rng i o) as Hwf.
  destruct (Linear_new_dims rng i o) as [Hi Ho].
  destruct (Linear_new rng i o) as [l rng1]. cbn in *.
  destruct (IH rng1 Hr) as [IH1 IH2].
  destruct (new_linears rng1 dims) as [ls rng2]. cbn in *.
  split; [by constructor|]. by rewrite Hi, Ho, IH2.
Qed.

Lemma kernel_new_init rng nb_input nb_hidden_gnn nb_output nb_layer :
  reset_well_shaped →
  kernel_init nb_input nb_hidden_gnn nb_output nb_layer
    (MLP_Kernel_DGL_new rng nb_input nb_hidden_gnn nb_output nb_layer).1.
Proof.
  intros Hr. unfold MLP_Kernel_DGL_new, kernel_init.
  destruct (new_linears_spec
              (kernel_dims nb_input nb_hidden_gnn nb_output nb_layer) rng Hr)
    as [Hwf Hd].
  by destruct (new_linears rng _) as [ls rng1].
Qed.

(** X1: [MLP_Kernel_DGL.__init__] builds [max(nb_layer, 1) + 1] linear
    layers, so [nb_layer = 0] gives the same kernel as [nb_layer = 1];
    the layers compose, sending every concatenated pair of feature
    vectors, of width [2 * nb_input], to [nb_output] values. *)
Theorem kernel_new_layers_compose rng nb_input nb_hidden_gnn nb_output nb_layer :
  reset_well_shaped →
  length (layers (MLP_Kernel_DGL_new rng nb_input nb_hidden_gnn nb_output
                    nb_layer).1)
  = (nb_layer `max` 1 + 1)%nat ∧
  MLP_Kernel_DGL_new rng nb_input nb_hidden_gnn nb_output 0
  = MLP_Kernel_DGL_new rng nb_input nb_hidden_gnn nb_output 1 ∧
  ∀ v, length v = (nb_input * 2)%nat →
    ∃ y, kernel_f (MLP_Kernel_DGL_new rng nb_input nb_hidden_gnn nb_output
                     nb_layer).1 v = Some y ∧
         length y = nb_output.
Proof.
  intros Hr.
  pose proof (kernel_new_init rng nb_input nb_hidden_gnn nb_output nb_layer Hr)
    as Hk.
  split_and!.
  - destruct Hk as [_ Hd]. apply (f_equal length) in Hd.
    rewrite length_fmap in Hd. rewrite Hd. unfold kernel_dims. cbn.
    rewrite length_app, repeat_length. cbn. lia.
  - reflexivity.
  - intros v Hv. by eapply kernel_f_total.
Qed.

Lemma layer_new_init rng d h hk apply_norm :
  reset_well_shaped →
  GNN_Layer_init d h hk (GNN_Layer_new rng d h hk apply_norm).1 ∧
  bn (GNN_Layer_new rng d h hk apply_norm).1
  = (if apply_norm then Some (BatchNorm1d_init d (10 / 100)) else None) ∧
  training (GNN_Layer_new rng d h hk apply_norm).1 = true.
Proof.
  intros Hr. unfold GNN_Layer_new.
  pose proof (kernel_new_init rng d hk 1 1 Hr) as Hk.
  destruct (MLP_Kernel_DGL_new rng d hk 1 1) as [k rng1]. cbn in Hk.
  pose proof (Hr rng1 (2 * d)%nat h) as Hwf.
  destruct (Linear_new_dims rng1 (2 * d) h) as [Hi Ho].
  destruct (Linear_new rng1 (2 * d) h) as [l rng2]. cbn in *.
  by split_and!.
Qed.

Lemma layers_new_init n h hk : ∀ rng,
  reset_well_shaped →
  length (GNN_Layers_new rng n h hk).1 = n ∧
  Forall (λ l, GNN_Layer_init h h hk l ∧ is_Some (bn l) ∧ training l = true)
    (GNN_Layers_new rng n h hk).1.
Proof.
  induction n as [|n IH]; intros rng Hr; [by split|].
  cbn. destruct (layer_new_init rng h h hk true Hr) as (Hl & Hb & Ht).
  destruct (GNN_Layer_new rng h h hk true) as [l rng1]. cbn in *.
  destruct (IH rng1 Hr) as [IH1 IH2].
  destruct (GNN_Layers_new rng1 n h hk) as [ls rng2]. cbn in *.
  split; [by rewrite IH1|]. constructor; [|done].
  split_and!; [done| |done]. by rewrite Hb.
Qed.

(** X7: [GNN.__init__] builds [max(nb_layer, 1)] layers, every one with
    batch normalisation and in training mode, the first on [input_dim]
    features and the others on [nb_hidden_gnn], followed by a final linear
    layer to [emb_dim]. *)
Theorem GNN_new_layers rng nb_hidden_gnn nb_layer nb_hidden_kernel input_dim emb_dim :
  reset_well_shaped →
  GNN_init nb_hidden_gnn nb_hidden_kernel input_dim emb_dim
    (GNN_new rng nb_hidden_gnn nb_layer nb_hidden_kernel input_dim emb_dim).1 ∧
  length (gnn_layers (GNN_new rng nb_hidden_gnn nb_layer nb_hidden_kernel
                        input_dim emb_dim).1)
  = (nb_layer `max` 1)%nat ∧
  Forall (λ l, is_Some (bn l) ∧ training l = true)
    (gnn_layers (GNN_new rng nb_hidden_gnn nb_layer nb_hidden_kernel
                   input_dim emb_dim).1).
Proof.
  intros Hr. unfold GNN_new.
  destruct (layer_new_init rng input_dim nb_hidden_gnn nb_hidden_kernel true Hr)
    as (Hl & Hb & Ht).
  destruct (GNN_Layer_new rng input_dim nb_hidden_gnn nb_hidden_kernel true)
    as [l rng1]. cbn in *.
  destruct (layers_new_init (nb_layer - 1) nb_hidden_gnn nb_hidden_kernel rng1 Hr)
    as [Hn Hls].
  destruct (GNN_Layers_new rng1 (nb_layer - 1) nb_hidden_gnn nb_hidden_kernel)
    as [ls rng2]. cbn in *.
  pose proof (Hr rng2 nb_hidden_gnn emb_dim) as Hwf.
  destruct (Linear_new_dims rng2 nb_hidden_gnn emb_dim) as [Hi Ho].
  destruct (Linear_new rng2 nb_hidden_gnn emb_dim) as [fe rng3]. cbn in *.
  split_and!.
  - exists l, ls. split_and!; try done.
    eapply Forall_impl; [exact Hls|]. by intros ? (? & _).
  - rewrite Hn. lia.
  - constructor; [by rewrite Hb|].
    eapply Forall_impl; [exact Hls|]. by intros ? (_ & ? & ?).
Qed.

End Built.

(** ** The kernel on features of another width *)

Lemma linear_row_width l x y :
  linear_row l x = Some y → length x = in_features l.
Proof. unfold linear_row. intros Hy. by case_guard. Qed.

(** X2: node features whose width is not the kernel's [nb_input] make
    [MLP_Kernel_DGL.forward] raise on every graph that has an edge: the
    first linear layer rejects the concatenated pair. *)
Theorem kernel_rejects_other_widths nb_input nb_hidden_gnn nb_output nb_layer
    k g x w :
  kernel_init nb_input nb_hidden_gnn nb_output nb_layer k →
  graph_wf g →
  ndata g !! "feat" = Some (TMat x) →
  length x = num_nodes g →
  Forall (λ r, length r = w) x →
  w ≠ nb_input →
  edges g ≠ [] →
  MLP_Kernel_DGL_forward k g = None.
Proof.
  intros [_ Hd] Hg Hf Hn Hx Hw He.
  destruct (gather_total x _ (graph_wf_src g x Hg Hn)) as [src Hsrc].
  destruct (gather_total x _ (graph_wf_dst g x Hg Hn)) as [dst Hdst].
  pose proof (gather_length _ _ _ Hsrc) as Hls.
  pose proof (gather_length _ _ _ Hdst) as Hld.
  rewrite length_fmap in Hls, Hld.
  unfold MLP_Kernel_DGL_forward, apply_edges, MLP_Kernel_DGL_mlp,
    edges_src, edges_dst.
  rewrite Hf. cbn. rewrite Hsrc, Hdst. cbn.
  unfold cat1. rewrite option_guard_True by congruence. cbn.
  unfold kernel_dims in Hd.
  destruct (layers k) as [|l1 [|l2 rest]] eqn:Hk; try discriminate Hd.
  { destruct (nb_layer - 1)%nat; discriminate Hd. }
  injection Hd as Hin _ _.
  destruct (edges g) as [|[i j] E] eqn:HE; [done|].
  rewrite fmap_cons in Hsrc, Hdst. unfold gather in Hsrc, Hdst.
  apply mapM_cons_Some in Hsrc as (xi & src' & Hi & _ & ->).
  apply mapM_cons_Some in Hdst as (xj & dst' & Hj & _ & ->).
  cbn in Hi, Hj.
  pose proof (Forall_lookup_1 _ _ _ _ Hx Hi) as Hwi.
  pose proof (Forall_lookup_1 _ _ _ _ Hx Hj) as Hwj.
  assert (Hnone : linear l1 ((xi ++ xj) :: zip_with app src' dst') = None).
  { destruct (linear l1 _) as [y|] eqn:Hy; [exfalso|done].
    apply mapM_cons_Some in Hy as (y1 & _ & Hy1 & _).
    apply linear_row_width in Hy1. rewrite length_app in Hy1.
    cbn in Hwi, Hwj. lia. }
  change (removelast (l1 :: l2 :: rest)) with (l1 :: removelast (l2 :: rest)).
  cbn [zip_with hidden_pass]. by rewrite Hnone.
Qed.

(** ** What a forward pass leaves behind *)

Lemma kernel_forward_inv k g g' :
  MLP_Kernel_DGL_forward k g = Some g' →
  ∃ w, g' = with_edata (<["e" := TMat w]> (edata g)) g ∧
       length w = length (edges g).
Proof.
  unfold MLP_Kernel_DGL_forward, apply_edges. intros Hf.
  destruct (MLP_Kernel_DGL_mlp k g) as [out|] eqn:Hout; [|done].
  cbn in Hf. case_guard as Hsz; [|done]. cbn in Hf. injection Hf as <-.
  unfold MLP_Kernel_DGL_mlp in Hout. inv_bind Hout. injection Hout as <-.
  eexists. split.
  - by rewrite insert_union_singleton_l.
  - by apply map_Forall_singleton in Hsz.
Qed.

Lemma update_all_inv u e out g g' :
  update_all u e out g = Some g' →
  ∃ agg, g' = with_ndata (<[out := TMat agg]> (ndata g)) g ∧
         length agg = num_nodes g.
Proof.
  unfold update_all. intros Hu. inv_bind Hu.
  apply set_ndata_Some in Hu as [Hn ->]. eauto.
Qed.

Section Effects.
Context `{Library}.

Lemma layer_forward_inv l g features emb g' l' :
  GNN_Layer_forward l g features = Some (emb, g', l') →
  ∃ x w agg y,
    maybe_norm l features = Some (x, l') ∧
    length x = num_nodes g ∧
    g' = {| num_nodes := num_nodes g; edges := edges g;
            ndata := <["agg_msg" := TMat agg]> (<["feat" := TMat x]> (ndata g));
            edata := <["e" := TMat w]> (edata g) |} ∧
    length w = length (edges g) ∧
    length agg = num_nodes g ∧
    linear (fc l) (zip_with app x agg) = Some y ∧
    emb = map2d relu y.
Proof.
  unfold GNN_Layer_forward. intros Hf. inv_bind Hf.
  injection Hf as <- <- <-.
  match goal with r : (list (list R) * GNN_Layer)%type |- _ =>
    destruct r as [x l1] end.
  cbn in *.
  match goal with Hs : set_ndata "feat" _ g = Some _ |- _ =>
    apply set_ndata_Some in Hs as [Hn ->] end.
  match goal with Hk : MLP_Kernel_DGL_forward _ _ = Some _ |- _ =>
    apply kernel_forward_inv in Hk as (w & -> & Hw) end.
  match goal with Hu : update_all _ _ _ _ = Some _ |- _ =>
    apply update_all_inv in Hu as (agg & -> & Hagg) end.
  cbn in *.
  match goal with Ha : _ ≫= as_mat = Some _ |- _ =>
    rewrite lookup_insert_eq in Ha; injection Ha as <- end.
  match goal with Hc : cat1 _ _ = Some _ |- _ =>
    unfold cat1 in Hc; inv_bind Hc; injection Hc as <- end.
  eexists x, w, agg, _. by split_and!.
Qed.

Lemma relu_ge_0 x : 0 <= relu x.
Proof. unfold relu. apply Rmax_l. Qed.

Lemma linear_width l x y :
  linear_wf l → linear l x = Some y →
  Forall (λ r, length r = out_features l) y.
Proof.
  intros Hwf Hy. apply Forall_lookup_2. intros i r Hr.
  apply mapM_Some_1 in Hy.
  destruct (Forall2_lookup_r _ _ _ _ _ Hy Hr) as (v & _ & Hv).
  by eapply linear_row_length.
Qed.

(** X4: whatever the parameters, the output of [GNN_Layer.forward] has
    one row per node, [nb_hidden_gnn] columns, and no negative entry. *)
Theorem layer_output_is_nonnegative d h hk l g features emb g' l' :
  GNN_Layer_init d h hk l →
  GNN_Layer_forward l g features = Some (emb, g', l') →
  length emb = num_nodes g ∧
  Forall (λ r, length r = h ∧ Forall (λ c, 0 <= c) r) emb.
Proof.
  intros (_ & Hfc & _ & Hout) Hf.
  destruct (layer_forward_rows _ _ _ _ _ _ Hf) as (Hlen & _).
  split; [done|].
  apply layer_forward_inv in Hf as (x & w & agg & y & _ & _ & _ & _ & _ & Hy & ->).
  pose proof (linear_width _ _ _ Hfc Hy) as Hw.
  unfold map2d. apply Forall_fmap. eapply Forall_impl; [exact Hw|].
  intros r Hr. cbn. rewrite length_fmap. split; [congruence|].
  apply Forall_fmap, Forall_true. intros c. apply relu_ge_0.
Qed.

(** X6: [GNN_Layer.forward] changes the graph it is given in three
    places only: the node field ['feat'] becomes the (normalised) input,
    the node field ['agg_msg'] the aggregated messages and the edge field
    ['e'] the edge weights; the nodes, the edges and every other field
    stay as they were. *)
Theorem layer_forward_writes_three_fields l g features emb g' l' :
  GNN_Layer_forward l g features = Some (emb, g', l') →
  num_nodes g' = num_nodes g ∧ edges g' = edges g ∧
  ∃ x w agg,
    normalized l features x ∧
    ndata g' = <["agg_msg" := TMat agg]> (<["feat" := TMat x]> (ndata g)) ∧
    edata g' = <["e" := TMat w]> (edata g) ∧
    length x = num_nodes g ∧ length agg = num_nodes g ∧
    length w = length (edges g).
Proof.
  intros Hf.
  apply layer_forward_inv in Hf
    as (x & w & agg & y & Hnorm & Hx & -> & Hw & Hagg & _ & _).
  cbn. split_and!; [done..|].
  exists x, w, agg. split_and!; try done.
  by eapply maybe_norm_normalized.
Qed.

(** X3: a layer built with [apply_norm=False] has no batch
    normalisation: its forward pass leaves the layer as it was and writes
    the features it was given, unchanged, to the node field ['feat']. *)
Theorem layer_without_norm rng d h hk g features emb g' l' :
  GNN_Layer_forward (GNN_Layer_new rng d h hk false).1 g features
    = Some (emb, g', l') →
  l' = (GNN_Layer_new rng d h hk false).1 ∧
  ndata g' !! "feat" = Some (TMat features) ∧
  length features = num_nodes g.
Proof.
  intros Hf.
  apply layer_forward_inv in Hf
    as (x & w & agg & y & Hnorm & Hx & -> & _).
  assert (Hbn : bn (GNN_Layer_new rng d h hk false).1 = None).
  { unfold GNN_Layer_new.
    destruct (MLP_Kernel_DGL_new rng d hk 1 1) as [k rng1].
    by destruct (Linear_new rng1 (2 * d) h) as [fcl rng2]. }
  unfold maybe_norm in Hnorm. rewrite Hbn in Hnorm.
  injection Hnorm as <- <-. cbn.
  split_and!; [done| |done].
  rewrite lookup_insert_ne by done. apply lookup_insert_eq.
Qed.

Lemma neighbor_sum_isolated d (E : list (nat * nat)) (cs : list R) x i :
  Forall (λ e : nat * nat, e.2 ≠ i) E →
  neighbor_sum d E cs x i = zeros d.
Proof.
  intros HE. unfold neighbor_sum.
  replace (filter (λ p : nat * nat * R, p.1.2 = i) (zip E cs)) with
    (@nil (nat * nat * R)); [done|].
  symmetry. revert cs. induction HE as [|e E He _ IH]; intros [|c cs]; try done.
  cbn [zip zip_with]. rewrite filter_cons. cbn [fst snd].
  rewrite decide_False by done. apply IH.
Qed.

(** X5: in a graph that has edges, a node without incoming edge
    receives the zero vector: its new features are
    [ReLU(fc([x_i, 0, ..., 0]))], whatever the other nodes hold. *)
Theorem isolated_node_sees_only_itself d h hk l g features x i xi :
  GNN_Layer_init d h hk l →
  graph_wf g →
  normalized l features x →
  length x = num_nodes g →
  Forall (λ r, length r = d) x →
  edges g ≠ [] →
  Forall (λ e : nat * nat, e.2 ≠ i) (edges g) →
  x !! i = Some xi →
  ∃ emb g' l' y,
    GNN_Layer_forward l g features = Some (emb, g', l') ∧
    linear_row (fc l) (xi ++ zeros d) = Some y ∧
    emb !! i = Some (relu <$> y).
Proof.
  intros Hl Hg Hnorm Hn Hx _ Hiso Hxi.
  destruct (normalized_maybe_norm _ _ _ Hnorm) as [l' Hl'].
  destruct (layer_forward_spec d h hk l g features x l' Hl Hg Hl' Hn Hx)
    as (cs & emb & g' & _ & Hfw & _ & _ & _ & Hrows).
  destruct (Hrows i xi Hxi) as (y & Hy & Hei).
  rewrite neighbor_sum_isolated in Hy by done.
  by exists emb, g', l', y.
Qed.

Lemma maybe_norm_params l features x l' :
  maybe_norm l features = Some (x, l') →
  edge_weighting l' = edge_weighting l ∧ fc l' = fc l ∧
  training l' = training l ∧ (is_Some (bn l') ↔ is_Some (bn l)).
Proof.
  unfold maybe_norm. destruct (bn l) as [b|] eqn:Hb.
  - destruct (BatchNorm1d_forward _ _ _) as [[x' b']|]; cbn; [|done].
    intros [= <- <-]. cbn. by split_and!.
  - intros [= <- <-]. by rewrite Hb.
Qed.


Lemma layers_forward_frame ls : ∀ g emb emb' g' ls',
  GNN_layers_forward ls g emb = Some (emb', g', ls') →
  num_nodes g' = num_nodes g ∧ edges g' = edges g ∧
  (∀ k, k ≠ "feat" → k ≠ "agg_msg" → ndata g' !! k = ndata g !! k) ∧
  (∀ k, k ≠ "e" → edata g' !! k = edata g !! k) ∧
  Forall2 same_parameters ls ls' ∧
  (ls ≠ [] →
   ∃ x agg w,
     ndata g' !! "feat" = Some (TMat x) ∧ length x = num_nodes g ∧
     ndata g' !! "agg_msg" = Some (TMat agg) ∧ length agg = num_nodes g ∧
     edata g' !! "e" = Some (TMat w) ∧ length w = length (edges g)).
Proof.
  induction ls as [|l ls IH]; intros g emb emb' g' ls' Hf; cbn in Hf.
  - injection Hf as <- <- <-. by split_and!.
  - inv_bind Hf.
    match goal with r : (list (list R) * DGLGraph * GNN_Layer)%type |- _ =>
      destruct r as [[e1 g1] l1] end.
    inv_bind Hf.
    match goal with r : (list (list R) * DGLGraph * list GNN_Layer)%type |- _ =>
      destruct r as [[e2 g2] ls2] end.
    injection Hf as <- <- <-.
    match goal with Hl : GNN_Layer_forward _ _ _ = Some _ |- _ =>
      apply layer_forward_inv in Hl
        as (x & w & agg & y & Hnorm & Hx & -> & Hw & Hagg & _ & _) end.
    match goal with Hr : GNN_layers_forward _ _ _ = Some _ |- _ =>
      destruct (IH _ _ _ _ _ Hr) as (Hn & He & Hnd & Hed & Hps & Hlast) end.
    cbn in *. split_and!; try done.
    + intros k Hk1 Hk2. rewrite Hnd by done.
      by rewrite !lookup_insert_ne.
    + intros k Hk. rewrite Hed by done. by rewrite lookup_insert_ne.
    + constructor; [|done]. by eapply maybe_norm_params.
    + intros _. destruct ls as [|l2 ls].
      * cbn in *.
        match goal with Hr : Some _ = Some _ |- _ => injection Hr as <- <- <- end.
        exists x, agg, w. cbn.
        rewrite lookup_insert_ne by done. rewrite !lookup_insert_eq. done.
      * destruct Hlast as (x' & agg' & w' & ?); [done|].
        exists x', agg', w'. destruct_and!. split_and!; congruence.
Qed.

(** X8: [GNN.forward] takes the node field ['feat'] out of the graph and
    leaves the layers' fields behind: on return ['feat'] is what the last
    layer wrote there (it is absent for a network without layers), while
    the nodes, the edges and all fields other than ['feat'], ['agg_msg']
    and ['e'], so ['pid'] and ['weight'], are untouched. *)
Theorem forward_consumes_feat_only net g emb g' net' :
  GNN_forward net g = Some (emb, g', net') →
  num_nodes g' = num_nodes g ∧ edges g' = edges g ∧
  (∀ k, k ≠ "feat" → k ≠ "agg_msg" → ndata g' !! k = ndata g !! k) ∧
  (∀ k, k ≠ "e" → edata g' !! k = edata g !! k) ∧
  (gnn_layers net = [] → ndata g' !! "feat" = None) ∧
  (gnn_layers net ≠ [] →
   ∃ x, ndata g' !! "feat" = Some (TMat x) ∧ length x = num_nodes g).
Proof.
  unfold GNN_forward, pop_ndata. intros Hf. inv_bind Hf.
  match goal with r : (list (list R) * DGLGraph * list GNN_Layer)%type |- _ =>
    destruct r as [[e1 g1] ls1] end.
  inv_bind Hf. injection Hf as <- <- <-.
  match goal with Hp : ndata g !! "feat" ≫= _ = Some _ |- _ =>
    apply bind_Some in Hp as (t & Ht & Hp); injection Hp as <- end.
  cbn in *.
  match goal with Hr : GNN_layers_forward _ _ _ = Some _ |- _ =>
    pose proof (layers_forward_frame _ _ _ _ _ _ Hr)
      as (Hn & He & Hnd & Hed & _ & Hlast); rename Hr into Hrun end.
  cbn in *. split_and!; try done.
  - intros k Hk1 Hk2. rewrite Hnd by done. by rewrite lookup_delete_ne.
  - intros Hnil. rewrite Hnil in Hrun. cbn in Hrun. injection Hrun as <- <- <-.
    cbn. apply lookup_delete_eq.
  - intros Hne. destruct (Hlast Hne) as (x' & agg' & w' & Hx' & Hlx & _).
    by exists x'.
Qed.

Lemma same_parameters_init d h hk ls ls' :
  Forall2 same_parameters ls ls' →
  Forall (GNN_Layer_init d h hk) ls → Forall (GNN_Layer_init d h hk) ls'.
Proof.
  induction 1 as [|a b la lb (Hk & Hfc & _) _ IH]; [done|].
  intros Hall. apply Forall_cons in Hall as [Ha Hall].
  constructor; [|by apply IH].
  unfold GNN_Layer_init in *. by rewrite Hk, Hfc.
Qed.

(** X10: a forward pass changes no parameter: the final linear layer,
    and in every layer the kernel, the linear layer and the mode, are the
    same afterwards; only the state of the batch normalisation may differ,
    so the network keeps the shapes [__init__] gave it. *)
Theorem forward_keeps_the_parameters net g emb g' net' :
  GNN_forward net g = Some (emb, g', net') →
  final_emb net' = final_emb net ∧
  Forall2 same_parameters (gnn_layers net) (gnn_layers net') ∧
  ∀ h hk d ed, GNN_init h hk d ed net → GNN_init h hk d ed net'.
Proof.
  unfold GNN_forward. intros Hf. inv_bind Hf.
  match goal with r : (list (list R) * DGLGraph * list GNN_Layer)%type |- _ =>
    destruct r as [[e1 g1] ls1] end.
  inv_bind Hf. injection Hf as <- <- <-.
  match goal with Hr : GNN_layers_forward _ _ _ = Some _ |- _ =>
    pose proof (layers_forward_frame _ _ _ _ _ _ Hr) as (_ & _ & _ & _ & Hps & _)
  end.
  cbn. split_and!; [done..|].
  intros h hk d ed (l & ls & Hls & Hl & Hrest & Hwf & Hin & Hout).
  rewrite Hls in Hps.
  apply Forall2_cons_inv_l in Hps as (l1 & ls2 & Hp1 & Hps & ->).
  exists l1, ls2. cbn. split_and!; try done.
  - destruct Hp1 as (Hk & Hfc & _). unfold GNN_Layer_init in *.
    by rewrite Hk, Hfc.
  - by eapply same_parameters_init.
Qed.

(** X9: the embedding returned by [GNN.forward] has one row per node and
    [emb_dim] columns. *)
Theorem forward_embedding_shape h hk d ed net g feat emb g' net' :
  GNN_init h hk d ed net →
  ndata g !! "feat" = Some (TMat feat) →
  length feat = num_nodes g →
  GNN_forward net g = Some (emb, g', net') →
  length emb = num_nodes g ∧ Forall (λ r, length r = ed) emb.
Proof.
  intros (l & ls & Hls & Hl & Hrest & Hwf & Hin & Hout) Hfeat Hn Hf.
  split; [by eapply GNN_forward_rows|].
  unfold GNN_forward in Hf. inv_bind Hf.
  match goal with r : (list (list R) * DGLGraph * list GNN_Layer)%type |- _ =>
    destruct r as [[e1 g1] ls1] end.
  inv_bind Hf. injection Hf as <- <- <-.
  match goal with Hy : linear _ _ = Some _ |- _ =>
    pose proof (linear_width _ _ _ Hwf Hy) as Hw end.
  by rewrite Hout in Hw.
Qed.

End Effects.

(** ** What the network reads *)




Section Reads.
Context `{Library}.




(** X28: the embedding loop never looks at the ground-truth graphs: two
    datasets with the same input graphs give the same five lists and
    leave the network in the same state. *)
Theorem embedding_never_reads_the_truth_graphs net dataset dataset' :
  fst <$> dataset = fst <$> dataset' →
  embed_samples net dataset = embed_samples net dataset'.
Proof.
  intros Hfst. unfold embed_samples. rewrite !load_batches_one.
  cbn [mbind option_bind mret option_ret].
  generalize (set_training false net).
  generalize ({| orig_xyz := []; emb_metric := []; emb_gnn := []; pid := [];
                 weight_ := [] |}).
  revert dataset' Hfst.
  induction dataset as [|b ds IH]; intros [|b' ds'] Hfst st n;
    try discriminate Hfst; [done|].
  injection Hfst as Hb Hfst. cbn [ofoldl].
  assert (Hstep : embed_step (n, st) b = embed_step (n, st) b')
    by (unfold embed_step; by rewrite Hb).
  rewrite Hstep. destruct (embed_step (n, st) b') as [[n1 st1]|]; [|done].
  cbn [mbind option_bind mret option_ret]. by apply IH.
Qed.

End Reads.

(** ** Batching *)

Lemma batch2_inv g1 g2 g :
  batch2 g1 g2 = Some g →
  data_cat (ndata g1) (ndata g2) = Some (ndata g) ∧
  data_cat (edata g1) (edata g2) = Some (edata g) ∧
  num_nodes g = (num_nodes g1 + num_nodes g2)%nat ∧
  edges g = edges g1 ++ (shift (num_nodes g1) <$> edges g2).
Proof.
  unfold batch2. intros Hb. inv_bind Hb. injection Hb as <-. by split_and!.
Qed.

Lemma data_cat_lookup m1 m2 m k :
  data_cat m1 m2 = Some m →
  m !! k = (a ← m1 !! k; b ← m2 !! k; tcat0 a b).
Proof.
  unfold data_cat. intros Hc. inv_bind Hc. injection Hc as <-.
  rewrite lookup_omap, map_lookup_zip_with.
  destruct (m1 !! k) as [a|]; [|done]. cbn.
  by destruct (m2 !! k) as [b|].
Qed.

Lemma batch_fold_structure gs : ∀ g g',
  ofoldl batch2 g gs = Some g' →
  num_nodes g' = (num_nodes g + sum_list (num_nodes <$> gs))%nat ∧
  edges g' = edges g ++ batched_edges (num_nodes g) gs.
Proof.
  induction gs as [|g2 gs IH]; intros g g' Hf; cbn in Hf.
  - injection Hf as <-. cbn. split; [lia|by rewrite app_nil_r].
  - destruct (batch2 g g2) as [g12|] eqn:Hb; [|done]. cbn in Hf.
    destruct (batch2_inv _ _ _ Hb) as (_ & _ & Hn & He).
    destruct (IH _ _ Hf) as [IHn IHe].
    cbn. rewrite IHn, IHe, Hn, He, <- app_assoc. split; [lia|done].
Qed.

Lemma shift_0 (E : list (nat * nat)) : shift 0 <$> E = E.
Proof.
  induction E as [|[i j] E IH]; [done|].
  cbn. unfold shift at 1. cbn. by rewrite !Nat.add_0_r, IH.
Qed.

Lemma dgl_batch_structure gs g :
  dgl_batch gs = Some g →
  gs ≠ [] ∧
  num_nodes g = sum_list (num_nodes <$> gs) ∧
  edges g = batched_edges 0 gs.
Proof.
  destruct gs as [|g0 gs]; [done|]. cbn. intros Hf.
  destruct (batch_fold_structure _ _ _ Hf) as [Hn He].
  split_and!; [done..|]. by rewrite shift_0.
Qed.

Lemma batched_edges_wf gs : ∀ o,
  Forall graph_wf gs →
  Forall (λ e : nat * nat,
            (o ≤ e.1 < o + sum_list (num_nodes <$> gs))%nat ∧
            (o ≤ e.2 < o + sum_list (num_nodes <$> gs))%nat)
    (batched_edges o gs).
Proof.
  induction gs as [|g gs IH]; intros o Hwf; [constructor|].
  apply Forall_cons in Hwf as [Hg Hwf]. cbn. apply Forall_app. split.
  - apply Forall_fmap. eapply Forall_impl; [exact Hg|].
    intros [i j] [Hi Hj]. cbn in *. lia.
  - eapply Forall_impl; [apply (IH (o + num_nodes g)%nat Hwf)|].
    intros [i j] [Hi Hj]. cbn in *. lia.
Qed.

Lemma sum_list_same {A} (f h : A → nat) (l : list A) :
  Forall (λ a, f a = h a) l → sum_list (f <$> l) = sum_list (h <$> l).
Proof. induction 1 as [|a l Ha _ IH]; [done|]. cbn. by rewrite Ha, IH. Qed.


Lemma batched_edges_length gs : ∀ o,
  length (batched_edges o gs) = sum_list ((λ g, length (edges g)) <$> gs).
Proof.
  induction gs as [|g gs IH]; intros o; [done|].
  cbn. by rewrite length_app, length_fmap, IH.
Qed.

(** X11: [trackml_collate] raises on an empty list; otherwise both
    batched graphs have as many nodes and as many edges as their samples
    taken together, and the two have the same number of nodes when every
    sample's two graphs do. *)
Theorem collate_adds_up_the_graphs samples g_input g_true :
  trackml_collate samples = Some (g_input, g_true) →
  samples ≠ [] ∧
  num_nodes g_input
  = sum_list ((λ s : DGLGraph * DGLGraph, num_nodes s.1) <$> samples) ∧
  num_nodes g_true
  = sum_list ((λ s : DGLGraph * DGLGraph, num_nodes s.2) <$> samples) ∧
  length (edges g_input)
  = sum_list ((λ s : DGLGraph * DGLGraph, length (edges s.1)) <$> samples) ∧
  length (edges g_true)
  = sum_list ((λ s : DGLGraph * DGLGraph, length (edges s.2)) <$> samples) ∧
  (Forall (λ s : DGLGraph * DGLGraph, num_nodes s.1 = num_nodes s.2) samples →
   num_nodes g_input = num_nodes g_true).
Proof.
  unfold trackml_collate. intros Hc. inv_bind Hc. injection Hc as -> ->.
  repeat match goal with Hb : dgl_batch _ = Some _ |- _ =>
    apply dgl_batch_structure in Hb as (? & ? & ?) end.
  assert (Hne : samples ≠ []) by (by destruct samples).
  assert (Hni : num_nodes g_input
            = sum_list ((λ s : DGLGraph * DGLGraph, num_nodes s.1) <$> samples))
    by (by rewrite <- list_fmap_compose in *).
  assert (Hnt : num_nodes g_true
            = sum_list ((λ s : DGLGraph * DGLGraph, num_nodes s.2) <$> samples))
    by (by rewrite <- list_fmap_compose in *).
  split_and!; try done.
  - match goal with He : edges g_input = _ |- _ => rewrite He end.
    by rewrite batched_edges_length, <- list_fmap_compose.
  - match goal with He : edges g_true = _ |- _ => rewrite He end.
    by rewrite batched_edges_length, <- list_fmap_compose.
  - intros Hsame. rewrite Hni, Hnt. by apply sum_list_same.
Qed.

(** X12: in both batched graphs the edges are the samples' edges in
    order, each sample's node numbers moved past the nodes of the samples
    before it; hence a batch of well-formed graphs is well-formed. *)
Theorem collate_keeps_samples_apart samples g_input g_true :
  trackml_collate samples = Some (g_input, g_true) →
  edges g_input = batched_edges 0 (fst <$> samples) ∧
  edges g_true = batched_edges 0 (snd <$> samples) ∧
  (Forall (λ s : DGLGraph * DGLGraph, graph_wf s.1) samples → graph_wf g_input) ∧
  (Forall (λ s : DGLGraph * DGLGraph, graph_wf s.2) samples → graph_wf g_true).
Proof.
  unfold trackml_collate. intros Hc. inv_bind Hc. injection Hc as -> ->.
  repeat match goal with Hb : dgl_batch _ = Some _ |- _ =>
    apply dgl_batch_structure in Hb as (? & ? & ?) end.
  split_and!; try done.
  - intros Hwf. unfold graph_wf.
    match goal with He : edges g_input = _, Hn : num_nodes g_input = _ |- _ =>
      rewrite He, Hn end.
    eapply Forall_impl;
      [apply (batched_edges_wf (fst <$> samples) 0); by apply Forall_fmap|].
    intros [i j] [Hi Hj]. cbn in *. lia.
  - intros Hwf. unfold graph_wf.
    match goal with He : edges g_true = _, Hn : num_nodes g_true = _ |- _ =>
      rewrite He, Hn end.
    eapply Forall_impl;
      [apply (batched_edges_wf (snd <$> samples) 0); by apply Forall_fmap|].
    intros [i j] [Hi Hj]. cbn in *. lia.
Qed.

(** The fields of a batch are the graphs' fields end to end. *)
Section Fields.
Context {A : Type} (wrap : list A → tensor) (unwrap : tensor → option (list A)).
Context (field : DGLGraph → gmap string tensor).
Hypothesis unwrap_wrap : ∀ t a, unwrap t = Some a → t = wrap a.
Hypothesis tcat0_wrap : ∀ a b, tcat0 (wrap a) (wrap b) = Some (wrap (a ++ b)).
Hypothesis field_batch2 : ∀ g1 g2 g,
  batch2 g1 g2 = Some g → data_cat (field g1) (field g2) = Some (field g).

Lemma batch_fold_field k gs : ∀ g g' a (rest : list (list A)),
  ofoldl batch2 g gs = Some g' →
  field g !! k = Some (wrap a) →
  mapM (M := option) (λ g : DGLGraph, field g !! k ≫= unwrap) gs = Some rest →
  field g' !! k = Some (wrap (a ++ concat rest)).
Proof.
  induction gs as [|g2 gs IH]; intros g g' a rest Hf Ha Hrest.
  - cbn in Hf, Hrest. injection Hf as <-. injection Hrest as <-.
    cbn. by rewrite app_nil_r.
  - cbn in Hf. destruct (batch2 g g2) as [g12|] eqn:Hb; [|done]. cbn in Hf.
    apply mapM_cons_Some in Hrest as (b & rest' & Hb2 & Hrest & ->).
    destruct (field g2 !! k) as [t2|] eqn:Ht2; [|done]. cbn in Hb2.
    apply unwrap_wrap in Hb2 as ->.
    pose proof (data_cat_lookup _ _ _ k (field_batch2 _ _ _ Hb)) as Hk.
    rewrite Ha, Ht2 in Hk. cbn in Hk. rewrite tcat0_wrap in Hk.
    rewrite (IH _ _ _ _ Hf Hk Hrest). cbn. by rewrite app_assoc.
Qed.

Lemma dgl_batch_field k gs g (parts : list (list A)) :
  dgl_batch gs = Some g →
  mapM (M := option) (λ g : DGLGraph, field g !! k ≫= unwrap) gs = Some parts →
  field g !! k = Some (wrap (concat parts)).
Proof.
  destruct gs as [|g0 gs]; [done|]. cbn [dgl_batch]. intros Hf Hp.
  apply mapM_cons_Some in Hp as (a & rest & Ha & Hrest & ->).
  destruct (field g0 !! k) as [t0|] eqn:Ht0; [|done]. cbn in Ha.
  apply unwrap_wrap in Ha as ->.
  by apply (batch_fold_field k gs g0 g a rest).
Qed.

End Fields.

Lemma as_mat_TMat t m : as_mat t = Some m → t = TMat m.
Proof. destruct t; by intros [= <-]. Qed.

Lemma as_int_TInt t v : as_int t = Some v → t = TInt v.
Proof. destruct t; by intros [= <-]. Qed.

Lemma as_vec_TVec t v : as_vec t = Some v → t = TVec v.
Proof. destruct t; by intros [= <-]. Qed.

Lemma batch2_ndata g1 g2 g :
  batch2 g1 g2 = Some g → data_cat (ndata g1) (ndata g2) = Some (ndata g).
Proof. intros Hb. by apply batch2_inv in Hb as (? & _). Qed.

Lemma batch2_edata g1 g2 g :
  batch2 g1 g2 = Some g → data_cat (edata g1) (edata g2) = Some (edata g).
Proof. intros Hb. by apply batch2_inv in Hb as (_ & ? & _). Qed.

(** X13: the fields of the batched graphs are the samples' fields end
    to end, in the order of the samples: the float matrices (['feat']),
    the integer vectors (['pid']) and the float vectors (['weight']) of
    the input graphs, and the float vectors (['truth']) on the edges of
    the ground-truth graphs. *)
Theorem collate_concatenates_the_fields samples g_input g_true :
  trackml_collate samples = Some (g_input, g_true) →
  (∀ k (ms : list (list (list R))),
     mapM (M := option) (λ s : DGLGraph * DGLGraph, ndata s.1 !! k ≫= as_mat)
       samples = Some ms →
     ndata g_input !! k = Some (TMat (concat ms))) ∧
  (∀ k (ps : list (list Z)),
     mapM (M := option) (λ s : DGLGraph * DGLGraph, ndata s.1 !! k ≫= as_int)
       samples = Some ps →
     ndata g_input !! k = Some (TInt (concat ps))) ∧
  (∀ k (ws : list (list R)),
     mapM (M := option) (λ s : DGLGraph * DGLGraph, ndata s.1 !! k ≫= as_vec)
       samples = Some ws →
     ndata g_input !! k = Some (TVec (concat ws))) ∧
  (∀ k (ts : list (list R)),
     mapM (M := option) (λ s : DGLGraph * DGLGraph, edata s.2 !! k ≫= as_vec)
       samples = Some ts →
     edata g_true !! k = Some (TVec (concat ts))).
Proof.
  unfold trackml_collate. intros Hc. inv_bind Hc. injection Hc as -> ->.
  split_and!; intros k parts Hp.
  - apply (dgl_batch_field TMat as_mat ndata as_mat_TMat (λ _ _, eq_refl)
             batch2_ndata k (fst <$> samples)); [done|].
    by rewrite mapM_fmap_l.
  - apply (dgl_batch_field TInt as_int ndata as_int_TInt (λ _ _, eq_refl)
             batch2_ndata k (fst <$> samples)); [done|].
    by rewrite mapM_fmap_l.
  - apply (dgl_batch_field TVec as_vec ndata as_vec_TVec (λ _ _, eq_refl)
             batch2_ndata k (fst <$> samples)); [done|].
    by rewrite mapM_fmap_l.
  - apply (dgl_batch_field TVec as_vec edata as_vec_TVec (λ _ _, eq_refl)
             batch2_edata k (snd <$> samples)); [done|].
    by rewrite mapM_fmap_l.
Qed.

(** ** A batch in evaluation mode *)

Lemma mapM_app_Some {A B} (f : A → option B) (l1 l2 : list A) :
  mapM f (l1 ++ l2) = k1 ← mapM f l1; k2 ← mapM f l2; Some (k1 ++ k2).
Proof.
  induction l1 as [|a l1 IH]; cbn.
  - by destruct (mapM f l2).
  - destruct (f a) as [y|]; cbn; [|done]. rewrite IH.
    destruct (mapM f l1) as [k1|]; cbn; [|done].
    by destruct (mapM f l2).
Qed.

Lemma edge_weights_left k (x1 x2 : list (list R)) (E : list (nat * nat)) :
  Forall (λ e, (e.1 < length x1)%nat ∧ (e.2 < length x1)%nat) E →
  edge_weights k (x1 ++ x2) E = edge_weights k x1 E.
Proof.
  unfold edge_weights. induction 1 as [|[i j] E [Hi Hj] _ IH]; [done|].
  cbn in Hi, Hj. cbn. rewrite !lookup_app_l by done. by rewrite IH.
Qed.

Lemma edge_weights_right k (x1 x2 : list (list R)) (E : list (nat * nat)) :
  edge_weights k (x1 ++ x2) (shift (length x1) <$> E) = edge_weights k x2 E.
Proof.
  unfold edge_weights. induction E as [|[i j] E IH]; [done|].
  cbn. rewrite !lookup_app_r by lia. rewrite !Nat.add_sub. by rewrite IH.
Qed.

Lemma neighbor_sum_left d (E : list (nat * nat)) (x1 x2 : list (list R)) i :
  Forall (λ e, (e.1 < length x1)%nat ∧ (e.2 < length x1)%nat) E →
  ∀ cs : list R,
  neighbor_sum d E cs (x1 ++ x2) i = neighbor_sum d E cs x1 i.
Proof.
  unfold neighbor_sum.
  induction 1 as [|[j i'] E [Hj _] _ IH]; intros [|c cs]; try done.
  cbn [zip zip_with]. rewrite !filter_cons. cbn [fst snd] in *.
  destruct (decide (i' = i)); [|apply IH].
  cbn [fmap list_fmap foldr fst snd]. by rewrite IH, lookup_app_l.
Qed.

Lemma neighbor_sum_right d (E : list (nat * nat)) (x1 x2 : list (list R)) j :
  ∀ cs : list R,
  neighbor_sum d (shift (length x1) <$> E) cs (x1 ++ x2) (j + length x1)
  = neighbor_sum d E cs x2 j.
Proof.
  unfold neighbor_sum, shift.
  induction E as [|[s t] E IH]; intros [|c cs]; try done.
  cbn [fmap list_fmap zip zip_with]. rewrite !filter_cons.
  cbn [fst snd].
  destruct (decide (t = j)) as [->|Hne].
  - rewrite decide_True by done.
    cbn [fmap list_fmap foldr fst snd].
    rewrite lookup_app_r, Nat.add_sub by lia. f_equal. apply IH.
  - rewrite decide_False by lia. apply IH.
Qed.

Lemma neighbor_sum_app d (E E' : list (nat * nat)) (cs cs' : list R) x i :
  length cs = length E →
  neighbor_sum d (E ++ E') (cs ++ cs') x i
  = foldr vadd (neighbor_sum d E' cs' x i)
      ((λ p : nat * nat * R, scale p.2 (default [] (x !! p.1.1)))
         <$> filter (λ p : nat * nat * R, p.1.2 = i) (zip E cs)).
Proof.
  intros Hl. unfold neighbor_sum.
  rewrite zip_with_app by done. by rewrite filter_app, fmap_app, foldr_app.
Qed.

Lemma no_edge_into (E : list (nat * nat)) (cs : list R) i :
  Forall (λ e : nat * nat, e.2 ≠ i) E →
  filter (λ p : nat * nat * R, p.1.2 = i) (zip E cs) = [].
Proof.
  intros HE. revert cs. induction HE as [|e E He _ IH]; intros [|c cs]; try done.
  cbn [zip zip_with]. rewrite filter_cons. cbn [fst snd].
  rewrite decide_False by done. apply IH.
Qed.

(** The aggregate of a node of the first graph. *)
Lemma neighbor_sum_batch_l d E1 E2 (cs1 cs2 : list R) (x1 x2 : list (list R)) i :
  Forall (λ e, (e.1 < length x1)%nat ∧ (e.2 < length x1)%nat) E1 →
  length cs1 = length E1 →
  (i < length x1)%nat →
  neighbor_sum d (E1 ++ (shift (length x1) <$> E2)) (cs1 ++ cs2) (x1 ++ x2) i
  = neighbor_sum d E1 cs1 x1 i.
Proof.
  intros HE Hl Hi. rewrite neighbor_sum_app by done.
  rewrite (neighbor_sum_isolated d (shift (length x1) <$> E2)).
  2:{ apply Forall_fmap, Forall_true. intros [s t]. cbn. lia. }
  rewrite <- (neighbor_sum_left d E1 x1 x2 i HE cs1). done.
Qed.

(** The aggregate of a node of the second graph. *)
Lemma neighbor_sum_batch_r d E1 E2 (cs1 cs2 : list R) (x1 x2 : list (list R)) j :
  Forall (λ e, (e.1 < length x1)%nat ∧ (e.2 < length x1)%nat) E1 →
  length cs1 = length E1 →
  neighbor_sum d (E1 ++ (shift (length x1) <$> E2)) (cs1 ++ cs2) (x1 ++ x2)
    (j + length x1)
  = neighbor_sum d E2 cs2 x2 j.
Proof.
  intros HE Hl. rewrite neighbor_sum_app by done.
  rewrite no_edge_into.
  2:{ eapply Forall_impl; [exact HE|]. intros [s t] [_ Ht]. cbn in *. lia. }
  cbn [fmap list_fmap foldr]. apply neighbor_sum_right.
Qed.

Lemma joined_wf g1 g2 g :
  graph_wf g1 → graph_wf g2 → joined g1 g2 g → graph_wf g.
Proof.
  intros Hg1 Hg2 [Hn He].
  unfold graph_wf. rewrite He, Hn. apply Forall_app. split.
  - eapply Forall_impl; [exact Hg1|]. intros [s t] [? ?]. cbn in *. lia.
  - apply Forall_fmap. eapply Forall_impl; [exact Hg2|].
    intros [s t] [? ?]. cbn in *. lia.
Qed.

Lemma graph_wf_nodes g : graph_wf g → edges g ≠ [] → (0 < num_nodes g)%nat.
Proof.
  unfold graph_wf. destruct (edges g) as [|[s t] E]; [done|].
  intros Hg _. apply Forall_cons in Hg as [[? _] _]. cbn in *. lia.
Qed.

Section BatchEval.
Context `{Library}.

Lemma layer_forward_batch d h hk l g1 g2 g x1 x2 :
  layer_rowwise_norm d l →
  training l = false →
  GNN_Layer_init d h hk l →
  graph_wf g1 → graph_wf g2 →
  (0 < num_nodes g1)%nat → (0 < num_nodes g2)%nat →
  joined g1 g2 g →
  length x1 = num_nodes g1 → length x2 = num_nodes g2 →
  Forall (λ r, length r = d) x1 → Forall (λ r, length r = d) x2 →
  ∃ e1 e2 g1' g2' g',
    GNN_Layer_forward l g1 x1 = Some (e1, g1', l) ∧
    GNN_Layer_forward l g2 x2 = Some (e2, g2', l) ∧
    GNN_Layer_forward l g (x1 ++ x2) = Some (e1 ++ e2, g', l) ∧
    length e1 = num_nodes g1 ∧ length e2 = num_nodes g2 ∧
    Forall (λ r, length r = h) e1 ∧ Forall (λ r, length r = h) e2.
Proof.
  intros Hrow Ht Hl Hg1 Hg2 Hp1 Hp2 [Hn He] Hx1 Hx2 Hd1 Hd2.
  destruct (maybe_norm_rowwise d l Hrow Ht) as (f & Hfw & Hf).
  assert (Hw : ∀ x, Forall (λ r, length r = d) x →
                    Forall (λ r, length r = d) (f <$> x)).
  { intros x Hx. apply Forall_fmap. eapply Forall_impl; [exact Hx|].
    intros r Hr. by apply Hfw. }
  assert (Hne1 : x1 ≠ []) by (intros ->; cbn in Hx1; lia).
  assert (Hne2 : x2 ≠ []) by (intros ->; cbn in Hx2; lia).
  assert (Hne : x1 ++ x2 ≠ []) by (destruct x1; [done|by cbn]).
  pose proof (joined_wf _ _ _ Hg1 Hg2 (conj Hn He)) as Hg.
  destruct (layer_forward_spec d h hk l g1 x1 (f <$> x1) l Hl Hg1
              (Hf x1 Hne1 Hd1))
    as (cs1 & e1 & g1' & Hw1 & Hfw1 & _ & _ & Hle1 & Hrows1);
    [by rewrite length_fmap|by apply Hw|].
  destruct (layer_forward_spec d h hk l g2 x2 (f <$> x2) l Hl Hg2
              (Hf x2 Hne2 Hd2))
    as (cs2 & e2 & g2' & Hw2 & Hfw2 & _ & _ & Hle2 & Hrows2);
    [by rewrite length_fmap|by apply Hw|].
  destruct (layer_forward_spec d h hk l g (x1 ++ x2) (f <$> (x1 ++ x2)) l Hl Hg
              (Hf (x1 ++ x2) Hne ltac:(by apply Forall_app)))
    as (cs & e & g' & Hwg & Hfw' & _ & _ & Hle & Hrows);
    [rewrite length_fmap, length_app; lia
    |apply Hw, Forall_app; by split|].
  exists e1, e2, g1', g2', g'. split_and!; [done|done| |done|done| |].
  2:{ eapply (layer_rows_width d h hk l (f <$> x1)); [done| |exact Hrows1].
      rewrite length_fmap. lia. }
  2:{ eapply (layer_rows_width d h hk l (f <$> x2)); [done| |exact Hrows2].
      rewrite length_fmap. lia. }
  rewrite Hfw'. do 3 f_equal.
  (* the edge weights of the batch *)
  assert (Hwf1 : Forall (λ e : nat * nat,
                   (e.1 < length (f <$> x1))%nat ∧ (e.2 < length (f <$> x1))%nat)
                   (edges g1)).
  { rewrite length_fmap, Hx1. exact Hg1. }
  assert (Hcs : cs = cs1 ++ cs2).
  { rewrite He, fmap_app in Hwg. unfold edge_weights in Hwg.
    rewrite mapM_app_Some in Hwg.
    fold (edge_weights (edge_weighting l) ((f <$> x1) ++ (f <$> x2)) (edges g1))
      in Hwg.
    rewrite (edge_weights_left _ _ _ _ Hwf1), Hw1 in Hwg.
    cbn [mbind option_bind] in Hwg.
    replace (num_nodes g1) with (length (f <$> x1)) in Hwg
      by (by rewrite length_fmap).
    fold (edge_weights (edge_weighting l) ((f <$> x1) ++ (f <$> x2))
            (shift (length (f <$> x1)) <$> edges g2)) in Hwg.
    rewrite edge_weights_right, Hw2 in Hwg. cbn in Hwg.
    injection Hwg as Hwg. rewrite <- fmap_app in Hwg.
    eapply (inj (fmap (λ c : R, [c]))). done. }
  assert (Hlc1 : length cs1 = length (edges g1)).
  { apply mapM_Some_1, Forall2_length in Hw1. by rewrite length_fmap in Hw1. }
  subst cs. rewrite He, fmap_app in Hrows.
  replace (num_nodes g1) with (length (f <$> x1)) in Hrows
    by (by rewrite length_fmap).
  apply list_eq. intros i.
  destruct (decide (i < length x1)%nat) as [Hi|Hi].
  - destruct (lookup_lt_is_Some_2 (f <$> x1) i) as [xi Hxi];
      [by rewrite length_fmap|].
    destruct (Hrows i xi) as (y & Hy & Hei); [by apply lookup_app_l_Some|].
    destruct (Hrows1 i xi Hxi) as (y1 & Hy1 & Hei1).
    rewrite neighbor_sum_batch_l in Hy
      by (done || by rewrite length_fmap).
    rewrite Hy1 in Hy. injection Hy as <-.
    rewrite lookup_app_l by lia. by rewrite Hei, Hei1.
  - destruct (decide (i < length x1 + length x2)%nat) as [Hi2|Hi2].
    + destruct (lookup_lt_is_Some_2 (f <$> x2) (i - length x1)) as [xj Hxj];
        [rewrite length_fmap; lia|].
      destruct (Hrows i xj) as (y & Hy & Hei).
      { rewrite lookup_app_r by (rewrite length_fmap; lia).
        by rewrite length_fmap. }
      destruct (Hrows2 (i - length x1)%nat xj Hxj) as (y2 & Hy2 & Hei2).
      replace i with ((i - length x1) + length (f <$> x1))%nat in Hy at 1
        by (rewrite length_fmap; lia).
      rewrite neighbor_sum_batch_r in Hy by done.
      rewrite Hy2 in Hy. injection Hy as <-.
      rewrite lookup_app_r by lia. rewrite Hle1, <- Hx1. by rewrite Hei, Hei2.
    + rewrite !lookup_ge_None_2; [done| |];
        rewrite ?length_app; lia.
Qed.

Lemma layers_forward_batch h hk ls : ∀ d g1 g2 g x1 x2,
  match ls with
  | [] => d = h
  | l :: ls' =>
      (GNN_Layer_init d h hk l ∧ layer_rowwise_norm d l) ∧
      Forall (λ l, GNN_Layer_init h h hk l ∧ layer_rowwise_norm h l) ls'
  end →
  Forall (λ l, training l = false) ls →
  graph_wf g1 → graph_wf g2 →
  (0 < num_nodes g1)%nat → (0 < num_nodes g2)%nat →
  joined g1 g2 g →
  length x1 = num_nodes g1 → length x2 = num_nodes g2 →
  Forall (λ r, length r = d) x1 → Forall (λ r, length r = d) x2 →
  ∃ e1 e2 g1' g2' g',
    GNN_layers_forward ls g1 x1 = Some (e1, g1', ls) ∧
    GNN_layers_forward ls g2 x2 = Some (e2, g2', ls) ∧
    GNN_layers_forward ls g (x1 ++ x2) = Some (e1 ++ e2, g', ls) ∧
    Forall (λ r, length r = h) e1 ∧ Forall (λ r, length r = h) e2.
Proof.
  induction ls as [|l ls IH];
    intros d g1 g2 g x1 x2 Hsh Ht Hg1 Hg2 Hp1 Hp2 Hj Hx1 Hx2 Hd1 Hd2.
  - subst d. exists x1, x2, g1, g2, g. by split_and!.
  - destruct Hsh as [[Hl Hrow] Hls]. apply Forall_cons in Ht as [Htl Ht].
    destruct (layer_forward_batch d h hk l g1 g2 g x1 x2) as
      (e1 & e2 & g1' & g2' & g' & Hf1 & Hf2 & Hf & Hle1 & Hle2 & Hw1 & Hw2);
      try done.
    destruct (layer_forward_rows _ _ _ _ _ _ Hf1) as (_ & Hn1 & He1).
    destruct (layer_forward_rows _ _ _ _ _ _ Hf2) as (_ & Hn2 & He2).
    destruct (layer_forward_rows _ _ _ _ _ _ Hf) as (_ & Hn & He).
    destruct (IH h g1' g2' g' e1 e2) as
      (o1 & o2 & k1 & k2 & k & Hr1 & Hr2 & Hr & Ho1 & Ho2); try done.
    { by destruct ls as [|l' ls']; [|apply Forall_cons in Hls]. }
    { unfold graph_wf. by rewrite He1, Hn1. }
    { unfold graph_wf. by rewrite He2, Hn2. }
    { lia. }
    { lia. }
    { destruct Hj as [Hjn Hje]. split; congruence. }
    { congruence. }
    { congruence. }
    exists o1, o2, k1, k2, k. cbn.
    rewrite Hf1, Hf2, Hf. cbn. rewrite Hr1, Hr2, Hr. by split_and!.
Qed.

(** The network on a graph that joins two graphs. *)
Lemma GNN_forward_joined h hk d ed net g1 g2 g feat1 feat2 :
  GNN_init h hk d ed net →
  GNN_rowwise_norm h d net →
  Forall (λ l, training l = false) (gnn_layers net) →
  graph_wf g1 → graph_wf g2 →
  (0 < num_nodes g1)%nat → (0 < num_nodes g2)%nat →
  joined g1 g2 g →
  ndata g1 !! "feat" = Some (TMat feat1) →
  ndata g2 !! "feat" = Some (TMat feat2) →
  ndata g !! "feat" = Some (TMat (feat1 ++ feat2)) →
  length feat1 = num_nodes g1 → length feat2 = num_nodes g2 →
  Forall (λ r, length r = d) feat1 → Forall (λ r, length r = d) feat2 →
  ∃ e1 e2 g1' g2' g',
    GNN_forward net g1 = Some (e1, g1', net) ∧
    GNN_forward net g2 = Some (e2, g2', net) ∧
    GNN_forward net g = Some (e1 ++ e2, g', net).
Proof.
  intros Hnet Hrow Ht Hg1 Hg2 Hp1 Hp2 Hj Hf1 Hf2 Hf Hl1 Hl2 Hd1 Hd2.
  pose proof (GNN_layers_shapes _ _ _ _ _ Hnet Hrow) as Hsh.
  destruct Hnet as (l & ls & Hls & Hl & Hrest & Hwf & Hin & Hout).
  unfold GNN_forward, pop_ndata. rewrite Hf1, Hf2, Hf. cbn.
  destruct (layers_forward_batch h hk (gnn_layers net) d
              (with_ndata (delete "feat" (ndata g1)) g1)
              (with_ndata (delete "feat" (ndata g2)) g2)
              (with_ndata (delete "feat" (ndata g)) g) feat1 feat2)
    as (e1 & e2 & g1' & g2' & g' & Hr1 & Hr2 & Hr & Hw1 & Hw2); try done.
  rewrite Hr1, Hr2, Hr. cbn.
  destruct (mapM_is_Some_2 (linear_row (final_emb net)) e1) as [o1 Ho1].
  { eapply Forall_impl; [exact Hw1|]. intros r Hr'. cbn.
    rewrite linear_row_Some by congruence. eauto. }
  destruct (mapM_is_Some_2 (linear_row (final_emb net)) e2) as [o2 Ho2].
  { eapply Forall_impl; [exact Hw2|]. intros r Hr'. cbn.
    rewrite linear_row_Some by congruence. eauto. }
  unfold linear. rewrite mapM_app_Some, Ho1, Ho2. cbn.
  exists o1, o2, g1', g2', g'. destruct net as [lsn fe]. by split_and!.
Qed.

(** The network on one input graph: it returns, and is left as it was. *)
Lemma GNN_forward_eval h hk d ed net g :
  GNN_init h hk d ed net →
  GNN_rowwise_norm h d net →
  Forall (λ l, training l = false) (gnn_layers net) →
  input_graph d g →
  ∃ e g', GNN_forward net g = Some (e, g', net).
Proof.
  intros Hnet Hrow Ht (Hwf & Hne & f & Hf & Hl & Hd).
  apply (GNN_forward_total h hk d ed net g f); try done.
  by apply graph_wf_nodes.
Qed.

Lemma batch2_joined g1 g2 g : batch2 g1 g2 = Some g → joined g1 g2 g.
Proof. intros Hb. by apply batch2_inv in Hb as (_ & _ & ? & ?). Qed.

Lemma batch2_input_graph d g1 g2 g :
  input_graph d g1 → input_graph d g2 → batch2 g1 g2 = Some g →
  input_graph d g.
Proof.
  intros (Hg1 & Hne1 & f1 & Hf1 & Hl1 & Hd1)
         (Hg2 & Hne2 & f2 & Hf2 & Hl2 & Hd2) Hb.
  pose proof (batch2_joined _ _ _ Hb) as Hj.
  split; [exact (joined_wf _ _ _ Hg1 Hg2 Hj)|].
  split.
  { destruct Hj as [_ ->]. by destruct (edges g1). }
  exists (f1 ++ f2). split_and!.
  - rewrite (data_cat_lookup _ _ _ "feat" (batch2_ndata _ _ _ Hb)).
    by rewrite Hf1, Hf2.
  - destruct Hj as [-> _]. rewrite length_app. lia.
  - by apply Forall_app.
Qed.

Lemma GNN_forward_batch_fold h hk d ed net :
  GNN_init h hk d ed net →
  GNN_rowwise_norm h d net →
  Forall (λ l, training l = false) (gnn_layers net) →
  ∀ gs g gb e g0,
    input_graph d g → Forall (input_graph d) gs →
    GNN_forward net g = Some (e, g0, net) →
    ofoldl batch2 g gs = Some gb →
    ∃ es g',
      Forall2 (λ gk ek, ∃ gk', GNN_forward net gk = Some (ek, gk', net))
        gs es ∧
      GNN_forward net gb = Some (e ++ concat es, g', net).
Proof.
  intros Hnet Hrow Ht.
  induction gs as [|g2 gs IH]; intros g gb e g0 Hg Hgs Hfw Hb; cbn in Hb.
  - injection Hb as <-. exists [], g0. split; [constructor|].
    by rewrite app_nil_r.
  - destruct (batch2 g g2) as [g12|] eqn:Hb2; [|done]. cbn in Hb.
    apply Forall_cons in Hgs as [Hg2 Hgs].
    pose proof (batch2_input_graph d _ _ _ Hg Hg2 Hb2) as Hg12.
    destruct Hg as (Hwf & Hne & f1 & Hf1 & Hl1 & Hd1).
    destruct Hg2 as (Hwf2 & Hne2 & f2 & Hf2 & Hl2 & Hd2).
    destruct (GNN_forward_joined h hk d ed net g g2 g12 f1 f2)
      as (e1 & e2 & g1' & g2' & g' & Hr1 & Hr2 & Hr); try done.
    { by apply graph_wf_nodes. }
    { by apply graph_wf_nodes. }
    { by apply batch2_joined. }
    { rewrite (data_cat_lookup _ _ _ "feat" (batch2_ndata _ _ _ Hb2)).
      by rewrite Hf1, Hf2. }
    rewrite Hfw in Hr1. injection Hr1 as <- <-.
    destruct (IH g12 gb (e ++ e2) g' Hg12 Hgs Hr Hb) as (es & gb' & Hes & Hgb).
    exists (e2 :: es), gb'. split; [constructor; eauto|].
    by rewrite Hgb, <- app_assoc.
Qed.

(** X22: in evaluation mode the network treats the samples of a batch
    one by one: the embedding of the batched input graph is the
    embeddings of its samples end to end, in the order of the samples,
    and the network is left as it was.  Each layer's batch normalisation
    is taken, in evaluation mode and on rows of the layer's input width,
    to work on each row by itself and to keep its state, as it does with
    its running statistics; in training mode it uses the statistics of
    the whole batch. *)
Theorem batch_embedding_is_the_samples_embeddings
    h hk d ed net samples g_input g_true :
  GNN_init h hk d ed net →
  GNN_rowwise_norm h d net →
  Forall (λ l, training l = false) (gnn_layers net) →
  Forall (λ s : DGLGraph * DGLGraph, input_graph d s.1) samples →
  trackml_collate samples = Some (g_input, g_true) →
  ∃ es g',
    Forall2 (λ (s : DGLGraph * DGLGraph) e,
               ∃ g1, GNN_forward net s.1 = Some (e, g1, net)) samples es ∧
    GNN_forward net g_input = Some (concat es, g', net).
Proof.
  intros Hnet Hrow Ht Hall Hc.
  assert (Hin : Forall (input_graph d) (fst <$> samples))
    by (by apply Forall_fmap).
  clear Hall.
  unfold trackml_collate in Hc. inv_bind Hc. injection Hc as -> ->.
  match goal with Hb : dgl_batch (fst <$> _) = Some _ |- _ =>
    rename Hb into Hbatch end.
  destruct samples as [|[g gt] samples]; [done|].
  cbn in Hbatch, Hin. apply Forall_cons in Hin as [Hg Hin].
  destruct (GNN_forward_eval h hk d ed net g Hnet Hrow Ht Hg)
    as (e & g0 & Hfw).
  destruct (GNN_forward_batch_fold h hk d ed net Hnet Hrow Ht
              (fst <$> samples) g g_input e g0) as (es & g' & Hes & Hgb);
    try done.
  exists (e :: es), g'. split; [|done].
  constructor; [by exists g0|]. by apply Forall2_fmap_l in Hes.
Qed.

End BatchEval.

(** ** The threshold of the accuracy proxy *)

Lemma round_zero_iff x : round x = 0 ↔ -1 / 2 <= x <= 1 / 2.
Proof.
  pose proof (Rplus_Int_part_frac_part x) as Hx.
  pose proof (base_fp x) as [Hf0 Hf1].
  unfold round.
  generalize dependent (frac_part x). generalize dependent (Int_part x).
  intros f r Hx Hr0 Hr1.
  assert (Hcases : (f ≤ -2 ∨ f = -1 ∨ f = 0 ∨ 1 ≤ f)%Z) by lia.
  assert (HI : IZR (f + 1) = IZR f + 1) by (rewrite plus_IZR; lra).
  destruct Hcases as [Hc|[->|[->|Hc]]].
  - apply IZR_le in Hc.
    destruct (Rlt_dec r (1 / 2)); [split; lra|].
    destruct (Rlt_dec (1 / 2) r); [rewrite HI; split; lra|].
    destruct (Z.even f); [|rewrite HI]; split; lra.
  - destruct (Rlt_dec r (1 / 2)); [split; lra|].
    destruct (Rlt_dec (1 / 2) r); cbn; split; lra.
  - destruct (Rlt_dec r (1 / 2)); [split; lra|].
    destruct (Rlt_dec (1 / 2) r); cbn; split; lra.
  - apply IZR_le in Hc.
    destruct (Rlt_dec r (1 / 2)); [split; lra|].
    destruct (Rlt_dec (1 / 2) r); [rewrite HI; split; lra|].
    destruct (Z.even f); [|rewrite HI]; split; lra.
Qed.

Lemma filter_all_length {A} (P : A → Prop) `{∀ x, Decision (P x)} (l : list A) :
  length (filter P l) = length l ↔ Forall P l.
Proof.
  induction l as [|a l IH]; [by split|].
  rewrite filter_cons. pose proof (length_filter P l) as Hle.
  destruct (decide (P a)) as [Ha|Ha]; cbn.
  - rewrite Forall_cons. split.
    + intros [= Hl]. split; [done|by apply IH].
    + intros [_ Hl]. f_equal. by apply IH.
  - split; [lia|]. intros Hall. by apply Forall_cons in Hall as [? _].
Qed.

Lemma agreements_all pred : ∀ truth,
  length pred = length truth →
  agreements pred truth = length truth ↔
  Forall2 (λ d t : R, t = 1 ↔ -1 / 2 <= d <= 1 / 2) pred truth.
Proof.
  unfold agreements. intros truth Hl.
  replace (length truth) with (length (zip pred truth))
    by (rewrite length_zip; lia).
  rewrite filter_all_length.
  revert truth Hl. induction pred as [|d pred IH]; intros [|t truth] Hl;
    try discriminate Hl.
  - split; constructor.
  - cbn [zip zip_with]. rewrite Forall_cons, Forall2_cons.
    rewrite (IH truth) by (by injection Hl). cbn [fst snd].
    rewrite <- round_zero_iff.
    assert (Hb : bool_decide (round d = 0) = bool_decide (t = 1)
                 ↔ (t = 1 ↔ round d = 0)).
    { split.
      - intros Hb. rewrite <- (bool_decide_eq_true (t = 1)), <- Hb.
        by rewrite bool_decide_eq_true.
      - intros Hiff. apply bool_decide_ext. by symmetry. }
    by rewrite Hb.
Qed.

(** X16: a pair counts as predicted close exactly when its predicted
    distance is at most one half: on a 0/1 truth vector the accuracy is 1
    if and only if every pair labelled 1 has a distance in [-1/2, 1/2]
    and no other pair has. *)
Theorem accuracy_is_one_iff_half_separates pred truth :
  pred ≠ [] →
  length pred = length truth →
  Forall (λ t, t = 0 ∨ t = 1) truth →
  score_dist_accuracy pred truth = Some 1 ↔
  Forall2 (λ d t : R, t = 1 ↔ -1 / 2 <= d <= 1 / 2) pred truth.
Proof.
  intros Hne Hl Ht.
  assert (Hn : (0 < length truth)%nat)
    by (rewrite <- Hl; destruct pred; [done|cbn; lia]).
  assert (Hs : score_dist_accuracy pred truth
          = Some (INR (agreements pred truth) / INR (length truth))).
  { unfold score_dist_accuracy.
    rewrite tensor_eq_same_length by (by rewrite !length_fmap).
    cbn. rewrite option_guard_True by lia. cbn.
    by rewrite count_true_agreements. }
  rewrite Hs, <- (agreements_all pred truth Hl).
  apply lt_INR in Hn. cbn in Hn. split.
  - intros [= Hq]. apply INR_eq.
    apply (Rmult_eq_compat_r (INR (length truth))) in Hq.
    unfold Rdiv in Hq. rewrite Rmult_assoc, Rinv_l in Hq by lra. lra.
  - intros ->. f_equal. field. lra.
Qed.

Lemma accuracy_of_nothing pred : score_dist_accuracy pred [] = None.
Proof.
  unfold score_dist_accuracy. set (p := (λ p, 1 - p) <$> _).
  by destruct p as [|? [|??]].
Qed.

(** X17: [score_dist_accuracy] raises on an empty truth vector,
    whatever the predictions (a division by zero, or a shape mismatch),
    and on vectors of different lengths when neither has exactly one
    element. *)
Theorem score_dist_accuracy_raises pred truth :
  truth = [] ∨
  (length pred ≠ length truth ∧ length pred ≠ 1%nat ∧ length truth ≠ 1%nat) →
  score_dist_accuracy pred truth = None.
Proof.
  intros [->|(Hl & Hp1 & Ht1)]; [apply accuracy_of_nothing|].
  unfold score_dist_accuracy.
  set (p := (λ p, 1 - p) <$> _).
  assert (Hp : length p = length pred) by (unfold p; by rewrite !length_fmap).
  clearbody p.
  - rewrite <- Hp in Hl, Hp1. unfold tensor_eq.
    destruct p as [|a [|a' p]], truth as [|b [|b' truth]]; try done;
      cbn in Hl, Hp1, Ht1; try (exfalso; lia);
      rewrite (option_guard_False (length _ = length _)) by (cbn; lia); done.
Qed.

(** ** The loss of every edge *)

Lemma row_distance_nonneg eps u v : 0 <= row_distance eps u v.
Proof. unfold row_distance. apply sqrt_pos. Qed.

Lemma hinge1_nonneg x y : 0 <= x → 0 <= hinge1 1 x y.
Proof.
  intros Hx. unfold hinge1. pose proof (Rmax_l 0 (1 - x)).
  destruct (decide (y = 1)), (decide (y = -1)); lra.
Qed.

Lemma hinge1_other x y :
  y ≠ 1 → y ≠ -1 → hinge1 1 x y = Rmax 0 (1 - x) + x.
Proof. intros H1 H2. unfold hinge1. by rewrite !decide_False. Qed.

Lemma get_emb_for_loss_inv g out :
  get_emb_for_loss g = Some out →
  ∃ src dst tt truth,
    (edges_src g "emb" ≫= as_mat) = Some src ∧
    (edges_dst g "emb" ≫= as_mat) = Some dst ∧
    length src = length dst ∧
    edata g !! "truth" = Some tt ∧ as_float tt = Some truth ∧
    length truth = length src ∧
    out = <["loss" := TVec (zip_with (hinge1 1)
                              (zip_with (row_distance pairwise_eps) src dst)
                              ((λ t, t * 2 - 1) <$> truth))]>
            (<["pred_dist" := TVec (zip_with (row_distance pairwise_eps) src dst)]>
               {[ "true_dist" := TVec ((λ t, t * 2 - 1) <$> truth) ]}).
Proof.
  unfold get_emb_for_loss. intros Hg.
  destruct (edges_src g "emb" ≫= as_mat) as [src|] eqn:Hsrc; [|done].
  destruct (edges_dst g "emb" ≫= as_mat) as [dst|] eqn:Hdst; [|done].
  cbn in Hg. unfold pairwise_distance in Hg.
  case_guard as Hl; [|done]. cbn in Hg.
  unfold edges_data in Hg.
  destruct (edata g !! "truth") as [tt|] eqn:Htt; [|done]. cbn in Hg.
  destruct (as_float tt) as [truth|] eqn:Hfl; [|done]. cbn in Hg.
  unfold hinge_embedding_loss in Hg. case_guard as Hl2; [|done]. cbn in Hg.
  injection Hg as <-. exists src, dst, tt, truth.
  rewrite length_zip_with, length_fmap in Hl2. split_and!; try done. lia.
Qed.

(** X14: whatever the labels, the edge function writes exactly the
    three edge fields ['loss'], ['pred_dist'] and ['true_dist'], one value
    per edge, and neither a predicted distance nor a loss is negative; the
    other edge fields and the node fields are unchanged. *)
Theorem loss_is_never_negative g g' :
  apply_edges get_emb_for_loss g = Some g' →
  ∃ loss pred target,
    edata g' !! "loss" = Some (TVec loss) ∧
    edata g' !! "pred_dist" = Some (TVec pred) ∧
    edata g' !! "true_dist" = Some (TVec target) ∧
    length loss = length (edges g) ∧
    length pred = length (edges g) ∧
    length target = length (edges g) ∧
    Forall (λ d, 0 <= d) pred ∧
    Forall (λ l, 0 <= l) loss ∧
    (∀ k, k ≠ "loss" → k ≠ "pred_dist" → k ≠ "true_dist" →
       edata g' !! k = edata g !! k) ∧
    ndata g' = ndata g.
Proof.
  unfold apply_edges. intros Ha.
  destruct (get_emb_for_loss g) as [out|] eqn:Hout; [|done]. cbn in Ha.
  case_guard as Hsz; [|done]. cbn in Ha. injection Ha as <-.
  apply get_emb_for_loss_inv in Hout
    as (src & dst & tt & truth & _ & _ & Hsd & _ & _ & Hts & ->).
  eexists _, _, _. cbn.
  split; [apply lookup_union_Some_l, lookup_insert_eq|].
  split; [apply lookup_union_Some_l; rewrite lookup_insert_ne by done;
          apply lookup_insert_eq|].
  split; [apply lookup_union_Some_l; rewrite !lookup_insert_ne by done;
          apply lookup_singleton_eq|].
  assert (Hpos : Forall (λ d, 0 <= d)
                   (zip_with (row_distance pairwise_eps) src dst)).
  { apply Forall_lookup_2. intros i d Hd.
    apply lookup_zip_with_Some in Hd as (u & v & -> & _).
    apply row_distance_nonneg. }
  split_and!.
  - exact (Hsz "loss" _ (lookup_insert_eq _ _ _)).
  - change (size0 (TVec (zip_with (row_distance pairwise_eps) src dst))
            = length (edges g)).
    apply (Hsz "pred_dist"). rewrite lookup_insert_ne by done.
    apply lookup_insert_eq.
  - change (size0 (TVec ((λ t, t * 2 - 1) <$> truth)) = length (edges g)).
    apply (Hsz "true_dist"). rewrite !lookup_insert_ne by done.
    apply lookup_singleton_eq.
  - done.
  - apply Forall_lookup_2. intros i l Hl.
    apply lookup_zip_with_Some in Hl as (d & y & -> & Hd & _).
    apply hinge1_nonneg. by eapply (Forall_lookup_1 _ _ _ _ Hpos).
  - intros k H1 H2 H3. rewrite lookup_union_r; [done|].
    rewrite !lookup_insert_ne by done. by apply lookup_singleton_ne.
  - done.
Qed.

(** X15: a label that is neither 0 nor 1 gives a hinge target that is
    neither -1 nor 1, and such an edge pays both terms: its loss is
    [max(0, 1 - d) + d], at least 1. *)
Theorem other_labels_pay_both_terms g e tt truth :
  graph_wf g →
  ndata g !! "emb" = Some (TMat e) →
  length e = num_nodes g →
  edata g !! "truth" = Some tt →
  as_float tt = Some truth →
  length truth = length (edges g) →
  ∃ g' loss pred,
    apply_edges get_emb_for_loss g = Some g' ∧
    edata g' !! "loss" = Some (TVec loss) ∧
    edata g' !! "pred_dist" = Some (TVec pred) ∧
    ∀ p t d, truth !! p = Some t → t ≠ 0 → t ≠ 1 → pred !! p = Some d →
      ∃ l, loss !! p = Some l ∧ l = Rmax 0 (1 - d) + d ∧ 1 <= l.
Proof.
  intros Hg He Hn Ht Hf Hl.
  destruct (get_emb_for_loss_spec g e tt truth Hg He Hn Ht Hf Hl)
    as (g' & loss & pred & Hap & _ & Hloss & Hpred & _ & _ & _ & Hedge).
  exists g', loss, pred. split_and!; [done..|].
  intros p t d Htp Ht0 Ht1 Hd.
  destruct (lookup_lt_is_Some_2 (edges g) p) as [[i j] Hp].
  { apply lookup_lt_Some in Htp. lia. }
  destruct (Hedge p i j t Hp Htp) as (u & v & _ & _ & Hpp & Hlp).
  rewrite Hd in Hpp. injection Hpp as ->.
  eexists. split; [exact Hlp|].
  rewrite hinge1_other by lra. split; [done|].
  unfold Rmax. destruct (Rle_dec _ _); lra.
Qed.

(** ** Training *)

Lemma rsum_nonneg l : Forall (λ x, 0 <= x) l → 0 <= rsum l.
Proof.
  induction 1 as [|x l Hx _ IH]; cbn; [lra|]. unfold rsum in IH. lra.
Qed.

Lemma mean_nonneg l : Forall (λ x, 0 <= x) l → 0 <= mean l.
Proof.
  intros Hl. unfold mean. destruct l as [|x l].
  - cbn. unfold Rdiv. lra.
  - pose proof (rsum_nonneg _ Hl) as Hs.
    assert (Hn : 0 < INR (length (x :: l))) by (apply lt_0_INR; cbn; lia).
    apply Rinv_0_lt_compat in Hn. unfold Rdiv. nra.
Qed.

Lemma count_true_le l : (count_true l ≤ length l)%nat.
Proof. unfold count_true. apply length_filter. Qed.

(** With one value per edge on both sides, the accuracy is a fraction. *)
Lemma accuracy_range pred truth score :
  length pred = length truth →
  score_dist_accuracy pred truth = Some score → 0 <= score <= 1.
Proof.
  intros Hl. unfold score_dist_accuracy.
  rewrite tensor_eq_same_length by (by rewrite !length_fmap).
  cbn. case_guard as Hn; [|done]. cbn. intros [= <-].
  set (c := count_true _).
  assert (Hc : (c ≤ length truth)%nat).
  { unfold c. etrans; [apply count_true_le|].
    rewrite length_zip_with, !length_fmap. lia. }
  apply le_INR in Hc. pose proof (pos_INR c) as H0.
  assert (Hpos : 0 < INR (length truth)) by (apply lt_0_INR; lia).
  assert (Hinv : 0 < / INR (length truth)) by (by apply Rinv_0_lt_compat).
  assert (Hone : INR (length truth) * / INR (length truth) = 1)
    by (field; lra).
  unfold Rdiv. split; nra.
Qed.

Lemma accuracy_returns pred truth :
  length pred = length truth → truth ≠ [] →
  is_Some (score_dist_accuracy pred truth).
Proof.
  intros Hl Hne. unfold score_dist_accuracy.
  rewrite tensor_eq_same_length by (by rewrite !length_fmap).
  cbn. rewrite option_guard_True by (by destruct truth). by eexists.
Qed.

Section Training.
Context `{Autograd}.

(** A batch whose forward pass and edge function return is left with the
    accuracy to compute. *)
Lemma batch_loss_form net b emb g' net' g2 :
  GNN_forward net b.1 = Some (emb, g', net') →
  length emb = num_nodes b.2 →
  apply_edges get_emb_for_loss
    (with_ndata (<["emb" := TMat emb]> (ndata b.2)) b.2) = Some g2 →
  ∃ lv pred tt truth,
    edata b.2 !! "truth" = Some tt ∧ as_float tt = Some truth ∧
    Forall (λ x, 0 <= x) lv ∧
    length lv = length (edges b.2) ∧
    length pred = length (edges b.2) ∧
    length truth = length (edges b.2) ∧
    batch_loss net b
    = score ← score_dist_accuracy pred truth; Some (mean lv, score, net').
Proof.
  intros Hfw Hn Hap. unfold batch_loss. rewrite Hfw.
  cbn [mbind option_bind fst snd].
  unfold set_ndata. rewrite option_guard_True by done.
  cbn [mbind option_bind mret option_ret]. rewrite Hap.
  cbn [mbind option_bind].
  unfold apply_edges in Hap.
  destruct (get_emb_for_loss _) as [out|] eqn:Hout; [|done]. cbn in Hap.
  case_guard as Hsz; [|done]. cbn in Hap. injection Hap as <-.
  apply get_emb_for_loss_inv in Hout
    as (src & dst & tt & truth & _ & _ & Hsd & Htt & Hfl & Hts & ->).
  cbn in Htt.
  set (pred := zip_with (row_distance pairwise_eps) src dst) in *.
  set (target := (λ t, t * 2 - 1) <$> truth) in *.
  set (lv := zip_with (hinge1 1) pred target) in *.
  assert (Hlv : length lv = length (edges b.2))
    by exact (Hsz "loss" (TVec lv) (lookup_insert_eq _ _ _)).
  assert (Hlp : length pred = length (edges b.2)).
  { change (size0 (TVec pred) = length (edges b.2)).
    apply (Hsz "pred_dist"). rewrite lookup_insert_ne by done.
    apply lookup_insert_eq. }
  exists lv, pred, tt, truth. split_and!; try done.
  { apply Forall_lookup_2. intros i l Hl.
    apply lookup_zip_with_Some in Hl as (d & y & -> & Hd & _).
    apply hinge1_nonneg.
    apply lookup_zip_with_Some in Hd as (u & v & -> & _).
    apply row_distance_nonneg. }
  { unfold pred in Hlp. rewrite length_zip_with in Hlp. lia. }
  unfold pop_edata. cbn [edata with_edata with_ndata].
  rewrite (lookup_union_Some_l _ _ _ (TVec lv)) by apply lookup_insert_eq.
  cbn [mbind option_bind fst snd as_float edata with_edata].
  rewrite lookup_delete_ne by done.
  rewrite (lookup_union_Some_l _ _ _ (TVec pred))
    by (rewrite lookup_insert_ne by done; apply lookup_insert_eq).
  cbn [mbind option_bind fst snd as_float edata with_edata].
  rewrite !lookup_delete_ne by done.
  rewrite lookup_union_r
    by (rewrite !lookup_insert_ne by done; by apply lookup_singleton_ne).
  rewrite Htt. cbn [mbind option_bind fst snd as_float]. rewrite Hfl.
  cbn [mbind option_bind]. done.
Qed.

Lemma batch_loss_inv net b loss score net' :
  batch_loss net b = Some (loss, score, net') →
  ∃ emb g' lv pred truth,
    GNN_forward net b.1 = Some (emb, g', net') ∧
    length emb = num_nodes b.2 ∧
    loss = mean lv ∧
    Forall (λ x, 0 <= x) lv ∧
    length lv = length (edges b.2) ∧
    length pred = length (edges b.2) ∧
    length truth = length (edges b.2) ∧
    score_dist_accuracy pred truth = Some score.
Proof.
  intros Hb.
  assert (Hsteps : ∃ emb g' net1 g2,
            GNN_forward net b.1 = Some (emb, g', net1) ∧
            length emb = num_nodes b.2 ∧
            apply_edges get_emb_for_loss
              (with_ndata (<["emb" := TMat emb]> (ndata b.2)) b.2) = Some g2).
  { unfold batch_loss in Hb.
    destruct (GNN_forward net b.1) as [[[emb g'] net1]|]; [|done].
    cbn [mbind option_bind fst snd] in Hb.
    destruct (set_ndata "emb" (TMat emb) b.2) as [g1|] eqn:Hs; [|done].
    apply set_ndata_Some in Hs as [Hn ->].
    cbn [mbind option_bind] in Hb.
    destruct (apply_edges get_emb_for_loss _) as [g2|] eqn:Hap; [|done].
    by exists emb, g', net1, g2. }
  destruct Hsteps as (emb & g' & net1 & g2 & Hfw & Hn & Hap).
  destruct (batch_loss_form _ _ _ _ _ _ Hfw Hn Hap)
    as (lv & pred & tt & truth & _ & _ & Hpos & Hlv & Hlp & Hlt & Hrun).
  rewrite Hrun in Hb.
  destruct (score_dist_accuracy pred truth) as [s|] eqn:Hsc; [|done].
  cbn in Hb. injection Hb as <- <- <-.
  by exists emb, g', lv, pred, truth.
Qed.

(** X18: a training batch that goes through yields a loss that is not
    negative and an accuracy between 0 and 1, whatever the labels of the
    pairs; the ground-truth graph then has as many nodes as the embedding
    has rows. *)
Theorem batch_reports_a_loss_and_a_fraction net b loss score net' :
  batch_loss net b = Some (loss, score, net') →
  0 <= loss ∧ 0 <= score <= 1 ∧
  ∃ emb g', GNN_forward net b.1 = Some (emb, g', net') ∧
            num_nodes b.2 = length emb.
Proof.
  intros Hb.
  apply batch_loss_inv in Hb
    as (emb & g' & lv & pred & truth & Hfw & Hn & -> & Hlv & _ & Hp & Ht & Hs).
  split; [by apply mean_nonneg|].
  split; [eapply accuracy_range; [|exact Hs]; congruence|].
  by exists emb, g'.
Qed.

(** X19: when the two graphs of a batch differ in their number of
    nodes, the training step raises: the embedding of the input graph
    cannot be stored on the ground-truth graph. *)
Theorem batch_needs_matching_graphs net b feat :
  ndata b.1 !! "feat" = Some (TMat feat) →
  length feat = num_nodes b.1 →
  num_nodes b.1 ≠ num_nodes b.2 →
  batch_loss net b = None.
Proof.
  intros Hfeat Hn Hne. unfold batch_loss.
  destruct (GNN_forward net b.1) as [[[emb g'] net1]|] eqn:Hfw; [|done].
  cbn. pose proof (GNN_forward_rows _ _ _ _ _ _ Hfeat Hn Hfw) as Hrows.
  unfold set_ndata. rewrite option_guard_False; [done|]. cbn. congruence.
Qed.

(** X29: when the forward pass returns and the ground-truth graph carries
    one label per edge, the training batch goes through exactly when
    that graph has an edge: without any, the accuracy divides by zero. *)
Theorem batch_goes_through_iff_an_edge net b emb g' net' tt truth :
  GNN_forward net b.1 = Some (emb, g', net') →
  length emb = num_nodes b.2 →
  graph_wf b.2 →
  edata b.2 !! "truth" = Some tt →
  as_float tt = Some truth →
  length truth = length (edges b.2) →
  is_Some (batch_loss net b) ↔ edges b.2 ≠ [].
Proof.
  intros Hfw Hn Hg Ht Hf Hl.
  destruct (get_emb_for_loss_spec
              (with_ndata (<["emb" := TMat emb]> (ndata b.2)) b.2) emb tt truth)
    as (g2 & loss & pred & Hap & _);
    [done|apply lookup_insert_eq|done..|].
  destruct (batch_loss_form _ _ _ _ _ _ Hfw Hn Hap)
    as (lv & pred' & tt' & truth' & Ht' & Hf' & _ & _ & Hlp & Hlt & ->).
  rewrite Ht in Ht'. injection Ht' as <-. rewrite Hf in Hf'. injection Hf' as <-.
  split.
  - intros [r Hr] He. rewrite He in Hlt.
    destruct truth; [|done].
    by rewrite accuracy_of_nothing in Hr.
  - intros He.
    destruct (accuracy_returns pred' truth) as [s Hs]; [congruence| |].
    + intros ->. by destruct (edges b.2).
    + rewrite Hs. by eexists.
Qed.

(** *** One epoch *)

Lemma io_bind_fails {A B} (m : IO A) (f : A → IO B) log :
  (∀ x log', m log = (Some x, log') → (f x log').1 = None) →
  ((m ≫= f) log).1 = None.
Proof.
  intros Hf. unfold mbind, IO_bind.
  destruct (m log) as [[x|] log'] eqn:Hm; [by apply Hf|done].
Qed.

Lemma io_bind_Some {A B} (m : IO A) (f : A → IO B) log y log' :
  (m ≫= f) log = (Some y, log') →
  ∃ x log1, m log = (Some x, log1) ∧ f x log1 = (Some y, log').
Proof.
  unfold mbind, IO_bind. destruct (m log) as [[x|] log1]; [eauto|done].
Qed.

Lemma epoch_batches n bs : length (batch_sizes n bs true) = (n / bs)%nat.
Proof.
  unfold batch_sizes. cbn. by rewrite app_nil_r, length_replicate.
Qed.

Lemma train_step_without_half bs nb acc ib log :
  (nb / 2 = 0)%nat → (train_step bs nb acc ib log).1 = None.
Proof.
  intros Hnb. unfold train_step.
  apply io_bind_fails. intros b log1 _.
  apply io_bind_fails. intros [[loss score] net1] log2 _.
  destruct (backward_step _ _ _) as [net2 opt2].
  apply io_bind_fails. intros x log3 Hx.
  unfold lift in Hx. injection Hx as Hx _.
  by rewrite option_guard_False in Hx by lia.
Qed.

(** X20: [train_one_epoch] raises whenever the dataset holds fewer than
    two full batches: with one batch the progress test divides by
    [nb_batch // 2 = 0], with none the final averages divide by
    [nb_batch = 0]. *)
Theorem epoch_needs_two_batches net bs optimizer dataset rng log :
  (length dataset < 2 * bs)%nat →
  (train_one_epoch net bs optimizer dataset rng log).1 = None.
Proof.
  intros Hlt. unfold train_one_epoch. rewrite epoch_batches.
  assert (Hnb : (length dataset / bs = 0 ∨ length dataset / bs = 1)%nat).
  { destruct bs as [|bs]; [by left|].
    assert (length dataset / S bs < 2)%nat; [|lia].
    apply Nat.Div0.div_lt_upper_bound. lia. }
  apply io_bind_fails. intros _ log1 _.
  destruct (randperm rng (length dataset)) as [order rng1].
  apply io_bind_fails. intros items log2 _.
  destruct Hnb as [Hnb|Hnb]; rewrite Hnb.
  - apply io_bind_fails. intros acc log3 _.
    apply io_bind_fails. intros x log4 Hx.
    unfold lift in Hx. injection Hx as Hx _.
    by rewrite option_guard_False in Hx by lia.
  - apply io_bind_fails. intros acc log3 Hacc. exfalso.
    destruct (batch_sizes (length dataset) bs true) as [|s sizes] eqn:Hsz.
    { apply (f_equal length) in Hsz. rewrite epoch_batches in Hsz.
      cbn in Hsz. lia. }
    cbn in Hacc. apply io_bind_Some in Hacc as (acc1 & log' & Hstep & _).
    apply (f_equal fst) in Hstep.
    by rewrite train_step_without_half in Hstep.
Qed.

Lemma train_step_bounds bs nb acc ib log acc' log' (k : nat) :
  train_step bs nb acc ib log = (Some acc', log') →
  0 <= epoch_loss acc → 0 <= epoch_score acc <= 100 * INR k →
  0 <= epoch_loss acc' ∧ 0 <= epoch_score acc' <= 100 * INR (S k).
Proof.
  unfold train_step. intros Hstep Hl Hs.
  apply io_bind_Some in Hstep as (b & log1 & _ & Hstep).
  apply io_bind_Some in Hstep as ([[loss score] net1] & log2 & Hb & Hstep).
  unfold lift in Hb. injection Hb as Hb _.
  apply batch_loss_inv in Hb
    as (emb & g' & lv & pred & truth & _ & _ & -> & Hlv & _ & Hp & Ht & Hsc).
  pose proof (mean_nonneg _ Hlv) as Hloss.
  assert (Hscore : 0 <= score <= 1)
    by (eapply accuracy_range; [|exact Hsc]; congruence).
  destruct (backward_step _ _ _) as [net2 opt2].
  apply io_bind_Some in Hstep as (? & log3 & _ & Hstep).
  apply io_bind_Some in Hstep as (? & log4 & _ & Hstep).
  rewrite S_INR. unfold mret, IO_ret in Hstep. injection Hstep as <- _.
  cbn [epoch_loss epoch_score]. split; lra.
Qed.

Lemma epoch_fold_bounds bs nb l : ∀ acc log acc' log' (k : nat),
  io_foldl (train_step bs nb) acc l log = (Some acc', log') →
  0 <= epoch_loss acc → 0 <= epoch_score acc <= 100 * INR k →
  0 <= epoch_loss acc' ∧
  0 <= epoch_score acc' <= 100 * INR (k + length l).
Proof.
  induction l as [|ib l IH]; intros acc log acc' log' k Hf Hl Hs.
  - cbn in Hf. injection Hf as <- _. by rewrite Nat.add_0_r.
  - cbn [io_foldl] in Hf.
    apply io_bind_Some in Hf as (acc1 & log1 & Hstep & Hf).
    destruct (train_step_bounds _ _ _ _ _ _ _ k Hstep Hl Hs) as [Hl1 Hs1].
    destruct (IH _ _ _ _ (S k) Hf Hl1 Hs1) as [Hl2 Hs2].
    cbn [length]. by rewrite Nat.add_succ_r.
Qed.

(** X21: an epoch that returns gives an average loss that is not
    negative and an average accuracy between 0 and 100. *)
Theorem epoch_returns_bounded_averages net bs optimizer dataset rng log
    net' optimizer' rng' avg_loss avg_score log' :
  train_one_epoch net bs optimizer dataset rng log
  = (Some (net', optimizer', rng', (avg_loss, avg_score)), log') →
  0 <= avg_loss ∧ 0 <= avg_score <= 100.
Proof.
  unfold train_one_epoch. rewrite epoch_batches. intros Hrun.
  apply io_bind_Some in Hrun as (? & log1 & _ & Hrun).
  destruct (randperm rng (length dataset)) as [order rng1].
  apply io_bind_Some in Hrun as (items & log2 & _ & Hrun).
  apply io_bind_Some in Hrun as (acc & log3 & Hfold & Hrun).
  apply io_bind_Some in Hrun as (Hnb & log4 & _ & Hrun).
  injection Hrun as _ _ _ <- <- _.
  apply (epoch_fold_bounds _ _ _ _ _ _ _ 0%nat) in Hfold as [Hl Hs];
    [|cbn; lra..].
  rewrite length_zip, length_seq, length_reshape, epoch_batches in Hs.
  rewrite Nat.min_id, Nat.add_0_l in Hs.
  assert (Hpos : 0 < INR (length dataset / bs)) by (apply lt_0_INR; lia).
  assert (Hinv : 0 < / INR (length dataset / bs))
    by (by apply Rinv_0_lt_compat).
  assert (Hone : INR (length dataset / bs) * / INR (length dataset / bs) = 1)
    by (field; lra).
  unfold Rdiv. split_and!; nra.
Qed.

(** One step of the composition rules. *)
Ltac grow_step :=
  first
    [ apply no_file_io_ret
    | apply no_file_io_lift
    | apply no_file_io_emit; cbn; tauto
    | apply train_step_quiet
    | apply no_file_io_foldl; intros
    | apply no_file_io_bind; [|intros]
    | match goal with
      | |- no_file_io (let '(_, _) := ?p in _) => destruct p
      end ].


(** The first thing [train_one_epoch] does is print the number of
    samples it will use, the size of the dataset rounded down to a
    multiple of the batch size: fewer than [batch_size] samples are left
    out. *)
Lemma epoch_first_line net bs optimizer dataset rng log :
  (0 < bs)%nat →
  (length dataset / bs * bs ≤ length dataset)%nat ∧
  (length dataset < length dataset / bs * bs + bs)%nat ∧
  ∃ rest,
    (train_one_epoch net bs optimizer dataset rng log).2
    = log ++ EvPrint (OutTraining (length dataset / bs * bs)) :: rest.
Proof.
  intros Hbs.
  pose proof (Nat.div_mod_eq (length dataset) bs) as Hdm.
  pose proof (Nat.mod_upper_bound (length dataset) bs ltac:(lia)) as Hmod.
  split; [lia|]. split; [lia|].
  unfold train_one_epoch. rewrite epoch_batches.
  unfold mbind at 1, IO_bind at 1, emit at 1.
  match goal with |- ∃ rest, (?m ?l).2 = _ =>
    assert (Hq : no_file_io m) by (repeat grow_step);
    destruct (Hq l) as (rest & Hrest & _) end.
  exists rest. by rewrite Hrest, <- app_assoc.
Qed.

Lemma train_step_log bs nb acc ib log acc' log' :
  train_step bs nb acc ib log = (Some acc', log') →
  ∃ rest,
    log' = log ++ rest ∧
    Forall (λ e, is_Some (progress_at e)) rest ∧
    omap progress_at rest
    = if bool_decide ((ib.1 + 1) mod (nb / 2) = 0)%nat
      then [((ib.1 + 1) * bs)%nat] else [].
Proof.
  unfold train_step. intros Hstep.
  apply io_bind_Some in Hstep as (b & log1 & Hb & Hstep).
  unfold lift in Hb. injection Hb as _ <-.
  apply io_bind_Some in Hstep as ([[loss score] net1] & log2 & Hr & Hstep).
  unfold lift in Hr. injection Hr as _ <-.
  destruct (backward_step _ _ _) as [net2 opt2].
  apply io_bind_Some in Hstep as (? & log3 & Hg & Hstep).
  unfold lift in Hg. injection Hg as _ <-.
  apply io_bind_Some in Hstep as (? & log4 & Hif & Hstep).
  unfold mret, IO_ret in Hstep. injection Hstep as _ <-.
  destruct (bool_decide _).
  - unfold emit in Hif. injection Hif as <-. eexists.
    split; [done|]. split; [|done]. by repeat constructor.
  - unfold mret, IO_ret in Hif. injection Hif as <-.
    exists []. by rewrite app_nil_r.
Qed.

Lemma epoch_fold_log bs nb l : ∀ acc log acc' log',
  io_foldl (train_step bs nb) acc l log = (Some acc', log') →
  ∃ rest,
    log' = log ++ rest ∧
    Forall (λ e, is_Some (progress_at e)) rest ∧
    omap progress_at rest
    = (λ i, ((i + 1) * bs)%nat)
        <$> filter (λ i, ((i + 1) mod (nb / 2) = 0)%nat) (fst <$> l).
Proof.
  induction l as [|ib l IH]; intros acc log acc' log' Hf.
  - cbn in Hf. injection Hf as _ <-. exists []. by rewrite app_nil_r.
  - cbn [io_foldl] in Hf.
    apply io_bind_Some in Hf as (acc1 & log1 & Hstep & Hf).
    apply train_step_log in Hstep as (r1 & -> & Hp1 & Hr1).
    apply IH in Hf as (r2 & -> & Hp2 & Hr2).
    exists (r1 ++ r2). rewrite app_assoc. split; [done|].
    split; [by apply Forall_app|].
    rewrite omap_app, Hr1, Hr2, fmap_cons, filter_cons.
    destruct (decide ((ib.1 + 1) mod (nb / 2) = 0)%nat) as [Hd|Hd].
    + by rewrite bool_decide_eq_true_2.
    + by rewrite bool_decide_eq_false_2.
Qed.

(** X30: an epoch that returns has printed, after its first line, one
    progress line for every batch whose number is a multiple of
    [nb_batch // 2], each reporting the number of samples processed so
    far, and nothing else. *)
Theorem epoch_reports_progress_every_half net bs optimizer dataset rng log
    result log' :
  train_one_epoch net bs optimizer dataset rng log = (Some result, log') →
  ∃ rest,
    log' = log ++ EvPrint (OutTraining (length dataset / bs * bs)) :: rest ∧
    Forall (λ e, is_Some (progress_at e)) rest ∧
    omap progress_at rest
    = (λ i, ((i + 1) * bs)%nat)
        <$> filter (λ i, ((i + 1) mod (length dataset / bs / 2) = 0)%nat)
              (seq 0 (length dataset / bs)).
Proof.
  unfold train_one_epoch. rewrite epoch_batches. intros Hrun.
  apply io_bind_Some in Hrun as (? & log1 & He & Hrun).
  unfold emit in He. injection He as He. subst log1.
  destruct (randperm rng (length dataset)) as [order rng1].
  apply io_bind_Some in Hrun as (items & log2 & Hi & Hrun).
  unfold lift in Hi. injection Hi as _ <-.
  apply io_bind_Some in Hrun as (acc & log3 & Hfold & Hrun).
  apply io_bind_Some in Hrun as (Hnb & log4 & Hg & Hrun).
  unfold lift in Hg. injection Hg as _ <-.
  unfold mret, IO_ret in Hrun. injection Hrun as _ <-.
  apply epoch_fold_log in Hfold as (rest & -> & Hprog & Hrest).
  exists rest. rewrite <- app_assoc. split; [done|]. split; [done|].
  rewrite Hrest, fst_zip; [done|].
  by rewrite length_seq, length_reshape, epoch_batches.
Qed.

End Training.

(** ** Plotting the clusters *)

Lemma gather_where_from (x : list R) (g : Z) (pid : list Z) : ∀ o,
  (o + length pid ≤ length x)%nat →
  gather x (fst <$> filter (λ p : nat * Z, p.2 = g)
                      (zip (seq o (length pid)) pid))
  = Some (points_of (drop o x) pid g).
Proof.
  unfold gather, points_of.
  induction pid as [|p pid IH]; intros o Ho;
    [cbn; by rewrite zip_with_nil_r|].
  cbn [length] in Ho.
  destruct (lookup_lt_is_Some_2 x o) as [xo Hxo]; [lia|].
  rewrite (drop_S _ _ _ Hxo). cbn [length seq zip zip_with].
  rewrite !filter_cons. cbn [fst snd].
  specialize (IH (S o) ltac:(lia)).
  destruct (decide (p = g)); [|done].
  rewrite !fmap_cons. cbn [fst].
  change (mapM (λ i, x !! i) (o :: ?l))
    with (y ← x !! o; k ← mapM (λ i, x !! i) l; mret (y :: k)).
  by rewrite Hxo, IH.
Qed.

Lemma gather_where (x : list R) (pid : list Z) (g : Z) :
  (length pid ≤ length x)%nat →
  gather x (where_eq pid g) = Some (points_of x pid g).
Proof.
  intros Hl. unfold where_eq. rewrite (gather_where_from x g pid 0) by lia.
  by rewrite drop_0.
Qed.

Lemma sorted_nodup_strict (l : list Z) :
  StronglySorted Z.le l → NoDup l → StronglySorted Z.lt l.
Proof.
  induction 1 as [|a l Hs IH Ha]; intros Hnd; [constructor|].
  apply NoDup_cons in Hnd as [Hnotin Hnd].
  constructor; [by apply IH|].
  apply Forall_forall. intros b Hb.
  pose proof (proj1 (Forall_forall _ _) Ha b Hb) as Hle.
  assert (a ≠ b) by (intros ->; done). lia.
Qed.

Section Plots.
Context `{Autograd}.

Lemma io_for_emits {A} (f : A → IO ()) (ev : A → event) (l : list A) : ∀ log,
  (∀ a log', f a log' = (Some (), log' ++ [ev a])) →
  io_for f l log = (Some (), log ++ (ev <$> l)).
Proof.
  induction l as [|a l IH]; intros log Hf.
  - cbn. by rewrite app_nil_r.
  - cbn [io_for]. unfold mbind, IO_bind. rewrite Hf, (IH _ Hf).
    cbn. by rewrite <- app_assoc.
Qed.

(** X23: given coordinates for every hit, [plot_clusters] draws one
    scatter per distinct particle id, in increasing order of the ids, each
    with exactly the points of that particle, and then shows the figure
    once. *)
Theorem plot_clusters_draws_each_particle_once x y pid log :
  (length pid ≤ length x)%nat →
  (length pid ≤ length y)%nat →
  ∃ labels,
    StronglySorted Z.lt labels ∧
    (∀ g, g ∈ labels ↔ g ∈ pid) ∧
    plot_clusters x y pid log
    = (Some (),
       log ++ ((λ g, EvScatter (points_of x pid g) (points_of y pid g) g)
                 <$> labels)
           ++ [EvShow]).
Proof.
  intros Hx Hy. exists (merge_sort Z.le (remove_dups pid)).
  split_and!.
  - apply sorted_nodup_strict.
    + apply StronglySorted_merge_sort; apply _.
    + rewrite merge_sort_Permutation. apply NoDup_remove_dups.
  - intros g. rewrite merge_sort_Permutation. apply elem_of_remove_dups.
  - unfold plot_clusters, mbind, IO_bind.
    rewrite (io_for_emits _
               (λ g, EvScatter (points_of x pid g) (points_of y pid g) g)).
    + unfold emit. by rewrite app_assoc.
    + intros g log'. unfold mbind, IO_bind, lift, emit.
      by rewrite !gather_where.
Qed.

End Plots.

(** ** The embedded samples and the scoring loop *)

Section Samples.
Context `{Library}.

Lemma sample_tables_missing st i :
  (length (emb_gnn st) ≤ i)%nat ∨ (length (pid st) ≤ i)%nat ∨
  (length (weight_ st) ≤ i)%nat →
  sample_tables st i = None.
Proof.
  intros Hi. unfold sample_tables.
  destruct (emb_gnn st !! i) as [e|] eqn:He; [|done]. cbn.
  destruct (pid st !! i) as [p|] eqn:Hp; cbn; [|done].
  destruct (as_int p) as [pv|]; cbn; [|done].
  destruct (weight_ st !! i) as [w|] eqn:Hw; cbn; [|done].
  apply lookup_lt_Some in He, Hp, Hw. lia.
Qed.

Lemma final_score_short st :
  (length (emb_gnn st) < nb_samples)%nat ∨
  (length (pid st) < nb_samples)%nat ∨
  (length (weight_ st) < nb_samples)%nat →
  final_score st = None.
Proof.
  intros Hshort. rewrite final_score_mean.
  destruct (mapM (sample_tables st) (seq 0 nb_samples)) as [tables|] eqn:Ht;
    [|done].
  exfalso.
  set (i := ((length (emb_gnn st) `min` length (pid st))
               `min` length (weight_ st))%nat).
  assert (Hi : (i < nb_samples)%nat) by lia.
  destruct (mapM_lookup_Some _ _ _ _ _ Ht (lookup_seq_lt 0 _ _ Hi))
    as [_ [tb Htb]].
  cbn in Htb. rewrite sample_tables_missing in Htb; [done|]. lia.
Qed.

Lemma forward_all_lookup gs : ∀ net es net' i g,
  forward_all net gs = Some (es, net') →
  gs !! i = Some g →
  ∃ net_i e g' net_i',
    GNN_forward net_i g = Some (e, g', net_i') ∧ es !! i = Some e.
Proof.
  induction gs as [|g0 gs IH]; intros net es net' i g Hf Hi; [done|].
  cbn in Hf. inv_bind Hf.
  match goal with r : (list (list R) * DGLGraph * GNN)%type |- _ =>
    destruct r as [[e0 g0'] n1] end.
  match goal with r : (list (list (list R)) * GNN)%type |- _ =>
    destruct r as [es1 n2] end.
  cbn in Hf. injection Hf as <- <-.
  destruct i as [|i]; cbn in Hi.
  - injection Hi as ->. by exists net, e0, g0', n1.
  - match goal with Hr : forward_all _ _ = Some _ |- _ =>
      destruct (IH _ _ _ i g Hr Hi) as (ni & e & g' & ni' & Hfw & He) end.
    by exists ni, e, g', ni'.
Qed.

(** X24: the embedding loop keeps its five lists aligned: each has one
    entry per sample, in the order of the dataset, and the embedding of a
    sample has one row per hit. *)
Theorem embedding_lists_stay_aligned net dataset net' st :
  embed_samples net dataset = Some (net', st) →
  length (orig_xyz st) = length dataset ∧
  length (emb_metric st) = length dataset ∧
  length (emb_gnn st) = length dataset ∧
  length (pid st) = length dataset ∧
  length (weight_ st) = length dataset ∧
  ∀ i b feat,
    dataset !! i = Some b →
    ndata b.1 !! "feat" = Some (TMat feat) →
    length feat = num_nodes b.1 →
    ∃ e, emb_gnn st !! i = Some e ∧ length e = length feat.
Proof.
  intros Hemb.
  destruct (embed_samples_spec _ _ _ _ Hemb)
    as (fs & ps & ws & Hfs & Hps & Hws & Hall & -> & -> & -> & ->).
  apply length_mapM in Hfs, Hps, Hws.
  pose proof (forward_all_length _ _ _ _ Hall) as Hes.
  rewrite length_fmap in Hes. rewrite !length_fmap.
  split_and!; try done.
  intros i b feat Hb Hfeat Hn.
  destruct (forward_all_lookup _ _ _ _ i b.1 Hall)
    as (ni & e & g' & ni' & Hfw & He); [by rewrite list_lookup_fmap, Hb|].
  exists e. split; [done|].
  rewrite (GNN_forward_rows _ _ _ _ _ _ Hfeat Hn Hfw). done.
Qed.

(** X25: the scoring loop reads the first 20 entries whatever the size
    of the dataset: it returns only if at least 20 samples were
    embedded. *)
Theorem scoring_needs_twenty_samples st score :
  final_score st = Some score →
  (nb_samples ≤ length (emb_gnn st))%nat ∧
  (nb_samples ≤ length (pid st))%nat ∧
  (nb_samples ≤ length (weight_ st))%nat.
Proof.
  intros Hs.
  destruct (decide ((length (emb_gnn st) < nb_samples)%nat ∨
                    (length (pid st) < nb_samples)%nat ∨
                    (length (weight_ st) < nb_samples)%nat)) as [Hshort|Hok].
  - by rewrite final_score_short in Hs.
  - lia.
Qed.

End Samples.

(** ** The notebook on a short file *)

Section Whole.
Context `{Autograd}.


Lemma cell_setup_dataset samples rng log dataset net optim rng' log' :
  cell_setup samples rng log = (Some (dataset, net, optim, rng'), log') →
  TrackML_Dataset samples = Some dataset.
Proof.
  unfold cell_setup. intros Hs.
  apply io_bind_Some in Hs as (ds & log1 & Hds & Hs).
  unfold lift in Hds. injection Hds as Hds _.
  destruct (GNN_new _ _ _ _ _ _) as [net0 rng0].
  apply io_bind_Some in Hs as (? & log2 & _ & Hs).
  unfold mret, IO_ret in Hs. by injection Hs as -> _ _ _ _.
Qed.

Lemma after_load_short rng samples log :
  (length samples < nb_samples)%nat → (after_load rng samples log).1 = None.
Proof.
  intros Hlt. unfold after_load.
  apply io_bind_fails. intros _ log1 _.
  apply io_bind_fails. intros _ log2 _.
  apply io_bind_fails. intros [[[dataset net] optim] rng1] log3 Hsetup.
  apply cell_setup_dataset in Hsetup. apply length_mapM in Hsetup.
  apply io_bind_fails. intros [[net1 optim1] rng2] log4 _.
  apply io_bind_fails. intros [net2 st] log5 Hemb.
  unfold lift in Hemb. injection Hemb as Hemb _.
  destruct (embed_samples_spec _ _ _ _ Hemb)
    as (_ & _ & _ & _ & _ & _ & Hall & _).
  apply forward_all_length in Hall. rewrite length_fmap in Hall.
  apply io_bind_fails. intros _ log6 _.
  apply io_bind_fails. intros score log7 Hscore.
  unfold lift in Hscore. injection Hscore as Hscore _.
  rewrite final_score_short in Hscore; [done|]. cbn [snd]. lia.
Qed.

(** X26: on a file with fewer than 20 samples the notebook raises
    before it reports a score. *)
Theorem notebook_needs_twenty_samples fs rng samples log :
  fs !! "tracks.pickle" = Some samples →
  (length samples < 20)%nat →
  (notebook fs rng log).1 = None.
Proof.
  intros Hfs Hlt. unfold notebook.
  apply io_bind_fails. intros x log' Hx.
  unfold cell_load, load_pickle, mbind, IO_bind, emit, lift, mret, IO_ret in Hx.
  rewrite Hfs in Hx. injection Hx as <- _.
  by apply after_load_short.
Qed.

End Whole.

(** ** The further properties on concrete inputs *)

Lemma plain_reset_well_shaped : reset_well_shaped (H := plain_library).
Proof.
  intros rng i o. repeat split; cbn.
  - apply length_replicate.
  - apply Forall_replicate, length_replicate.
  - apply length_replicate.
Qed.

Lemma kernel_new_layers_compose_witness :
  length (layers (MLP_Kernel_DGL_new (H := plain_library) () 6 32 1 1).1)
  = 2%nat ∧
  ∃ y, kernel_f (MLP_Kernel_DGL_new (H := plain_library) () 6 32 1 1).1
         (replicate 12 0) = Some y ∧
       length y = 1%nat.
Proof.
  destruct (kernel_new_layers_compose (H := plain_library) () 6 32 1 1
              plain_reset_well_shaped) as (Hlen & _ & Hf).
  split; [exact Hlen|]. apply Hf. reflexivity.
Defined.

Lemma kernel_rejects_other_widths_witness :
  MLP_Kernel_DGL_forward (edge_weighting unit_layer) wide_hits = None.
Proof.
  apply (kernel_rejects_other_widths 1 1 1 1 (edge_weighting unit_layer)
           wide_hits [[1; 1]; [2; 2]] 2).
  - apply unit_layer_init.
  - repeat constructor.
  - reflexivity.
  - reflexivity.
  - repeat constructor.
  - discriminate.
  - discriminate.
Defined.

Lemma layer_without_norm_witness :
  ∃ emb g' l',
    GNN_Layer_forward (GNN_Layer_new (H := plain_library) () 1 1 1 false).1
      two_hits [[1]; [2]] = Some (emb, g', l') ∧
    l' = (GNN_Layer_new (H := plain_library) () 1 1 1 false).1 ∧
    ndata g' !! "feat" = Some (TMat [[1]; [2]]).
Proof.
  assert (Hrun : ∃ r,
            GNN_Layer_forward
              (GNN_Layer_new (H := plain_library) () 1 1 1 false).1
              two_hits [[1]; [2]] = Some r)
    by (eexists; vm_compute; reflexivity).
  destruct Hrun as ([[emb g'] l'] & Hrun).
  destruct (layer_without_norm (H := plain_library) () 1 1 1 two_hits
              [[1]; [2]] emb g' l' Hrun) as (Hl & Hf & _).
  by exists emb, g', l'.
Defined.

Lemma layer_output_is_nonnegative_witness :
  ∃ emb g' l',
    GNN_Layer_forward (H := plain_library) unit_layer two_hits [[1]; [2]]
      = Some (emb, g', l') ∧
    Forall (λ r, length r = 1%nat ∧ Forall (λ c, 0 <= c) r) emb.
Proof.
  destruct unit_layer_on_two_hits as (g' & l' & Hrun).
  destruct (layer_output_is_nonnegative (H := plain_library) 1 1 1 unit_layer
              two_hits _ _ _ _ unit_layer_init Hrun) as [_ Hpos].
  eexists _, g', l'. split; [exact Hrun|exact Hpos].
Defined.

Lemma isolated_node_sees_only_itself_witness :
  ∃ emb g' l' y,
    GNN_Layer_forward (H := plain_library) unit_layer one_way_hits [[1]; [2]]
      = Some (emb, g', l') ∧
    linear_row (fc unit_layer) ([1] ++ zeros 1) = Some y ∧
    emb !! 0%nat = Some (relu <$> y).
Proof.
  apply (isolated_node_sees_only_itself (H := plain_library) 1 1 1 unit_layer
           one_way_hits [[1]; [2]] [[1]; [2]] 0 [1]).
  - apply unit_layer_init.
  - repeat constructor.
  - by exists ().
  - reflexivity.
  - repeat constructor.
  - discriminate.
  - repeat constructor. discriminate.
  - reflexivity.
Defined.

Lemma layer_forward_writes_three_fields_witness :
  ∃ emb g' l' x w agg,
    GNN_Layer_forward (H := plain_library) unit_layer two_hits [[1]; [2]]
      = Some (emb, g', l') ∧
    ndata g' = <["agg_msg" := TMat agg]> (<["feat" := TMat x]> (ndata two_hits)) ∧
    edata g' = <["e" := TMat w]> (edata two_hits).
Proof.
  destruct unit_layer_on_two_hits as (g' & l' & Hrun).
  destruct (layer_forward_writes_three_fields (H := plain_library) unit_layer
              two_hits _ _ _ _ Hrun)
    as (_ & _ & x & w & agg & _ & Hn & He & _).
  eexists _, g', l', x, w, agg. by split_and!.
Defined.

Lemma GNN_new_layers_witness :
  GNN_init (H := plain_library) 32 32 6 2
    (GNN_new (H := plain_library) () 32 4 32 6 2).1 ∧
  length (gnn_layers (GNN_new (H := plain_library) () 32 4 32 6 2).1) = 4%nat.
Proof.
  destruct (GNN_new_layers (H := plain_library) () 32 4 32 6 2
              plain_reset_well_shaped) as (Hinit & Hlen & _).
  split; [exact Hinit|exact Hlen].
Defined.

Lemma small_net_on_linked_pair :
  ∃ r, GNN_forward (H := plain_library) small_net linked_pair_graphs.1 = Some r.
Proof. eexists. vm_compute. reflexivity. Qed.

Lemma forward_consumes_feat_only_witness :
  ∃ emb g' net',
    GNN_forward (H := plain_library) small_net linked_pair_graphs.1
      = Some (emb, g', net') ∧
    ndata g' !! "pid" = Some (TInt [7%Z; 7%Z]) ∧
    ndata g' !! "weight" = Some (TVec [1; 1]).
Proof.
  destruct small_net_on_linked_pair as ([[emb g'] net'] & Hrun).
  destruct (forward_consumes_feat_only (H := plain_library) small_net
              linked_pair_graphs.1 emb g' net' Hrun)
    as (_ & _ & Hn & _).
  exists emb, g', net'. split; [exact Hrun|].
  split; (rewrite Hn by done; reflexivity).
Defined.

Lemma forward_embedding_shape_witness :
  ∃ emb g' net',
    GNN_forward (H := plain_library) small_net linked_pair_graphs.1
      = Some (emb, g', net') ∧
    length emb = 2%nat ∧ Forall (λ r, length r = 2%nat) emb.
Proof.
  destruct small_net_on_linked_pair as ([[emb g'] net'] & Hrun).
  destruct (forward_embedding_shape (H := plain_library) 1 1 6 2 small_net
              linked_pair_graphs.1 [[0; 0; 0; 0; 0; 0]; [1; 0; 0; 0; 0; 1]]
              emb g' net' small_net_init eq_refl eq_refl Hrun) as [Hl Hw].
  by exists emb, g', net'.
Defined.

Lemma forward_keeps_the_parameters_witness :
  ∃ emb g' net',
    GNN_forward (H := plain_library) small_net linked_pair_graphs.1
      = Some (emb, g', net') ∧
    final_emb net' = final_emb small_net ∧
    GNN_init (H := plain_library) 1 1 6 2 net'.
Proof.
  destruct small_net_on_linked_pair as ([[emb g'] net'] & Hrun).
  destruct (forward_keeps_the_parameters (H := plain_library) small_net
              linked_pair_graphs.1 emb g' net' Hrun) as (Hf & _ & Hinit).
  exists emb, g', net'. split_and!; [done..|]. apply Hinit, small_net_init.
Defined.

Lemma two_linked_pairs_collated :
  ∃ r, trackml_collate [linked_pair_graphs; linked_pair_graphs] = Some r.
Proof. eexists. vm_compute. reflexivity. Qed.

Lemma running_norm_rowwise (b : RunningNorm) :
  length (running_mean b) = num_features b →
  length (running_var b) = num_features b →
  rowwise_norm (H := running_library) (num_features b) b.
Proof.
  intros Hm Hv. exists (norm_row (running_mean b) (running_var b)). split.
  - intros r Hr. unfold norm_row. rewrite length_zip_with, length_zip. lia.
  - intros x _ Hx. cbn. unfold RunningNorm_forward.
    by rewrite option_guard_True.
Qed.

Lemma eval_net_init : GNN_init (H := running_library) 1 1 6 2 eval_net.
Proof.
  eexists _, _. split; [reflexivity|].
  split; [repeat split; repeat constructor|].
  split; [repeat constructor|]. repeat split; repeat constructor.
Qed.

Lemma eval_net_rowwise : GNN_rowwise_norm (H := running_library) 1 6 eval_net.
Proof.
  split; [|repeat constructor].
  - apply (running_norm_rowwise
             (BatchNorm1d_init (Library := running_library) 6 (10 / 100)));
      reflexivity.
  - apply (running_norm_rowwise
             (BatchNorm1d_init (Library := running_library) 1 (10 / 100)));
      reflexivity.
Qed.

Lemma eval_net_eval :
  Forall (λ l, training l = false) (gnn_layers eval_net).
Proof. repeat constructor. Qed.

Lemma linked_pair_input_graph : input_graph 6 linked_pair_graphs.1.
Proof.
  split; [repeat constructor|]. split; [done|].
  eexists. split; [reflexivity|]. split; [reflexivity|].
  repeat constructor.
Qed.

Lemma two_linked_pairs_input :
  Forall (λ s : DGLGraph * DGLGraph, input_graph 6 s.1)
    [linked_pair_graphs; linked_pair_graphs].
Proof. repeat constructor; apply linked_pair_input_graph. Qed.

Lemma batch_embedding_is_the_samples_embeddings_witness :
  ∃ g_input g_true es g',
    trackml_collate [linked_pair_graphs; linked_pair_graphs]
      = Some (g_input, g_true) ∧
    Forall2 (λ (s : DGLGraph * DGLGraph) e,
               ∃ g1, GNN_forward eval_net s.1 = Some (e, g1, eval_net))
      [linked_pair_graphs; linked_pair_graphs] es ∧
    GNN_forward eval_net g_input = Some (concat es, g', eval_net).
Proof.
  destruct two_linked_pairs_collated as ([g_input g_true] & Hrun).
  destruct (batch_embedding_is_the_samples_embeddings (H := running_library)
              1 1 6 2 eval_net
              [linked_pair_graphs; linked_pair_graphs] g_input g_true
              eval_net_init eval_net_rowwise eval_net_eval
              two_linked_pairs_input Hrun) as (es & g' & Hes & Hfw).
  exists g_input, g_true, es, g'.
  split; [exact Hrun|]. split; [exact Hes|exact Hfw].
Defined.

Lemma collate_adds_up_the_graphs_witness :
  ∃ g_input g_true,
    trackml_collate [linked_pair_graphs; linked_pair_graphs]
      = Some (g_input, g_true) ∧
    num_nodes g_input = 4%nat ∧ num_nodes g_true = 4%nat ∧
    length (edges g_input) = 4%nat ∧ length (edges g_true) = 2%nat.
Proof.
  destruct two_linked_pairs_collated as ([g_input g_true] & Hrun).
  destruct (collate_adds_up_the_graphs _ _ _ Hrun)
    as (_ & Hni & Hnt & Hei & Het & _).
  exists g_input, g_true.
  split; [exact Hrun|]. split; [exact Hni|]. split; [exact Hnt|].
  split; [exact Hei|exact Het].
Defined.

Lemma collate_keeps_samples_apart_witness :
  ∃ g_input g_true,
    trackml_collate [linked_pair_graphs; linked_pair_graphs]
      = Some (g_input, g_true) ∧
    edges g_input = [(0, 1); (1, 0); (2, 3); (3, 2)]%nat ∧
    edges g_true = [(0, 1); (2, 3)]%nat ∧
    graph_wf g_input.
Proof.
  destruct two_linked_pairs_collated as ([g_input g_true] & Hrun).
  destruct (collate_keeps_samples_apart _ _ _ Hrun) as (Hei & Het & Hwf & _).
  exists g_input, g_true. split_and!; [done..|].
  apply Hwf. repeat constructor.
Defined.

Lemma collate_concatenates_the_fields_witness :
  ∃ g_input g_true,
    trackml_collate [linked_pair_graphs; linked_pair_graphs]
      = Some (g_input, g_true) ∧
    ndata g_input !! "pid" = Some (TInt [7; 7; 7; 7]%Z) ∧
    edata g_true !! "truth" = Some (TVec [1; 1]).
Proof.
  destruct two_linked_pairs_collated as ([g_input g_true] & Hrun).
  destruct (collate_concatenates_the_fields _ _ _ Hrun) as (_ & Hp & _ & Ht).
  exists g_input, g_true. split; [exact Hrun|]. split.
  - apply (Hp "pid" [[7; 7]; [7; 7]]%Z). reflexivity.
  - apply (Ht "truth" [[1]; [1]]). reflexivity.
Defined.

Lemma loss_is_never_negative_witness :
  ∃ g' loss pred,
    apply_edges get_emb_for_loss coincident_pair = Some g' ∧
    edata g' !! "loss" = Some (TVec loss) ∧
    edata g' !! "pred_dist" = Some (TVec pred) ∧
    Forall (λ d, 0 <= d) pred ∧ Forall (λ l, 0 <= l) loss ∧
    edata g' !! "truth" = Some (TVec [1]).
Proof.
  destruct (get_emb_for_loss_spec coincident_pair [[0]; [0]] (TVec [1]) [1])
    as (g' & _ & _ & Hrun & _); [repeat constructor|reflexivity..|].
  destruct (loss_is_never_negative coincident_pair g' Hrun)
    as (loss & pred & target & Hl & Hp & _ & _ & _ & _ & Hpos & Hlpos & Hk & _).
  exists g', loss, pred.
  split; [exact Hrun|]. split; [exact Hl|]. split; [exact Hp|].
  split; [exact Hpos|]. split; [exact Hlpos|].
  rewrite Hk by discriminate. reflexivity.
Defined.

Lemma other_labels_pay_both_terms_witness :
  ∃ g' loss pred,
    apply_edges get_emb_for_loss mislabelled_pair = Some g' ∧
    edata g' !! "loss" = Some (TVec loss) ∧
    edata g' !! "pred_dist" = Some (TVec pred) ∧
    ∀ p t d, [2] !! p = Some t → t ≠ 0 → t ≠ 1 → pred !! p = Some d →
      ∃ l, loss !! p = Some l ∧ l = Rmax 0 (1 - d) + d ∧ 1 <= l.
Proof.
  apply (other_labels_pay_both_terms mislabelled_pair [[0]; [0]] (TVec [2]) [2]);
    [repeat constructor|reflexivity..].
Defined.

Lemma accuracy_is_one_iff_half_separates_witness :
  score_dist_accuracy [0] [1] = Some 1 ↔
  Forall2 (λ d t : R, t = 1 ↔ -1 / 2 <= d <= 1 / 2) [0] [1].
Proof.
  apply accuracy_is_one_iff_half_separates.
  - discriminate.
  - reflexivity.
  - apply Forall_cons. split; [by right|constructor].
Defined.

Lemma score_dist_accuracy_raises_witness :
  score_dist_accuracy [0; 0] [] = None.
Proof. apply score_dist_accuracy_raises. by left. Defined.

Lemma small_net_on_a_batch :
  is_Some (batch_loss (H := plain_library) small_net linked_pair_graphs).
Proof.
  assert (Hb : match batch_loss (H := plain_library) small_net
                       linked_pair_graphs with
               | Some _ => true
               | None => false
               end = true) by (vm_compute; reflexivity).
  destruct (batch_loss _ _); [eauto|discriminate Hb].
Qed.

Lemma batch_reports_a_loss_and_a_fraction_witness :
  ∃ loss score net',
    batch_loss (H := plain_library) small_net linked_pair_graphs
      = Some (loss, score, net') ∧
    0 <= loss ∧ 0 <= score <= 1.
Proof.
  destruct small_net_on_a_batch as ([[loss score] net'] & Hrun).
  destruct (batch_reports_a_loss_and_a_fraction (H := plain_library) small_net
              linked_pair_graphs loss score net' Hrun) as (Hl & Hs & _).
  exists loss, score, net'. split; [exact Hrun|]. split; [exact Hl|exact Hs].
Defined.

Lemma batch_needs_matching_graphs_witness :
  batch_loss (H := plain_library) small_net lopsided_pair = None.
Proof.
  apply (batch_needs_matching_graphs (H := plain_library) small_net
           lopsided_pair [[0; 0; 0; 0; 0; 0]; [1; 0; 0; 0; 0; 1]]).
  - reflexivity.
  - reflexivity.
  - discriminate.
Defined.

Lemma epoch_needs_two_batches_witness :
  (train_one_epoch (H0 := plain_autograd) small_net 4 ()
     (replicate 7 linked_pair_graphs) () []).1 = None.
Proof.
  apply (epoch_needs_two_batches (H0 := plain_autograd)).
  rewrite length_replicate. lia.
Defined.

Lemma one_epoch_on_eight_pairs :
  ∃ r log',
    train_one_epoch (H0 := plain_autograd) small_net 4 ()
      (replicate 8 linked_pair_graphs) () []
    = (Some r, log').
Proof.
  assert (Hb : match (train_one_epoch (H0 := plain_autograd) small_net 4 ()
                        (replicate 8 linked_pair_graphs) () []).1 with
               | Some _ => true
               | None => false
               end = true) by (vm_compute; reflexivity).
  destruct (train_one_epoch _ _ _ _ _ _) as [[r|] log'];
    [eauto|discriminate Hb].
Qed.

Lemma epoch_returns_bounded_averages_witness :
  ∃ net' avg_loss avg_score log',
    train_one_epoch (H0 := plain_autograd) small_net 4 ()
      (replicate 8 linked_pair_graphs) () []
    = (Some (net', (), (), (avg_loss, avg_score)), log') ∧
    0 <= avg_loss ∧ 0 <= avg_score <= 100.
Proof.
  destruct one_epoch_on_eight_pairs
    as ([[[net' []] []] [avg_loss avg_score]] & log' & Hrun).
  destruct (epoch_returns_bounded_averages (H0 := plain_autograd) _ _ _ _ _ _
              _ _ _ _ _ _ Hrun) as [Hl Hs].
  exists net', avg_loss, avg_score, log'.
  split; [exact Hrun|]. split; [exact Hl|exact Hs].
Defined.

Lemma plot_clusters_draws_each_particle_once_witness :
  ∃ labels,
    StronglySorted Z.lt labels ∧
    plot_clusters (H := plain_library) [1; 2; 3] [4; 5; 6] [8; 7; 8]%Z []
    = (Some (),
       [] ++ ((λ g, EvScatter (points_of [1; 2; 3] [8; 7; 8]%Z g)
                      (points_of [4; 5; 6] [8; 7; 8]%Z g) g) <$> labels)
          ++ [EvShow]).
Proof.
  destruct (plot_clusters_draws_each_particle_once (H := plain_library)
              [1; 2; 3] [4; 5; 6] [8; 7; 8]%Z [])
    as (labels & Hs & _ & Hrun); [cbn; lia..|].
  exists labels. split; [exact Hs|exact Hrun].
Defined.

Lemma embedding_lists_stay_aligned_witness :
  ∃ net' st,
    embed_samples (H := plain_library) small_net
      (replicate 20 linked_pair_graphs)
      = Some (net', st) ∧
    length (emb_gnn st) = 20%nat ∧ length (pid st) = 20%nat.
Proof.
  destruct twenty_pairs_embedded as (net' & st & Hemb).
  destruct (embedding_lists_stay_aligned (H := plain_library) _ _ _ _ Hemb)
    as (_ & _ & He & Hp & _).
  rewrite length_replicate in He, Hp.
  exists net', st. split; [exact Hemb|]. split; [exact He|exact Hp].
Defined.

Lemma scoring_needs_twenty_samples_witness :
  ∃ st, final_score (H := plain_library) st = Some 1 ∧
        (20 ≤ length (emb_gnn st))%nat.
Proof.
  destruct twenty_pairs_final_score as (net' & st & _ & Hs).
  destruct (scoring_needs_twenty_samples (H := plain_library) st 1 Hs)
    as (He & _).
  by exists st.
Defined.

Lemma notebook_needs_twenty_samples_witness :
  (notebook (H0 := plain_autograd) short_pickle () []).1 = None.
Proof.
  apply (notebook_needs_twenty_samples (H0 := plain_autograd) short_pickle ()
           (replicate 19 linked_pair) []).
  - reflexivity.
  - rewrite length_replicate. lia.
Defined.


Lemma embedding_never_reads_the_truth_graphs_witness :
  embed_samples (H := plain_library) small_net [linked_pair_graphs]
  = embed_samples (H := plain_library) small_net
      [(linked_pair_graphs.1, coincident_pair)].
Proof.
  apply (embedding_never_reads_the_truth_graphs (H := plain_library)).
  reflexivity.
Defined.

Lemma batch_goes_through_iff_an_edge_witness :
  is_Some (batch_loss (H := plain_library) small_net linked_pair_graphs).
Proof.
  destruct small_net_on_linked_pair as ([[emb g'] net'] & Hrun).
  apply (batch_goes_through_iff_an_edge (H := plain_library) small_net
           linked_pair_graphs emb g' net' (TVec [1]) [1] Hrun).
  - by rewrite (GNN_forward_rows (H := plain_library) _ linked_pair_graphs.1
                  [[0; 0; 0; 0; 0; 0]; [1; 0; 0; 0; 0; 1]] _ _ _
                  eq_refl eq_refl Hrun).
  - repeat constructor.
  - reflexivity.
  - reflexivity.
  - reflexivity.
  - discriminate.
Defined.

Lemma epoch_reports_progress_every_half_witness :
  ∃ rest log',
    (train_one_epoch (H0 := plain_autograd) small_net 4 ()
       (replicate 8 linked_pair_graphs) () []).2 = log' ∧
    log' = [] ++ EvPrint (OutTraining 8) :: rest ∧
    omap progress_at rest = [4; 8]%nat.
Proof.
  destruct one_epoch_on_eight_pairs as (r & log' & Hrun).
  destruct (epoch_reports_progress_every_half (H0 := plain_autograd) _ _ _ _
              _ _ _ _ Hrun) as (rest & Hlog & _ & Hrest).
  exists rest, log'. split; [by rewrite Hrun|]. split; [exact Hlog|exact Hrest].
Defined.
